(** * Car recommendation engine: budget parser, normaliser, axes, ranking

    A shallow embedding of [expert_system.py].

    Numbers.  The program computes on float64 values held in pandas
    columns.  The engine is embedded twice.  In the main embedding a
    present number is an exact rational in canonical form ([Qc], so that
    equal values are equal terms, as two equal floats are) and NaN is a
    separate case; the general statements are proved there.  Each of them
    is one of three kinds, so that it holds of the float64 run as well:
    an equality between two runs of the same computation; the formula a
    value is computed by; or an order or bound that correctly rounded
    arithmetic keeps - where columns are normalised, stated for columns
    of moderate numbers ([finite_column]), on which nothing overflows or
    wraps around.  Module
    [F64] embeds the numeric code a second time, on the columns pandas
    holds (binary64, int64, bool), and is run on the inputs where exact
    and rounded arithmetic part: overflow, wrap-around, a bool column,
    weights of 0.1, a penalty below half an ulp.

    Text.  A Python [str] is modelled by its UTF-8 bytes ([string]).  Case
    folding and whitespace stripping act on the ASCII range; other code
    points pass through unchanged. *)

From Stdlib Require Import Ascii QArith Qcanon ZArith Lia Lqa Sorted.
From Stdlib Require Floats.
From stdpp Require Import gmap strings list numbers pretty.

Open Scope string_scope.
Open Scope list_scope.

(* ===================================================================== *)
(** ** Python string primitives used by the parser *)
(* ===================================================================== *)

Module PyStr.

Definition is_upper (c : ascii) : bool :=
  let n := Ascii.N_of_ascii c in (65 <=? n)%N && (n <=? 90)%N.

Definition lower_char (c : ascii) : ascii :=
  if is_upper c then Ascii.ascii_of_N (Ascii.N_of_ascii c + 32) else c.

(** [str.lower()] *)
Fixpoint lower (s : string) : string :=
  match s with
  | EmptyString => EmptyString
  | String c r => String (lower_char c) (lower r)
  end.

(** The ASCII characters [str.strip()] removes: tab, line feed, vertical
    tab, form feed, carriage return, the four separators 28-31, space. *)
Definition is_space (c : ascii) : bool :=
  let n := Ascii.N_of_ascii c in
  ((9 <=? n)%N && (n <=? 13)%N) || ((28 <=? n)%N && (n <=? 32)%N).

Fixpoint lstrip (s : string) : string :=
  match s with
  | EmptyString => EmptyString
  | String c r => if is_space c then lstrip r else s
  end.

Fixpoint rev_onto (s acc : string) : string :=
  match s with
  | EmptyString => acc
  | String c r => rev_onto r (String c acc)
  end.

Definition rev (s : string) : string := rev_onto s EmptyString.

Definition rstrip (s : string) : string := rev (lstrip (rev s)).

(** [str.strip()] *)
Definition strip (s : string) : string := rstrip (lstrip s).

(** [s.startswith(p)] *)
Fixpoint startswith (p s : string) : bool :=
  match p, s with
  | EmptyString, _ => true
  | String a p', String b s' => if Ascii.eqb a b then startswith p' s' else false
  | String _ _, EmptyString => false
  end.

(** [s.endswith(p)] *)
Definition endswith (p s : string) : bool := startswith (rev p) (rev s).

(** [p in s] *)
Fixpoint contains (p s : string) : bool :=
  startswith p s ||
  match s with
  | EmptyString => false
  | String _ r => contains p r
  end.

(** [s.replace(old, new)] for a non-empty [old]: occurrences are replaced
    from the left and do not overlap.  [skip] counts the characters of an
    occurrence that are still to be passed over. *)
Fixpoint replace_from (old new : string) (skip : nat) (s : string) : string :=
  match s with
  | EmptyString => EmptyString
  | String c r =>
      match skip with
      | S k => replace_from old new k r
      | O =>
          if startswith old s
          then String.append new (replace_from old new (String.length old - 1) r)
          else String c (replace_from old new 0 r)
      end
  end.

Definition replace (old new s : string) : string := replace_from old new 0 s.

(** [s[:-1]] *)
Fixpoint drop_last (s : string) : string :=
  match s with
  | EmptyString => EmptyString
  | String c EmptyString => EmptyString
  | String c r => String c (drop_last r)
  end.

Fixpoint take (n : nat) (s : string) : string :=
  match n, s with
  | S k, String c r => String c (take k r)
  | _, _ => EmptyString
  end.

Fixpoint drop (n : nat) (s : string) : string :=
  match n, s with
  | S k, String _ r => drop k r
  | _, _ => s
  end.

Definition is_digit (c : ascii) : bool :=
  let n := Ascii.N_of_ascii c in (48 <=? n)%N && (n <=? 57)%N.

Definition digit_val (c : ascii) : Z := Z.of_N (Ascii.N_of_ascii c) - 48.

(** Length of the longest prefix of [s] whose characters satisfy [p]. *)
Fixpoint span_len (p : ascii -> bool) (s : string) : nat :=
  match s with
  | EmptyString => O
  | String c r => if p c then S (span_len p r) else O
  end.

(** Value of a string of decimal digits, most significant first. *)
Fixpoint digits_val (acc : Z) (s : string) : Z :=
  match s with
  | EmptyString => acc
  | String c r => digits_val (10 * acc + digit_val c) r
  end.

End PyStr.

(* ===================================================================== *)
(** ** Budget parser ([parse_budget_input]) *)
(* ===================================================================== *)

Module Budget.
Import PyStr.

(** Ten to an integer power. *)
Definition pow10 (e : Z) : Qc :=
  if (0 <=? e)%Z then Q2Qc (inject_Z (10 ^ e))
  else Q2Qc (1 # Z.to_pos (10 ^ (- e))).

(** The rational denoted by sign [sg], integer digits [ip], fraction
    digits [fp] and decimal exponent [e]. *)
Definition decimal_value (sg : Z) (ip fp : string) (e : Z) : Qc :=
  let k := Z.of_nat (String.length fp) in
  (Q2Qc ((sg * (digits_val 0 ip * 10 ^ k + digits_val 0 fp))
         # Z.to_pos (10 ^ k)) * pow10 e)%Qc.

Definition sign_split (s : string) : Z * string :=
  match s with
  | String "+"%char r => (1%Z, r)
  | String "-"%char r => ((-1)%Z, r)
  | _ => (1%Z, s)
  end.

(** *** The pattern [[-+]?[0-9]*\.?[0-9]+]

    [match_number s] is the length of the match that starts at the head
    of [s], if there is one.  The digits before the point are taken
    greedily; a point counts only when a digit follows it, otherwise the
    engine backtracks and the match ends before the point. *)
Definition match_number (s : string) : option nat :=
  let sg := match s with
            | String "+"%char _ | String "-"%char _ => 1%nat
            | _ => O
            end in
  let r1 := drop sg s in
  let d1 := span_len is_digit r1 in
  let plain := if (0 <? d1)%nat then Some (sg + d1)%nat else None in
  match drop d1 r1 with
  | String "."%char r3 =>
      let d2 := span_len is_digit r3 in
      if (0 <? d2)%nat then Some (sg + d1 + 1 + d2)%nat else plain
  | _ => plain
  end.

(** [re.findall(pattern, s)]: the matches from left to right, none
    overlapping.  [skip] counts the characters of the last match that are
    still to be passed over. *)
Fixpoint findall_from (skip : nat) (s : string) : list string :=
  match s with
  | EmptyString => []
  | String _ r =>
      match skip with
      | S k => findall_from k r
      | O =>
          match match_number s with
          | Some n => take n s :: findall_from (n - 1) r
          | None => findall_from 0 r
          end
      end
  end.

Definition findall (s : string) : list string := findall_from 0 s.

(** *** [float(text)]

    Grammar: optional sign, then [digitpart [. [digitpart]] [exponent]]
    or [. digitpart [exponent]], surrounded by optional whitespace, where
    a digitpart is digits with single underscores between them.  [None]
    stands for [ValueError].  The spellings of infinity and NaN are also
    mapped to [None]: at both call sites below the next operation is
    [int(round(...))] inside the same [try], which raises on them, so the
    handler runs exactly as it does for [ValueError]. *)
Definition is_digit_or_us (c : ascii) : bool :=
  is_digit c || Ascii.eqb c "_"%char.

Fixpoint underscores_ok (s : string) : bool :=
  match s with
  | EmptyString => true
  | String c r =>
      (if Ascii.eqb c "_"%char
       then match r with String d _ => is_digit d | EmptyString => false end
       else true) && underscores_ok r
  end.

Fixpoint remove_underscores (s : string) : string :=
  match s with
  | EmptyString => EmptyString
  | String c r =>
      if Ascii.eqb c "_"%char then remove_underscores r
      else String c (remove_underscores r)
  end.

(** Reads an optional digitpart: its digits and the rest of the text;
    [None] when underscores are misplaced. *)
Definition read_digitpart (s : string) : option (string * string) :=
  let n := span_len is_digit_or_us s in
  let g := take n s in
  match g with
  | EmptyString => Some (EmptyString, s)
  | String c _ =>
      if is_digit c && underscores_ok g
      then Some (remove_underscores g, drop n s)
      else None
  end.

Definition is_empty (s : string) : bool :=
  match s with EmptyString => true | _ => false end.

Definition py_float (text : string) : option Qc :=
  let '(sg, r) := sign_split (strip text) in
  '(ip, r1) ← read_digitpart r;
  '(fp, r2) ← match r1 with
              | String "."%char r1' => read_digitpart r1'
              | _ => Some (EmptyString, r1)
              end;
  if is_empty ip && is_empty fp then None
  else
    match r2 with
    | EmptyString => Some (decimal_value sg ip fp 0)
    | String c r3 =>
        if Ascii.eqb c "e"%char || Ascii.eqb c "E"%char then
          let '(esg, r4) := sign_split r3 in
          '(ed, r5) ← read_digitpart r4;
          if is_empty ed || negb (is_empty r5) then None
          else Some (decimal_value sg ip fp (esg * digits_val 0 ed))
        else None
    end.

(** [round(x)] on a float: to the nearest integer, ties to the even one. *)
Definition py_round (x : Qc) : Z :=
  let n := Qnum (this x) in
  let d := Z.pos (Qden (this x)) in
  let f := (n / d)%Z in
  match (2 * (n mod d) ?= d)%Z with
  | Lt => f
  | Gt => (f + 1)%Z
  | Eq => if Z.even f then f else (f + 1)%Z
  end.

Definition Qc_ltb (x y : Qc) : bool := bool_decide (x < y)%Qc.
Definition Qc_leb (x y : Qc) : bool := bool_decide (x <= y)%Qc.

(** [float(m[0])] for the first match of the pattern. *)
Definition first_number (s0 : string) : option Qc :=
  match findall s0 with
  | [] => None
  | m0 :: _ => py_float m0
  end.

Definition rupee : string := "₹".

(** [parse_budget_input(s)]; [None] is Python's [None] on both sides. *)
Definition parse_budget_input (s : option string) : option Z :=
  match s with
  | None => None
  | Some s =>
      let s0 := replace rupee EmptyString
                  (replace "," EmptyString (lower (strip s))) in
      if is_empty s0 then None
      (* crores *)
      else if contains "cr" s0 || contains "crore" s0 then
        match first_number s0 with
        | Some v => Some (py_round (v * Qc_of_Z 10000000))
        | None => None
        end
      (* lakhs *)
      else if (contains "lakh" s0 || contains "lakhs" s0)
              && negb (endswith "k" s0) then
        match first_number s0 with
        | Some v => Some (py_round (v * Qc_of_Z 100000))
        | None => None
        end
      else
        (* trailing 'l' meaning lakhs; a failure falls through *)
        match (if endswith "l" s0 && negb (endswith "k" s0)
               then py_float (drop_last s0) else None) with
        | Some v => Some (py_round (v * Qc_of_Z 100000))
        | None =>
            (* thousands *)
            if endswith "k" s0 then
              match py_float (drop_last s0) with
              | Some v => Some (py_round (v * Qc_of_Z 1000))
              | None => None
              end
            else
              match first_number s0 with
              | None => None
              | Some val =>
                  if Qc_leb (Qc_of_Z 100000) val then Some (py_round val)
                  else if Qc_ltb (Qc_of_Z 1000) val
                          && Qc_ltb val (Qc_of_Z 100000)
                  then Some (py_round val)
                  else Some (py_round (val * Qc_of_Z 100000))
              end
        end
  end.

End Budget.

(* ===================================================================== *)
(** ** Fuel categories ([map_fuel_to_category]) *)
(* ===================================================================== *)

Module Fuel.
Import PyStr.

Definition FUEL_CATEGORIES : list string :=
  ["Petrol"; "Diesel"; "Hybrid"; "CNG"].

(** [map_fuel_to_category(s)].  The argument is [None] or a text, on
    which [str(s)] is the identity ([load_data] applies the function to a
    column already cast with [astype(str)]). *)
Definition map_fuel_to_category (s : option string) : string :=
  match s with
  | None => "Petrol"
  | Some s =>
      let stt := lower s in
      if contains "cng" stt then "CNG"
      else if contains "diesel" stt || contains "deisel" stt then "Diesel"
      else if contains "hybrid" stt || contains "phev" stt
              || contains "plug-in" stt || contains "plug in" stt
              || contains "mild" stt then "Hybrid"
      else if contains "petrol" stt || contains "gasoline" stt
              || contains "turbo" stt || contains "petrol " stt
              || contains "petrol(" stt then "Petrol"
      else "Petrol"
  end.

(** The order in which the tests are made, as a rank: a category is
    returned only when no test of a higher rank succeeded. *)
Definition precedence (category : string) : nat :=
  if decide (category = "CNG") then 3
  else if decide (category = "Diesel") then 2
  else if decide (category = "Hybrid") then 1
  else 0.

End Fuel.

(* ===================================================================== *)
(** ** Notions used to state the properties of the parser *)
(* ===================================================================== *)

(** Every character of [s] satisfies [p]. *)
Fixpoint all_chars (p : ascii → bool) (s : string) : bool :=
  match s with
  | EmptyString => true
  | String c r => p c && all_chars p r
  end.

(** A non-empty string of decimal digits. *)
Definition digit_string (s : string) : bool :=
  negb (Budget.is_empty s) && all_chars PyStr.is_digit s.

(** A character that lower-casing and the removal of commas and rupee
    signs leave alone: ASCII, no capital letter, no comma. *)
Definition plain_char (c : ascii) : bool :=
  negb (PyStr.is_upper c) && negb (Ascii.eqb c ","%char)
  && (Ascii.N_of_ascii c <? 128)%N.

(** A text at which a number of the pattern ends: the empty text, or one
    that starts with neither a digit nor a point. *)
Definition number_stop (t : string) : bool :=
  match t with
  | EmptyString => true
  | String c _ => negb (PyStr.is_digit c) && negb (Ascii.eqb c "."%char)
  end.

(* ===================================================================== *)
(** ** Table model *)
(* ===================================================================== *)

(** A float64 value: [None] is NaN. *)
Abbreviation float := (option Qc).

(** One cell of a column: a number, NaN, Python's [None], or text. *)
Inductive cell : Type :=
  | CNum (x : Qc)
  | CNaN
  | CNone
  | CStr (s : string).

Global Instance cell_eq_dec : EqDecision cell.
Proof. solve_decision. Defined.

(** A data frame: the number of rows (its index) and the columns by name.
    Row labels are positions; every column of a well-formed frame has one
    cell per row. *)
Record DataFrame : Type := mkDF {
  nrows : nat;
  columns : gmap string (list cell)
}.

Definition wf_df (df : DataFrame) : Prop :=
  ∀ c s, columns df !! c = Some s → length s = nrows df.

Global Instance wf_df_dec (df : DataFrame) : Decision (wf_df df).
Proof.
  refine (cast_if (decide (map_Forall (λ _ s, length s = nrows df) (columns df))));
    unfold wf_df, map_Forall in *; done.
Defined.

(** Exceptions the engine can raise. *)
Inductive exn : Type :=
  | KeyError (key : string)
  | TypeError
  | ZeroDivisionError.

Inductive result (A : Type) : Type :=
  | Ok (a : A)
  | Raise (e : exn).
Arguments Ok {A} a.
Arguments Raise {A} e.

Definition bind {A B : Type} (r : result A) (k : A → result B) : result B :=
  match r with
  | Ok a => k a
  | Raise e => Raise e
  end.

Notation "'do' x <- r ; k" := (bind r (fun x => k))
  (at level 10, x name, r at level 100, k at level 200).

(** Applies [f] to the elements in order; the first exception wins. *)
Fixpoint mapM {A B : Type} (f : A → result B) (l : list A) : result (list B) :=
  match l with
  | [] => Ok []
  | a :: r => do b <- f a; do bs <- mapM f r; Ok (b :: bs)
  end.

Definition has_column (df : DataFrame) (c : string) : bool :=
  bool_decide (is_Some (columns df !! c)).

(** [df[c] = s] *)
Definition set_column (df : DataFrame) (c : string) (s : list cell) : DataFrame :=
  mkDF (nrows df) (<[c := s]> (columns df)).

(** [df[c]]; an absent name is a [KeyError]. *)
Definition get_column (df : DataFrame) (c : string) : result (list cell) :=
  match columns df !! c with
  | Some s => Ok s
  | None => Raise (KeyError c)
  end.

Definition float_cell (v : float) : cell :=
  match v with
  | Some x => CNum x
  | None => CNaN
  end.

(** [pd.isna] on a cell *)
Definition isna (c : cell) : bool :=
  match c with
  | CNaN | CNone => true
  | _ => false
  end.

(** The value of a cell of a numeric column. *)
Definition cell_float (c : cell) : float :=
  match c with
  | CNum x => Some x
  | _ => None
  end.

Definition Qc_eqb (x y : Qc) : bool := bool_decide (x = y).
Definition Qc_min (x y : Qc) : Qc := if decide (x ≤ y)%Qc then x else y.
Definition Qc_max (x y : Qc) : Qc := if decide (x ≤ y)%Qc then y else x.

Definition Qc_of_nat (n : nat) : Qc := Qc_of_Z (Z.of_nat n).

Definition Qc_sum (l : list Qc) : Qc := foldr Qcplus 0%Qc l.

(** The values present in a float column (NaN skipped, order kept). *)
Definition present (s : list float) : list Qc := omap id s.

(** [s.min()] and [s.max()]: NaN is skipped; NaN when nothing is present. *)
Definition series_min (s : list float) : float :=
  match present s with
  | [] => None
  | x :: r => Some (foldr Qc_min x r)
  end.

Definition series_max (s : list float) : float :=
  match present s with
  | [] => None
  | x :: r => Some (foldr Qc_max x r)
  end.

Fixpoint insert_sorted (x : Qc) (l : list Qc) : list Qc :=
  match l with
  | [] => [x]
  | y :: r => if decide (x ≤ y)%Qc then x :: l else y :: insert_sorted x r
  end.

Definition sort_asc (l : list Qc) : list Qc := foldr insert_sorted [] l.

(** [s.median()]: the middle of the sorted present values, the mean of
    the two middle ones for an even count, NaN when nothing is present. *)
Definition series_median (s : list float) : float :=
  let xs := sort_asc (present s) in
  let n := length xs in
  if (n =? 0)%nat then None
  else if Nat.odd n then xs !! (n / 2)%nat
  else
    match xs !! (n / 2 - 1)%nat, xs !! (n / 2)%nat with
    | Some a, Some b => Some ((a + b) / Qc_of_nat 2)%Qc
    | _, _ => None
    end.

(** [s.fillna(v)]; filling with NaN changes nothing. *)
Definition fillna (s : list float) (v : float) : list float :=
  map (fun x => match x with Some _ => x | None => v end) s.

(** [pd.Series(0.0, index=...)] *)
Definition zeros (n : nat) : list float := replicate n (Some 0%Qc).

(** Float arithmetic: NaN in, NaN out.  The one division of columns, in
    [normalize_series], is reached only with a non-zero divisor. *)
Definition fsub (a b : float) : float :=
  match a, b with Some x, Some y => Some (x - y)%Qc | _, _ => None end.
Definition fdiv (a b : float) : float :=
  match a, b with Some x, Some y => Some (x / y)%Qc | _, _ => None end.

(** The mean of the present values of a row; NaN when none is. *)
Definition mean_skipna (row : list float) : float :=
  match present row with
  | [] => None
  | xs => Some (Qc_sum xs / Qc_of_nat (length xs))%Qc
  end.

(** [pd.concat(cols, axis=1).mean(axis=1)] over [n] rows. *)
Definition row_mean (n : nat) (cols : list (list float)) : list float :=
  map (fun i => mean_skipna (map (fun c => mjoin (c !! i)) cols)) (seq 0 n).

(** [df.head(n)] on one column: the first [n] rows, or for a negative [n]
    all rows but the last [-n]. *)
Definition head {A : Type} (n : Z) (l : list A) : list A :=
  if (0 <=? n)%Z then take (Z.to_nat n) l
  else take (length l - Z.to_nat (- n)) l.

(** The rows of a column at the given positions, in that order. *)
Definition take_rows (idx : list nat) (s : list cell) : list cell :=
  omap (fun i => s !! i) idx.

(** Stable insertion sort of positions by decreasing key, the reference
    instance of [argsort] further down: a row goes in front of the first
    row whose key is not larger, so rows with equal keys keep their input
    order. *)
Fixpoint insert_desc (p : nat * Qc) (l : list (nat * Qc)) : list (nat * Qc) :=
  match l with
  | [] => [p]
  | q :: r => if decide (q.2 ≤ p.2)%Qc then p :: l else q :: insert_desc p r
  end.

Definition stable_argsort (keys : list Qc) : list nat :=
  map fst (foldr insert_desc [] (zip (seq 0 (length keys)) keys)).

(** A reference reading of text cells as numbers: Python's float grammar. *)
Definition float_of_text (s : string) : float := Budget.py_float s.

(** A reference list of the texts pandas reads as an infinity. *)
Definition spells_infinity (s : string) : bool :=
  bool_decide (PyStr.lower (PyStr.strip s)
               ∈ ["inf"; "+inf"; "-inf"; "infinity"; "+infinity"; "-infinity"]).

(** A reference rendering of numbers: an integer value as its digits and
    [.0], as Python prints a float; other values as a fraction, in place
    of the shortest decimal that reads back. *)
Definition render_number (x : Qc) : string :=
  let q := this x in
  if (Qden q =? 1)%positive then pretty (Qnum q) +:+ ".0"
  else pretty (Qnum q) +:+ "/" +:+ pretty (Z.pos (Qden q)).

(** *** Sample data *)

Definition num (z : Z) : cell := CNum (Qc_of_Z z).

Definition three_cars : DataFrame :=
  mkDF 3 (list_to_map
    [("price_inr", [num 500000; num 1200000; num 2000000]);
     ("power_bhp", [num 80; CStr "n/a"; num 200]);
     ("fuel_category", [CStr "Petrol"; CStr "Diesel"; CNaN])]).


Definition no_price : DataFrame :=
  mkDF 1 (list_to_map [("power_bhp", [num 100])]).

Definition budget (z : Z) : option (gmap string Qc) :=
  Some (list_to_map [("max_budget", Qc_of_Z z)]).

Definition six_weights (z : Z) : gmap string Qc :=
  list_to_map [("performance", Qc_of_Z z); ("economy", Qc_of_Z z);
               ("safety", Qc_of_Z z); ("comfort", Qc_of_Z z);
               ("ownership", Qc_of_Z z); ("price", Qc_of_Z z)].

(** Readings of a result that compare by value. *)
Definition result_rows (r : result DataFrame) : option nat :=
  match r with
  | Ok D => Some (nrows D)
  | Raise _ => None
  end.

Definition column_values (D : DataFrame) (c : string) : option (list (option Q)) :=
  map (λ x, match x with CNum q => Some (this q) | _ => None end)
    <$> columns D !! c.

Definition result_column (r : result DataFrame) (c : string)
    : option (list (option Q)) :=
  match r with
  | Ok D => column_values D c
  | Raise _ => None
  end.

(* ===================================================================== *)
(** ** Price display ([format_price]) *)
(* ===================================================================== *)

(** What [format_price] is called with: an [int] (a parsed budget, or
    [int(avg_price)]) or a cell of a numeric column - a float, NaN or
    [None]. *)
Inductive price_arg : Type :=
  | PInt (n : Z)
  | PFloat (x : float)
  | PNone.

(** [int(x)] on a float: truncation towards zero. *)
Definition int_of_float (x : Qc) : Z :=
  Z.quot (Qnum (this x)) (Z.pos (Qden (this x))).

Section Display.

(** [round_text x nd] stands for the text that the f-string makes of
    [round(x, nd)], the shortest decimal that reads back as that float. *)
Variable round_text : Qc → Z → string.

(** [format_price(inr)].  On the arguments above [int(inr)] and the two
    divisions do not raise, so the handler's [str(inr)] is never reached. *)
Definition format_price (inr : price_arg) : string :=
  match inr with
  | PNone | PFloat None => "N/A"
  | PInt _ | PFloat (Some _) =>
      let inr := match inr with
                 | PInt n => n
                 | PFloat (Some x) => int_of_float x
                 | _ => 0%Z
                 end in
      if (10000000 <=? inr)%Z
      then Budget.rupee
           +:+ round_text (Qc_of_Z inr / Qc_of_Z 10000000)%Qc 2 +:+ " Cr"
      else if (100000 <=? inr)%Z
      then Budget.rupee
           +:+ round_text (Qc_of_Z inr / Qc_of_Z 100000)%Qc 1 +:+ " L"
      else Budget.rupee +:+ pretty inr
  end.

End Display.

(** The value [format_price] formats: [int(inr)], when there is one. *)
Definition price_int (inr : price_arg) : option Z :=
  match inr with
  | PInt n => Some n
  | PFloat (Some x) => Some (int_of_float x)
  | _ => None
  end.

(* ===================================================================== *)
(** ** Session state of the dashboard ([app.py]) *)
(* ===================================================================== *)

Module App.

(** The entries of [st.session_state] that the helpers below read and
    write, and the warnings they have shown. *)
Record session : Type := mkSession {
  shortlist : list string;
  compare : list string;
  warnings : list string
}.

(** [l.remove(x)]: the first occurrence of [x] goes.  Both callers test
    [x in l] first, so the [ValueError] of an absent [x] is not modelled:
    the list is returned as it is. *)
Fixpoint list_remove (x : string) (l : list string) : list string :=
  match l with
  | [] => []
  | y :: r => if decide (y = x) then r else y :: list_remove x r
  end.

Definition add_to_shortlist (uid : string) (st : session) : session :=
  if bool_decide (uid ∈ shortlist st) then st
  else mkSession (shortlist st ++ [uid]) (compare st) (warnings st).

Definition remove_from_shortlist (uid : string) (st : session) : session :=
  if bool_decide (uid ∈ shortlist st)
  then mkSession (list_remove uid (shortlist st)) (compare st) (warnings st)
  else st.

Definition toggle_compare (uid : string) (st : session) : session :=
  if bool_decide (uid ∈ compare st)
  then mkSession (shortlist st) (list_remove uid (compare st)) (warnings st)
  else if (3 <=? length (compare st))%nat
  then mkSession (shortlist st) (compare st)
         (warnings st ++ ["Compare limited to 3 cars."])
  else mkSession (shortlist st) (compare st ++ [uid]) (warnings st).

(** The state the script starts a session with. *)
Definition initial : session := mkSession [] [] [].

(** No car is listed twice, and at most three are compared. *)
Definition session_ok (st : session) : Prop :=
  NoDup (shortlist st) ∧ NoDup (compare st) ∧ (length (compare st) ≤ 3)%nat.

(** [s[mask]] for a boolean mask aligned with [s]: the entries where the
    mask is true. *)
Fixpoint keep {A : Type} (mask : list bool) (s : list A) : list A :=
  match mask, s with
  | b :: mask, x :: s => if b then x :: keep mask s else keep mask s
  | _, _ => []
  end.

(** [df[mask]] *)
Definition select_rows (mask : list bool) (df : DataFrame) : DataFrame :=
  mkDF (length (keep mask (seq 0 (nrows df)))) (keep mask <$> columns df).

(** One row of [price.fillna(0) >= min_budget]; an order test between a
    text and a number is a [TypeError]. *)
Definition at_least (min_budget : Z) (c : cell) : result bool :=
  match c with
  | CNum x => Ok (Budget.Qc_leb (Qc_of_Z min_budget) x)
  | CNaN | CNone => Ok (min_budget <=? 0)%Z
  | CStr _ => Raise TypeError
  end.

(** One row of [price.fillna(np.inf) <= max_budget]: a missing price is
    above every budget. *)
Definition at_most (max_budget : Z) (c : cell) : result bool :=
  match c with
  | CNum x => Ok (Budget.Qc_leb x (Qc_of_Z max_budget))
  | CNaN | CNone => Ok false
  | CStr _ => Raise TypeError
  end.

(** The two budget filters of the script, from [df_raw] and the parsed
    budgets to [df_filtered]. *)
Definition budget_filter (df_raw : DataFrame) (min_budget max_budget : option Z)
    : result DataFrame :=
  let df_filtered := df_raw in
  let price_col_guess :=
    if has_column df_filtered "price_inr" then Some "price_inr" else None in
  do df_filtered <-
    match min_budget, price_col_guess with
    | Some mn, Some p =>
        do price <- get_column df_filtered p;
        do mask <- mapM (at_least mn) price;
        Ok (select_rows mask df_filtered)
    | _, _ => Ok df_filtered
    end;
  match max_budget, price_col_guess with
  | Some mx, Some p =>
      do price <- get_column df_filtered p;
      do mask <- mapM (at_most mx) price;
      Ok (select_rows mask df_filtered)
  | _, _ => Ok df_filtered
  end.

End App.

(* ===================================================================== *)
(** ** The numeric code on pandas' own columns (binary64, int64, bool) *)
(* ===================================================================== *)

(** The engine further down computes on exact numbers; its statements
    are worded so that they survive correctly rounded arithmetic on the
    columns they cover.  This module is the same code on the columns
    pandas actually holds - binary64 with its rounding, overflow and NaN,
    int64 with its wrap-around, bool - so that it can be run on the
    inputs where the two readings part. *)
Module F64.
Import PrimFloat.
Local Open Scope float_scope.

(** A column once [pd.to_numeric] has run: it leaves these three dtypes
    as they are. *)
Inductive series : Type :=
  | Float64 (v : list float)
  | Int64 (v : list Z)
  | Bool (v : list bool).

Record frame : Type := mkFrame {
  nrows : nat;
  columns : gmap string series
}.

(** An integer as a binary64 number: to nearest, ties to even. *)
Definition of_int (z : Z) : float :=
  FloatOps.SF2Prim
    (SpecFloat.binary_normalize FloatOps.prec FloatOps.emax z 0 false).

(** int64 arithmetic wraps around. *)
Definition wrap (z : Z) : Z := ((z + 2 ^ 63) mod 2 ^ 64 - 2 ^ 63)%Z.

Definition zeros (n : nat) : list float := replicate n 0.

(** The values present in a float column (NaN skipped). *)
Definition present (v : list float) : list float :=
  List.filter (fun x => negb (is_nan x)) v.

Definition fmin (a b : float) : float := if a <=? b then a else b.
Definition fmax (a b : float) : float := if a <=? b then b else a.

Definition series_min (v : list float) : float :=
  match present v with
  | [] => nan
  | x :: r => foldr fmin x r
  end.

Definition series_max (v : list float) : float :=
  match present v with
  | [] => nan
  | x :: r => foldr fmax x r
  end.

Fixpoint insert_sorted (x : float) (l : list float) : list float :=
  match l with
  | [] => [x]
  | y :: r => if x <=? y then x :: l else y :: insert_sorted x r
  end.

(** [s.median()]: the middle of the sorted present values, the mean of
    the two middle ones for an even count. *)
Definition series_median (v : list float) : float :=
  let xs := foldr insert_sorted [] (present v) in
  let n := length xs in
  if (n =? 0)%nat then nan
  else if Nat.odd n then nth (n / 2) xs nan
  else (nth (n / 2 - 1) xs nan + nth (n / 2) xs nan) / 2.

Definition fillna (v : list float) (m : float) : list float :=
  map (fun x => if is_nan x then m else x) v.

(** [normalize_series] on a float64 column. *)
Definition normalize_floats (v : list float) : list float :=
  if forallb is_nan v then zeros (length v)
  else
    let s_filled := fillna v (series_median v) in
    let mn := series_min s_filled in
    let mx := series_max s_filled in
    if is_nan mn || is_nan mx || (mx =? mn) then zeros (length v)
    else map (fun x => (x - mn) / (mx - mn)) s_filled.

(** On an int64 column nothing is missing; the two subtractions are
    int64 subtractions, the division converts to binary64. *)
Definition normalize_ints (v : list Z) : list float :=
  match v with
  | [] => []
  | x :: r =>
      let mn := foldr Z.min x r in
      let mx := foldr Z.max x r in
      if (mx =? mn)%Z then zeros (length v)
      else map (fun x => of_int (wrap (x - mn)) / of_int (wrap (mx - mn))) v
  end.

(** On a bool column that holds both values, [s_filled - mn] is a
    subtraction of booleans, which numpy refuses. *)
Definition normalize_bools (v : list bool) : result (list float) :=
  match v with
  | [] => Ok []
  | x :: r =>
      if forallb (Bool.eqb x) r then Ok (zeros (length v))
      else Raise TypeError
  end.

Definition normalize_series (s : series) : result (list float) :=
  match s with
  | Float64 v => Ok (normalize_floats v)
  | Int64 v => Ok (normalize_ints v)
  | Bool v => normalize_bools v
  end.

(** [pd.concat(cols, axis=1).mean(axis=1)] at one row: the mean of the
    values present, NaN when none is. *)
Definition mean_skipna (row : list float) : float :=
  match present row with
  | [] => nan
  | xs => fold_left add xs 0 / of_int (Z.of_nat (length xs))
  end.

Definition row_mean (n : nat) (cols : list (list float)) : list float :=
  map (fun i => mean_skipna (map (fun c => nth i c nan) cols)) (seq 0 n).

Definition mean_axis (df : frame) (names : list string) : result (list float) :=
  match omap (fun c => columns df !! c) names with
  | [] => Ok (zeros (nrows df))
  | cols => do ns <- mapM normalize_series cols; Ok (row_mean (nrows df) ns)
  end.

(** [df[c].fillna(df[c].median())]: only a float column has anything to
    fill. *)
Definition fill_median (s : series) : series :=
  match s with
  | Float64 v => Float64 (fillna v (series_median v))
  | _ => s
  end.

Definition inverted_axis (df : frame) (c : string) : result (list float) :=
  match columns df !! c with
  | Some s =>
      do n <- normalize_series (fill_median s);
      Ok (map (fun x => 1 - x) n)
  | None => Ok (zeros (nrows df))
  end.

Definition compute_axes (df : frame) : result frame :=
  do perf <- mean_axis df ["power_bhp"; "torque_nm"; "top_speed_kmph"];
  do eco <- mean_axis df ["mileage_value"; "range_km_est"];
  do safety <- mean_axis df ["airbags_num"; "adas_level_num"];
  do comfort <- mean_axis df
                  ["sunroof_yes"; "cruise_control_yes"; "ground_clearance_mm"];
  do ownership <- inverted_axis df "service_cost_per_year_avg";
  do price <- inverted_axis df "price_inr";
  Ok (mkFrame (nrows df)
        (<["axis_price" := Float64 price]>
        (<["axis_ownership" := Float64 ownership]>
        (<["axis_comfort" := Float64 comfort]>
        (<["axis_safety" := Float64 safety]>
        (<["axis_economy" := Float64 eco]>
        (<["axis_performance" := Float64 perf]> (columns df)))))))).

(** [w.sum()] *)
Definition np_sum (w : list float) : float := fold_left add w 0.

(** [if w.sum() == 0: w = np.ones_like(w)] and [w = w / w.sum()], on the
    vector read from the weights dict. *)
Definition normalized_weights (w : list float) : list float :=
  let w := if np_sum w =? 0 then map (fun _ => 1) w else w in
  map (fun x => x / np_sum w) w.


(** [lambda p: 0 if pd.isna(p) else max(0, (p - maxb) / (maxb + 1))] for
    an integer budget other than -1. *)
Definition budget_penalty (maxb : Z) (p : float) : float :=
  if is_nan p then 0
  else
    let q := (p - of_int maxb) / of_int (maxb + 1) in
    if 0 <? q then q else 0.

(** [D["final_score"] - 0.5 * D["budget_penalty"]] at one row. *)
Definition penalised (score : float) (maxb : Z) (p : float) : float :=
  score - 0.5 * budget_penalty maxb p.

End F64.

(* ===================================================================== *)
(** ** The engine *)
(* ===================================================================== *)

Section Engine.

Set Default Proof Using "Type".

(** Three library behaviours the program relies on and does not define:
    how pandas reads a text cell as a number ([pd.to_numeric] with
    [errors="coerce"], NaN when it cannot), how a number is rendered by
    [astype(str)], and the order [sort_values] computes, given as the
    positions of the rows in the sorted frame. *)
Variable to_numeric_text : string → float.
Variable str_of_num : Qc → string.
Variable argsort : list Qc → list nat.

(** What is assumed of the sort: it returns every row position once, and
    the keys read in that order never increase.  The order of rows with
    equal keys is left open, as it is by the default sort kind. *)
Hypothesis argsort_perm : ∀ keys, argsort keys ≡ₚ seq 0 (length keys).
Hypothesis argsort_sorted : ∀ keys,
  StronglySorted (λ a b, (b ≤ a)%Qc) (omap (λ i, keys !! i) (argsort keys)).

(** [pd.to_numeric(s, errors="coerce")] *)
Definition to_numeric_cell (c : cell) : float :=
  match c with
  | CNum x => Some x
  | CNaN | CNone => None
  | CStr t => to_numeric_text t
  end.

Definition to_numeric (s : list cell) : list float := map to_numeric_cell s.

Definition isnull (v : float) : bool :=
  match v with None => true | Some _ => false end.

(** [normalize_series(s)] *)
Definition normalize_series (s : list cell) : list float :=
  let s := to_numeric s in
  if forallb isnull s then zeros (length s)
  else
    let s_filled := fillna s (series_median s) in
    match series_min s_filled, series_max s_filled with
    | Some mn, Some mx =>
        if Qc_eqb mx mn then zeros (length s)
        else map (fun v => fdiv (fsub v (Some mn)) (fsub (Some mx) (Some mn)))
                 s_filled
    | _, _ => zeros (length s)
    end.

(** *** [compute_axes] *)

Definition numeric_columns : list string :=
  ["power_bhp"; "torque_nm"; "top_speed_kmph"; "mileage_value"; "range_km_est";
   "airbags_num"; "adas_level_num"; "service_cost_per_year_avg";
   "ground_clearance_mm"; "sunroof_yes"; "cruise_control_yes"; "price_inr"].

Definition perf_columns : list string :=
  ["power_bhp"; "torque_nm"; "top_speed_kmph"].
Definition eco_columns : list string := ["mileage_value"; "range_km_est"].
Definition safety_columns : list string := ["airbags_num"; "adas_level_num"].
Definition comfort_columns : list string :=
  ["sunroof_yes"; "cruise_control_yes"; "ground_clearance_mm"].

(** The loop [df[col] = pd.to_numeric(df[col], errors="coerce")] over the
    columns that are present. *)
Definition coerce_column (df : DataFrame) (col : string) : DataFrame :=
  match columns df !! col with
  | Some s => set_column df col (map float_cell (to_numeric s))
  | None => df
  end.

Definition coerce_columns (df : DataFrame) : DataFrame :=
  foldl coerce_column df numeric_columns.

(** [[c for c in names if c in df.columns]] *)
Definition present_columns (df : DataFrame) (names : list string) : list string :=
  filter (fun c => has_column df c = true) names.

(** The series [df[c]] of a column known to be present. *)
Definition column_of (df : DataFrame) (c : string) : list cell :=
  default [] (columns df !! c).

(** An axis that averages the normalised columns present among [names]. *)
Definition mean_axis (df : DataFrame) (names : list string) : list float :=
  match present_columns df names with
  | [] => zeros (nrows df)
  | cols => row_mean (nrows df)
              (map (fun c => normalize_series (column_of df c)) cols)
  end.

(** An inverted axis:
    [1.0 - normalize_series(df[c].fillna(df[c].median()))]. *)
Definition inverted_axis (df : DataFrame) (c : string) : list float :=
  match columns df !! c with
  | Some s =>
      let col := map cell_float s in
      map (fun v => fsub (Some 1%Qc) v)
          (normalize_series (map float_cell (fillna col (series_median col))))
  | None => zeros (nrows df)
  end.

Definition axis_names : list string :=
  ["axis_performance"; "axis_economy"; "axis_safety"; "axis_comfort";
   "axis_ownership"; "axis_price"].

(** The six series of the [axes] frame, in the order of [axis_names]. *)
Definition axes_of (df : DataFrame) : list (string * list float) :=
  [("axis_performance", mean_axis df perf_columns);
   ("axis_economy", mean_axis df eco_columns);
   ("axis_safety", mean_axis df safety_columns);
   ("axis_comfort", mean_axis df comfort_columns);
   ("axis_ownership", inverted_axis df "service_cost_per_year_avg");
   ("axis_price", inverted_axis df "price_inr")].

Definition compute_axes (df : DataFrame) : DataFrame :=
  let df := coerce_columns df in
  foldl (fun d a => set_column d a.1 (map float_cell a.2)) df (axes_of df).

(** *** [recommend] *)

(** [astype(str)] on a cell *)
Definition str_of_cell (c : cell) : string :=
  match c with
  | CStr t => t
  | CNaN => "nan"
  | CNone => "None"
  | CNum x => str_of_num x
  end.

Definition bool_float (b : bool) : cell := CNum (if b then 1%Qc else 0%Qc).

(** [(D.get("fuel_category", pd.Series(dtype=object)).fillna('')
      .astype(str) == selected_fuel).astype(float)] as it lands in [D]:
    the empty default has no row in common with [D], so every row of the
    new column is NaN. *)
Definition fuel_pref_column (D : DataFrame) (selected_fuel : string) : list cell :=
  match columns D !! "fuel_category" with
  | Some s =>
      map (fun c => bool_float
             (String.eqb (if isna c then EmptyString else str_of_cell c)
                         selected_fuel)) s
  | None => replicate (nrows D) CNaN
  end.

(** [D.get("body_type", D.get("original_body_type", pd.Series()))
      .astype(str).str.strip().str.lower()] as it lands in [D]. *)
Definition body_clean_column (D : DataFrame) : list cell :=
  let clean := map (fun c => CStr (PyStr.lower (PyStr.strip (str_of_cell c)))) in
  match columns D !! "body_type" with
  | Some s => clean s
  | None =>
      match columns D !! "original_body_type" with
      | Some s => clean s
      | None => replicate (nrows D) CNaN
      end
  end.

(** [.str.contains(re.escape(sel_body), na=False).astype(float)]: the
    escaped pattern matches exactly where the text occurs. *)
Definition body_pref_cell (sel_body : string) (c : cell) : cell :=
  match c with
  | CStr t => bool_float (PyStr.contains sel_body t)
  | _ => bool_float false
  end.

(** Truth value of an optional string: neither [None] nor empty. *)
Definition truthy_str (s : option string) : option string :=
  match s with
  | Some t => if Budget.is_empty t then None else Some t
  | None => None
  end.

(** The frame after the two soft-preference blocks, with the names
    appended to [extra_axis_names]. *)
Definition add_soft_axes (D : DataFrame) (soft_fuel soft_body : bool)
    (selected_fuel selected_body : option string) : DataFrame * list string :=
  let '(D, extra) :=
    match (if soft_fuel then truthy_str selected_fuel else None) with
    | Some f => (set_column D "axis_fuel_pref" (fuel_pref_column D f),
                 ["axis_fuel_pref"])
    | None => (D, [])
    end in
  match (if soft_body then truthy_str selected_body else None) with
  | Some b =>
      let D := set_column D "body_clean" (body_clean_column D) in
      let sel_body := PyStr.lower (PyStr.strip b) in
      (set_column D "axis_body_pref"
         (map (body_pref_cell sel_body) (column_of D "body_clean")),
       extra ++ ["axis_body_pref"])
  | None => (D, extra)
  end.

Definition in_list (x : string) (l : list string) : bool :=
  bool_decide (x ∈ l).

Definition weight_keys_for (axis_cols : list string) : list string :=
  ["performance"; "economy"; "safety"; "comfort"; "ownership"; "price"]
  ++ (if in_list "axis_fuel_pref" axis_cols then ["fuel_pref"] else [])
  ++ (if in_list "axis_body_pref" axis_cols then ["body_pref"] else []).

(** [w = np.array([weights.get(k, 0.0) ...]); if w.sum() == 0: w = ones;
    w = w / w.sum()] *)
Definition normalized_weights (weights : gmap string Qc)
    (weight_keys : list string) : list Qc :=
  let w := map (fun k => default 0%Qc (weights !! k)) weight_keys in
  let w := if Qc_eqb (Qc_sum w) 0%Qc then map (fun _ => 1%Qc) w else w in
  map (fun x => (x / Qc_sum w)%Qc) w.

(** One term [w[i] * D[col].fillna(0)] at one row; text cannot be
    multiplied by a float. *)
Definition weighted_cell (wi : Qc) (c : cell) : result Qc :=
  match c with
  | CNum x => Ok (wi * x)%Qc
  | CNaN | CNone => Ok (wi * 0)%Qc
  | CStr _ => Raise TypeError
  end.

(** The loop [D["final_score"] += w[i] * D[col].fillna(0)]. *)
Fixpoint accumulate_scores (D : DataFrame) (score : list Qc)
    (terms : list (Qc * string)) : result (list Qc) :=
  match terms with
  | [] => Ok score
  | (wi, col) :: rest =>
      do s <- get_column D col;
      do t <- mapM (weighted_cell wi) s;
      accumulate_scores D (zip_with Qcplus score t) rest
  end.

(** [lambda p: 0 if pd.isna(p) else max(0, (p - maxb) / (maxb + 1))] *)
Definition budget_penalty (maxb : Qc) (p : cell) : result Qc :=
  match p with
  | CNaN | CNone => Ok 0%Qc
  | CNum x =>
      if Qc_eqb (maxb + 1) 0 then Raise ZeroDivisionError
      else Ok (Qc_max 0 ((x - maxb) / (maxb + 1)))%Qc
  | CStr _ => Raise TypeError
  end.

(** [filters and filters.get("max_budget")]: the budget when the test is
    true.  A key bound to [None] behaves as an absent key. *)
Definition max_budget_of (filters : option (gmap string Qc)) : option Qc :=
  match filters with
  | Some f =>
      match f !! "max_budget" with
      | Some b => if Qc_eqb b 0 then None else Some b
      | None => None
      end
  | None => None
  end.

Definition half : Qc := Q2Qc (1 # 2).

(** The frame with [final_score] (and [budget_penalty] when a budget is
    given), before sorting. *)
Definition score_frame (D : DataFrame) (w : list Qc) (axis_cols : list string)
    (filters : option (gmap string Qc)) : result DataFrame :=
  do score <- accumulate_scores D (replicate (nrows D) 0%Qc) (zip w axis_cols);
  let D := set_column D "final_score" (map CNum score) in
  match max_budget_of filters with
  | Some maxb =>
      do price <- get_column D "price_inr";
      do pen <- mapM (budget_penalty maxb) price;
      let D := set_column D "budget_penalty" (map CNum pen) in
      Ok (set_column D "final_score"
            (map CNum (zip_with (fun s p => (s - half * p)%Qc) score pen)))
  | None => Ok D
  end.

(** The numbers of the [final_score] column. *)
Definition final_scores (D : DataFrame) : list Qc :=
  omap cell_float (column_of D "final_score").

(** [D.sort_values("final_score", ascending=False).reset_index(drop=True)] *)
Definition sort_values_desc (D : DataFrame) : DataFrame :=
  let idx := argsort (final_scores D) in
  mkDF (length idx) (take_rows idx <$> columns D).

(** [D.head(top_n)] *)
Definition df_head (top_n : Z) (D : DataFrame) : DataFrame :=
  mkDF (length (head top_n (seq 0 (nrows D)))) (head top_n <$> columns D).

Definition recommend (df : DataFrame) (weights : gmap string Qc) (top_n : Z)
    (filters : option (gmap string Qc)) (soft_fuel soft_body : bool)
    (selected_fuel selected_body : option string)
    (soft_fuel_weight soft_body_weight : Qc) : result DataFrame :=
  let D := df in
  let D := if forallb (has_column D) axis_names then D else compute_axes D in
  let '(D, extra_axis_names) :=
    add_soft_axes D soft_fuel soft_body selected_fuel selected_body in
  let axis_cols := axis_names ++ extra_axis_names in
  let weight_keys := weight_keys_for axis_cols in
  let w := normalized_weights weights weight_keys in
  do D <- score_frame D w axis_cols filters;
  Ok (df_head top_n (sort_values_desc D)).

(* ------------------------------------------------------------------- *)
(** *** Notions used to state the properties *)
(* ------------------------------------------------------------------- *)

(** What the coercion loop does to one column. *)
Definition coerced (s : list cell) : list cell := map float_cell (to_numeric s).




(** No cell of the column is text. *)
Definition no_text (s : list cell) : bool :=
  forallb (λ c, match c with CStr _ => false | _ => true end) s.

(** A catalogue the ranking accepts: axis columns supplied by the caller
    hold no text, and when a budget is in force the price column exists,
    holds no text, and the budget is not -1. *)
Definition rankable (df : DataFrame) (filters : option (gmap string Qc)) : bool :=
  (if forallb (has_column df) axis_names
   then forallb (λ a, no_text (column_of df a)) axis_names else true)
  && match max_budget_of filters with
     | Some maxb =>
         negb (Qc_eqb (maxb + 1) 0) && has_column df "price_inr"
         && no_text (column_of df "price_inr")
     | None => true
     end.

(** What the caller learns of the frame [score_frame] returns. *)
Definition scored (D D' : DataFrame) (sc : list Qc) : Prop :=
  nrows D' = nrows D ∧ wf_df D' ∧ length sc = nrows D ∧
  columns D' !! "final_score" = Some (map CNum sc).

(** The frame after the axes have been ensured. *)
Definition with_axes (df : DataFrame) : DataFrame :=
  if forallb (has_column df) axis_names then df else compute_axes df.

(** The names [add_soft_axes] appends, from the flags alone. *)
Definition soft_axis_names (soft_fuel soft_body : bool)
    (selected_fuel selected_body : option string) : list string :=
  (if soft_fuel && bool_decide (is_Some (truthy_str selected_fuel))
   then ["axis_fuel_pref"] else [])
  ++ (if soft_body && bool_decide (is_Some (truthy_str selected_body))
      then ["axis_body_pref"] else []).

(** The weight keys [recommend] reads, from the flags alone. *)
Definition active_weight_keys (soft_fuel soft_body : bool)
    (selected_fuel selected_body : option string) : list string :=
  weight_keys_for
    (axis_names ++ soft_axis_names soft_fuel soft_body selected_fuel selected_body).

(** The rows [recommend] returns for [top_n] out of [n]: the first
    [top_n], or all but the last [-top_n] when [top_n] is negative. *)
Definition rows_returned (top_n : Z) (n : nat) : nat :=
  if (0 <=? top_n)%Z then Nat.min (Z.to_nat top_n) n
  else (n - Z.to_nat (- top_n))%nat.

(** Every entry of a series is a number between 0 and 1. *)
Definition unit_series (v : list float) : Prop :=
  ∀ i y, v !! i = Some y → ∃ x, y = Some x ∧ (0 ≤ x ≤ 1)%Qc.

(** The columns [recommend] and [compute_axes] write or coerce; every
    other column of the input reaches the result as it is. *)
Definition written_columns : list string :=
  numeric_columns ++ axis_names
  ++ ["axis_fuel_pref"; "body_clean"; "axis_body_pref";
      "final_score"; "budget_penalty"].

(** A price the budget [maxb] covers: a number not above it, or a
    missing value. *)
Definition within_budget (maxb : Qc) (c : cell) : Prop :=
  match c with
  | CNum x => (x ≤ maxb)%Qc
  | CNaN | CNone => True
  | CStr _ => False
  end.

(** The number a cell of a numeric column stands for: its own, or the one
    pandas reads from its text.  A missing value, and a text that is no
    number, stand for none. *)
Definition stands_for (c : cell) (x : Qc) : Prop :=
  match c with
  | CNum y => y = x
  | CStr t => to_numeric_text t = Some x
  | CNaN | CNone => False
  end.


(** The magnitude up to which a float64 column and an int64 column hold
    the same whole numbers, and far below the one where a difference of
    two entries overflows (float64) or wraps around (int64). *)
Definition float_bound : Qc := Qc_of_Z (2 ^ 53).

Definition moderate (x : Qc) : bool :=
  bool_decide (- float_bound ≤ x)%Qc && bool_decide (x ≤ float_bound)%Qc.

(** A column the statements on the numeric code cover: a float64, int64
    or object column - not a bool one - whose numbers are moderate and
    none of whose texts is read as an infinity.  Which texts
    [pd.to_numeric] reads as an infinity (["inf"] is one) is a fourth
    library behaviour, [infinite]; for such a text [to_numeric_text] has
    no number to give. *)
Definition finite_cell (infinite : string → bool) (c : cell) : bool :=
  match c with
  | CNum x => moderate x
  | CStr t =>
      negb (infinite t)
      && match to_numeric_text t with Some x => moderate x | None => true end
  | CNaN | CNone => true
  end.

Definition finite_column (infinite : string → bool) (s : list cell) : bool :=
  forallb (finite_cell infinite) s.

(** Every numeric column of the table is such a column. *)
Definition finite_table (infinite : string → bool) (df : DataFrame) : bool :=
  forallb (λ c, from_option (finite_column infinite) true (columns df !! c))
    numeric_columns.

(* ------------------------------------------------------------------- *)
(** *** Rational arithmetic helpers *)
(* ------------------------------------------------------------------- *)

(** Drops the section's library parameters where a goal does not mention
    them, so that a lemma depends on what it states only. *)
Ltac drop_unused :=
  try clear argsort_perm argsort_sorted;
  try clear argsort; try clear str_of_num; try clear to_numeric_text.

Lemma Qc_eq_iff (x y : Qc) : x = y ↔ (this x == this y)%Q.
Proof. split; [intros ->; reflexivity | apply Qc_is_canon]. Qed.

(** Moves a goal on canonical rationals to plain rationals, where linear
    arithmetic is decided. *)
Ltac qc_to_q :=
  rewrite ?Qc_eq_iff in *;
  unfold Qcle, Qclt, Qcdiv, Qcminus, Qcplus, Qcmult, Qcopp, Qcinv,
    Qc_of_nat, Qc_of_Z in *;
  cbn [this Q2Qc] in *;
  rewrite ?Qred_correct in *;
  change (Z.of_nat 2) with 2%Z in *; unfold inject_Z in *.

Lemma Qc_mid_bounds (lo hi a b : Qc) :
  (lo ≤ a)%Qc → (lo ≤ b)%Qc → (a ≤ hi)%Qc → (b ≤ hi)%Qc →
  (lo ≤ (a + b) / Qc_of_nat 2 ≤ hi)%Qc.
Proof.
  intros Ha Hb Ha' Hb'. qc_to_q.
  split; [apply Qle_shift_div_l | apply Qle_shift_div_r]; lra.
Qed.

Lemma Qc_lt_of_le_ne (x y : Qc) : (x ≤ y)%Qc → x ≠ y → (x < y)%Qc.
Proof.
  intros Hle Hne. destruct (Qc_dec x y) as [[?|Hgt]|?]; [done| |done].
  exfalso. by apply (Qclt_not_le _ _ Hgt).
Qed.

Lemma Qc_scale_bounds (mn mx x : Qc) :
  (mn ≤ x)%Qc → (x ≤ mx)%Qc → mx ≠ mn →
  (0 ≤ (x - mn) / (mx - mn) ≤ 1)%Qc.
Proof.
  intros Hlo Hhi Hne.
  assert (mn < mx)%Qc as Hlt.
  { apply Qc_lt_of_le_ne; [by etrans|congruence]. }
  clear Hne. qc_to_q.
  split; [apply Qle_shift_div_l | apply Qle_shift_div_r]; lra.
Qed.

Lemma Qc_scale_min (mn mx : Qc) : ((mn - mn) / (mx - mn) = 0)%Qc.
Proof. unfold Qcdiv. replace (mn - mn)%Qc with 0%Qc by ring. ring. Qed.

Lemma Qc_scale_max (mn mx : Qc) : mx ≠ mn → ((mx - mn) / (mx - mn) = 1)%Qc.
Proof.
  intros Hne. apply Qcmult_inv_r. intros H0. apply Hne.
  replace mx with ((mx - mn) + mn)%Qc by ring. rewrite H0. ring.
Qed.

(* ------------------------------------------------------------------- *)
(** *** Minimum, maximum, median and filling of a float column *)
(* ------------------------------------------------------------------- *)

Lemma present_elem (s : list float) (x : Qc) : x ∈ present s ↔ Some x ∈ s.
Proof.
  unfold present. rewrite list_elem_of_omap. split.
  - intros (y & Hy & Heq). simpl in Heq. by subst.
  - intros H. by exists (Some x).
Qed.

Lemma present_nil_forallb (s : list float) :
  forallb isnull s = true ↔ present s = [].
Proof.
  induction s as [|[x|] s IH]; simpl; [done| |done].
  split; [done|]. discriminate.
Qed.

Lemma foldr_min_spec (x : Qc) (r : list Qc) :
  foldr Qc_min x r ∈ x :: r ∧ ∀ y, y ∈ x :: r → (foldr Qc_min x r ≤ y)%Qc.
Proof.
  induction r as [|a r [IHin IHle]]; simpl.
  - split; [left|]. intros y ->%list_elem_of_singleton. reflexivity.
  - unfold Qc_min at 1 3. case_decide as Hd.
    + split; [right; left|]. intros y Hy.
      apply elem_of_cons in Hy as [->|Hy].
      * etrans; [exact Hd|]. apply IHle. left.
      * apply elem_of_cons in Hy as [->|Hy]; [reflexivity|].
        etrans; [exact Hd|]. apply IHle. by right.
    + apply Qcnot_le_lt, Qclt_le_weak in Hd. split.
      * apply elem_of_cons in IHin as [Heq|?]; [rewrite Heq; left|by do 2 right].
      * intros y Hy. apply elem_of_cons in Hy as [->|Hy]; [apply IHle; left|].
        apply elem_of_cons in Hy as [->|Hy]; [done|]. apply IHle. by right.
Qed.

Lemma foldr_max_spec (x : Qc) (r : list Qc) :
  foldr Qc_max x r ∈ x :: r ∧ ∀ y, y ∈ x :: r → (y ≤ foldr Qc_max x r)%Qc.
Proof.
  induction r as [|a r [IHin IHle]]; simpl.
  - split; [left|]. intros y ->%list_elem_of_singleton. reflexivity.
  - unfold Qc_max at 1 3. case_decide as Hd.
    + split.
      * apply elem_of_cons in IHin as [Heq|?]; [rewrite Heq; left|by do 2 right].
      * intros y Hy. apply elem_of_cons in Hy as [->|Hy]; [apply IHle; left|].
        apply elem_of_cons in Hy as [->|Hy]; [done|]. apply IHle. by right.
    + apply Qcnot_le_lt, Qclt_le_weak in Hd. split; [right; left|].
      intros y Hy. apply elem_of_cons in Hy as [->|Hy].
      * etrans; [|exact Hd]. apply IHle. left.
      * apply elem_of_cons in Hy as [->|Hy]; [reflexivity|].
        etrans; [|exact Hd]. apply IHle. by right.
Qed.

Lemma series_min_spec (s : list float) (mn : Qc) :
  series_min s = Some mn →
  mn ∈ present s ∧ ∀ y, y ∈ present s → (mn ≤ y)%Qc.
Proof.
  unfold series_min. destruct (present s) as [|x r]; [done|].
  intros [= <-]. apply foldr_min_spec.
Qed.

Lemma series_max_spec (s : list float) (mx : Qc) :
  series_max s = Some mx →
  mx ∈ present s ∧ ∀ y, y ∈ present s → (y ≤ mx)%Qc.
Proof.
  unfold series_max. destruct (present s) as [|x r]; [done|].
  intros [= <-]. apply foldr_max_spec.
Qed.

Lemma series_min_unique (s : list float) (m : Qc) :
  m ∈ present s → (∀ y, y ∈ present s → (m ≤ y)%Qc) → series_min s = Some m.
Proof.
  intros Hin Hle. destruct (series_min s) as [m'|] eqn:E.
  - apply series_min_spec in E as [Hin' Hle']. f_equal.
    apply (anti_symm Qcle); auto.
  - unfold series_min in E. destruct (present s); [|done].
    by apply elem_of_nil in Hin.
Qed.

Lemma series_max_unique (s : list float) (m : Qc) :
  m ∈ present s → (∀ y, y ∈ present s → (y ≤ m)%Qc) → series_max s = Some m.
Proof.
  intros Hin Hle. destruct (series_max s) as [m'|] eqn:E.
  - apply series_max_spec in E as [Hin' Hle']. f_equal.
    apply (anti_symm Qcle); auto.
  - unfold series_max in E. destruct (present s); [|done].
    by apply elem_of_nil in Hin.
Qed.

Lemma insert_sorted_elem (x y : Qc) (l : list Qc) :
  y ∈ insert_sorted x l ↔ y = x ∨ y ∈ l.
Proof. drop_unused.
  induction l as [|a l IH]; simpl.
  - rewrite list_elem_of_singleton, elem_of_nil. tauto.
  - case_decide; rewrite !elem_of_cons; [tauto|]. rewrite IH. tauto.
Qed.

Lemma insert_sorted_length (x : Qc) (l : list Qc) :
  length (insert_sorted x l) = S (length l).
Proof.
  induction l as [|a l IH]; simpl; [done|]. case_decide; simpl; congruence.
Qed.

Lemma sort_asc_elem (y : Qc) (l : list Qc) : y ∈ sort_asc l ↔ y ∈ l.
Proof. drop_unused.
  induction l as [|a l IH]; simpl; [done|].
  rewrite insert_sorted_elem, elem_of_cons, IH. tauto.
Qed.

Lemma sort_asc_length (l : list Qc) : length (sort_asc l) = length l.
Proof.
  induction l as [|a l IH]; simpl; [done|].
  by rewrite insert_sorted_length, IH.
Qed.

(** A column with a present value has a median, and it lies wherever all
    the present values lie. *)
Lemma series_median_spec (s : list float) :
  present s ≠ [] →
  ∃ m, series_median s = Some m ∧
       ∀ lo hi, (∀ y, y ∈ present s → (lo ≤ y ≤ hi)%Qc) → (lo ≤ m ≤ hi)%Qc.
Proof.
  intros Hne. unfold series_median.
  pose proof (sort_asc_length (present s)) as Hlen.
  set (xs := sort_asc (present s)) in *.
  assert (0 < length xs)%nat as Hpos.
  { rewrite Hlen. destruct (present s); [done|simpl; lia]. }
  assert (∀ k x, xs !! k = Some x → x ∈ present s) as Hmem.
  { intros k x Hk. apply sort_asc_elem. by eapply list_elem_of_lookup_2. }
  destruct (Nat.eqb_spec (length xs) 0) as [?|_]; [lia|].
  assert (length xs / 2 < length xs)%nat as Hhalf
    by (apply Nat.div_lt; lia).
  destruct (Nat.odd (length xs)).
  - destruct (lookup_lt_is_Some_2 xs _ Hhalf) as [m Hm].
    exists m. split; [done|]. intros lo hi Hb. apply Hb. eauto.
  - assert (length xs / 2 - 1 < length xs)%nat as Hprev by lia.
    destruct (lookup_lt_is_Some_2 xs _ Hhalf) as [b Hb].
    destruct (lookup_lt_is_Some_2 xs _ Hprev) as [a Ha].
    rewrite Ha, Hb. eexists. split; [done|]. intros lo hi Hbd.
    destruct (Hbd a) as [? ?]; [eauto|]. destruct (Hbd b) as [? ?]; [eauto|].
    by apply Qc_mid_bounds.
Qed.

Lemma series_median_None (s : list float) :
  present s = [] → series_median s = None.
Proof. intros H. unfold series_median. by rewrite H. Qed.

Lemma fillna_length (s : list float) (v : float) :
  length (fillna s v) = length s.
Proof. apply length_map. Qed.


Lemma fillna_lookup (s : list float) (v : float) (i : nat) :
  fillna s v !! i = (λ x, match x with Some _ => x | None => v end) <$> s !! i.
Proof. apply list_lookup_fmap. Qed.

Lemma fillna_Some_defined (s : list float) (m : Qc) (v : float) :
  v ∈ fillna s (Some m) → is_Some v.
Proof.
  unfold fillna. rewrite list_elem_of_fmap. intros ([x|] & -> & _); eauto.
Qed.

Lemma present_fillna_elem (s : list float) (m x : Qc) :
  x ∈ present (fillna s (Some m)) → x ∈ present s ∨ x = m.
Proof.
  rewrite !present_elem. unfold fillna. rewrite list_elem_of_fmap.
  intros ([y|] & Heq & Hin); simplify_eq/=; [by left|by right].
Qed.

Lemma present_fillna_mono (s : list float) (v : float) (x : Qc) :
  x ∈ present s → x ∈ present (fillna s v).
Proof.
  rewrite !present_elem. unfold fillna. rewrite list_elem_of_fmap.
  intros H. by exists (Some x).
Qed.

Lemma fillna_no_missing (t : list float) (v : float) :
  (∀ y, y ∈ t → is_Some y) → fillna t v = t.
Proof.
  intros Hall. unfold fillna. rewrite <- (list_fmap_id t) at 2.
  apply list_fmap_ext. intros i y Hy.
  destruct (Hall y) as [x ->]; [by eapply list_elem_of_lookup_2|done].
Qed.

Lemma forallb_isnull_defined (t : list float) :
  t ≠ [] → (∀ y, y ∈ t → is_Some y) → forallb isnull t = false.
Proof.
  destruct t as [|y t]; [done|]. intros _ Hall.
  destruct (Hall y) as [x ->]; [left|]. done.
Qed.

(** Filling with the median moves neither the minimum nor the maximum. *)
Lemma series_min_fillna_median (s : list float) (med mn : Qc) :
  series_median s = Some med →
  series_min (fillna s (Some med)) = Some mn → series_min s = Some mn.
Proof.
  intros Hmed Hmn.
  destruct (decide (present s = [])) as [He|Hne].
  { by rewrite series_median_None in Hmed. }
  destruct (series_median_spec s Hne) as (m & Hm & Hbd).
  rewrite Hmed in Hm. injection Hm as <-.
  apply series_min_spec in Hmn as [Hin Hle].
  destruct (series_min s) as [m0|] eqn:E0; last first.
  { unfold series_min in E0. by destruct (present s). }
  pose proof E0 as E0'. apply series_min_spec in E0 as [Hin0 Hle0].
  destruct (series_max s) as [m1|] eqn:E1; last first.
  { unfold series_max in E1. by destruct (present s). }
  apply series_max_spec in E1 as [Hin1 Hle1].
  f_equal. apply (anti_symm Qcle).
  - apply present_fillna_elem in Hin as [?| ->]; [by apply Hle0|].
    apply (Hbd m0 m1). intros y Hy. split; auto.
  - apply Hle. by apply present_fillna_mono.
Qed.

Lemma series_max_fillna_median (s : list float) (med mx : Qc) :
  series_median s = Some med →
  series_max (fillna s (Some med)) = Some mx → series_max s = Some mx.
Proof.
  intros Hmed Hmx.
  destruct (decide (present s = [])) as [He|Hne].
  { by rewrite series_median_None in Hmed. }
  destruct (series_median_spec s Hne) as (m & Hm & Hbd).
  rewrite Hmed in Hm. injection Hm as <-.
  apply series_max_spec in Hmx as [Hin Hle].
  destruct (series_min s) as [m0|] eqn:E0; last first.
  { unfold series_min in E0. by destruct (present s). }
  apply series_min_spec in E0 as [Hin0 Hle0].
  destruct (series_max s) as [m1|] eqn:E1; last first.
  { unfold series_max in E1. by destruct (present s). }
  apply series_max_spec in E1 as [Hin1 Hle1].
  f_equal. apply (anti_symm Qcle).
  - apply Hle. by apply present_fillna_mono.
  - apply present_fillna_elem in Hin as [?| ->]; [by apply Hle1|].
    apply (Hbd m0 m1). intros y Hy. split; auto.
Qed.

(* ------------------------------------------------------------------- *)
(** *** The normaliser *)
(* ------------------------------------------------------------------- *)

Lemma to_numeric_length (s : list cell) : length (to_numeric s) = length s.
Proof. apply length_map. Qed.

Lemma zeros_lookup (n i : nat) : (i < n)%nat → zeros n !! i = Some (Some 0%Qc).
Proof. intros. by apply lookup_replicate_2. Qed.

(** The three ways [normalize_series] can go. *)
Lemma normalize_series_cases (s : list cell) :
  let t := to_numeric s in
  (present t = [] ∧ normalize_series s = zeros (length s)) ∨
  (∃ med mn mx,
      present t ≠ [] ∧ series_median t = Some med ∧
      series_min (fillna t (Some med)) = Some mn ∧
      series_max (fillna t (Some med)) = Some mx ∧
      ((mx = mn ∧ normalize_series s = zeros (length s)) ∨
       (mx ≠ mn ∧
        normalize_series s =
          map (λ v, fdiv (fsub v (Some mn)) (fsub (Some mx) (Some mn)))
              (fillna t (Some med))))).
Proof.
  intros t. unfold normalize_series. fold t.
  rewrite (to_numeric_length s : length t = length s).
  destruct (forallb isnull t) eqn:Hall.
  { left. by apply present_nil_forallb in Hall. }
  assert (present t ≠ []) as Hne.
  { intros He. apply present_nil_forallb in He. congruence. }
  right. destruct (series_median_spec t Hne) as (med & Hmed & _).
  rewrite Hmed. exists med.
  assert (present (fillna t (Some med)) ≠ []) as Hne'.
  { destruct (present t) as [|x r] eqn:E; [done|].
    assert (x ∈ present (fillna t (Some med))) as Hx.
    { apply present_fillna_mono. rewrite E. left. }
    intros He. rewrite He in Hx. by apply elem_of_nil in Hx. }
  unfold series_min, series_max.
  destruct (present (fillna t (Some med))) as [|x r]; [done|].
  eexists _, _. do 4 (split; [done|]).
  unfold Qc_eqb. case_bool_decide; [left|right]; done.
Qed.

Lemma normalize_series_length (s : list cell) :
  length (normalize_series s) = length s.
Proof.
  destruct (normalize_series_cases s) as
    [[_ ->]|(med & mn & mx & _ & _ & _ & _ & [[_ ->]|[_ ->]])].
  - apply length_replicate.
  - apply length_replicate.
  - by rewrite length_map, fillna_length, to_numeric_length.
Qed.

(** Every entry of the result is a defined number between 0 and 1. *)
Lemma normalize_series_bounds (s : list cell) (i : nat) :
  (i < length s)%nat →
  ∃ x, normalize_series s !! i = Some (Some x) ∧ (0 ≤ x ≤ 1)%Qc.
Proof.
  intros Hi.
  destruct (normalize_series_cases s) as
    [[_ ->]|(med & mn & mx & _ & _ & Hmn & Hmx & [[_ ->]|[Hneq ->]])].
  - exists 0%Qc. split; [by apply zeros_lookup|done].
  - exists 0%Qc. split; [by apply zeros_lookup|done].
  - set (t := to_numeric s) in *.
    apply series_min_spec in Hmn as [_ Hlo].
    apply series_max_spec in Hmx as [_ Hhi].
    destruct (lookup_lt_is_Some_2 (fillna t (Some med)) i) as [v Hv].
    { rewrite fillna_length. unfold t. by rewrite to_numeric_length. }
    destruct (fillna_Some_defined t med v) as [x ->].
    { by eapply list_elem_of_lookup_2. }
    exists ((x - mn) / (mx - mn))%Qc.
    split; [by rewrite list_lookup_fmap, Hv|].
    assert (x ∈ present (fillna t (Some med))) as Hx.
    { apply present_elem. by eapply list_elem_of_lookup_2. }
    apply Qc_scale_bounds; auto.
Qed.


Lemma stands_for_to_numeric (c : cell) (x : Qc) :
  stands_for c x ↔ to_numeric_cell c = Some x.
Proof. destruct c; simpl; split; (done || congruence). Qed.


Lemma stands_for_lookup (s : list cell) (i : nat) (c : cell) (x : Qc) :
  s !! i = Some c → stands_for c x → to_numeric s !! i = Some (Some x).
Proof.
  intros Hi Hx. unfold to_numeric. rewrite list_lookup_fmap, Hi. simpl.
  f_equal. by apply stands_for_to_numeric.
Qed.




Lemma to_numeric_float_cell (t : list float) :
  to_numeric (map float_cell t) = t.
Proof. induction t as [|[x|] t IH]; simpl; by f_equal. Qed.

Lemma cell_float_float_cell (t : list float) :
  map cell_float (map float_cell t) = t.
Proof. induction t as [|[x|] t IH]; simpl; by f_equal. Qed.

Lemma normalize_series_coerced (s : list cell) :
  normalize_series (map float_cell (to_numeric s)) = normalize_series s.
Proof. unfold normalize_series. by rewrite to_numeric_float_cell. Qed.

(* ------------------------------------------------------------------- *)
(** *** Columns of a frame *)
(* ------------------------------------------------------------------- *)

Lemma has_column_true (df : DataFrame) (c : string) :
  has_column df c = true ↔ is_Some (columns df !! c).
Proof. unfold has_column. apply bool_decide_eq_true. Qed.

Lemma set_column_lookup (df : DataFrame) (c c' : string) (s : list cell) :
  columns (set_column df c s) !! c' =
    if decide (c = c') then Some s else columns df !! c'.
Proof. simpl. apply lookup_insert. Qed.

(** Settles a comparison of two column names in the goal. *)
Ltac case_name :=
  match goal with
  | |- context [decide (?a = ?b)] =>
      destruct (decide (a = b)); [try discriminate|try congruence]
  end.

Lemma set_column_nrows (df : DataFrame) (c : string) (s : list cell) :
  nrows (set_column df c s) = nrows df.
Proof. reflexivity. Qed.

Lemma set_column_wf (df : DataFrame) (c : string) (s : list cell) :
  wf_df df → length s = nrows df → wf_df (set_column df c s).
Proof.
  intros Hwf Hlen c' s'. rewrite set_column_lookup. simpl.
  case_decide; [congruence|apply Hwf].
Qed.

Lemma coerced_idem (s : list cell) : coerced (coerced s) = coerced s.
Proof. unfold coerced. by rewrite to_numeric_float_cell. Qed.

Lemma coerced_length (s : list cell) : length (coerced s) = length s.
Proof. unfold coerced. by rewrite length_map, to_numeric_length. Qed.

Lemma coerce_column_lookup (df : DataFrame) (col c : string) :
  columns (coerce_column df col) !! c =
    if decide (c = col) then coerced <$> columns df !! c else columns df !! c.
Proof.
  unfold coerce_column. destruct (columns df !! col) as [s|] eqn:E.
  - rewrite set_column_lookup. case_decide; subst.
    + rewrite decide_True by done. by rewrite E.
    + by rewrite decide_False by done.
  - case_decide; subst; [by rewrite E|done].
Qed.

Lemma coerce_column_nrows (df : DataFrame) (col : string) :
  nrows (coerce_column df col) = nrows df.
Proof. unfold coerce_column. by destruct (columns df !! col). Qed.

Lemma foldl_coerce_lookup (names : list string) (df : DataFrame) (c : string) :
  columns (foldl coerce_column df names) !! c =
    if bool_decide (c ∈ names) then coerced <$> columns df !! c
    else columns df !! c.
Proof.
  revert df. induction names as [|a names IH]; intros df; simpl; [done|].
  rewrite IH, coerce_column_lookup.
  destruct (decide (c = a)) as [->|Hne].
  - rewrite (bool_decide_eq_true_2 (a ∈ a :: names)) by left.
    case_bool_decide; [|done].
    destruct (columns df !! a); simpl; [|done]. by rewrite coerced_idem.
  - case_bool_decide as Hin.
    + by rewrite bool_decide_eq_true_2 by (by right).
    + rewrite bool_decide_eq_false_2; [done|].
      rewrite elem_of_cons. tauto.
Qed.

Lemma foldl_coerce_nrows (names : list string) (df : DataFrame) :
  nrows (foldl coerce_column df names) = nrows df.
Proof.
  revert df. induction names as [|a names IH]; intros df; simpl; [done|].
  by rewrite IH, coerce_column_nrows.
Qed.

Lemma coerce_columns_lookup (df : DataFrame) (c : string) :
  columns (coerce_columns df) !! c =
    if bool_decide (c ∈ numeric_columns) then coerced <$> columns df !! c
    else columns df !! c.
Proof. apply foldl_coerce_lookup. Qed.

Lemma coerce_columns_nrows (df : DataFrame) :
  nrows (coerce_columns df) = nrows df.
Proof. apply foldl_coerce_nrows. Qed.

Lemma coerce_columns_is_Some (df : DataFrame) (c : string) :
  is_Some (columns (coerce_columns df) !! c) ↔ is_Some (columns df !! c).
Proof.
  rewrite coerce_columns_lookup. case_bool_decide; [|done].
  by rewrite fmap_is_Some.
Qed.

Lemma coerce_columns_wf (df : DataFrame) : wf_df df → wf_df (coerce_columns df).
Proof.
  intros Hwf c s. rewrite coerce_columns_lookup, coerce_columns_nrows.
  case_bool_decide; [|apply Hwf].
  destruct (columns df !! c) as [s0|] eqn:E; simpl; [|done].
  intros [= <-]. rewrite coerced_length. by eapply Hwf.
Qed.

Lemma present_columns_coerced (df : DataFrame) (names : list string) :
  present_columns (coerce_columns df) names = present_columns df names.
Proof.
  unfold present_columns. apply list_filter_iff. intros c.
  by rewrite !has_column_true, coerce_columns_is_Some.
Qed.

Lemma present_columns_elem (df : DataFrame) (names : list string) (c : string) :
  c ∈ present_columns df names ↔ c ∈ names ∧ is_Some (columns df !! c).
Proof. drop_unused.
  unfold present_columns. rewrite list_elem_of_filter, has_column_true. tauto.
Qed.

(* ------------------------------------------------------------------- *)
(** *** Row means *)
(* ------------------------------------------------------------------- *)


Lemma present_Some (vals : list Qc) : present (map Some vals) = vals.
Proof. induction vals as [|x vals IH]; simpl; [done|]. by f_equal. Qed.

Lemma row_mean_length (n : nat) (cols : list (list float)) :
  length (row_mean n cols) = n.
Proof. unfold row_mean. by rewrite length_map, length_seq. Qed.

(** Where every column has a defined value, the row mean is the sum of
    those values over their count. *)
Lemma row_mean_lookup (n i : nat) (cols : list (list float)) (vals : list Qc) :
  (i < n)%nat → cols ≠ [] →
  Forall2 (λ c x, c !! i = Some (Some x)) cols vals →
  row_mean n cols !! i
    = Some (Some (Qc_sum vals / Qc_of_nat (length vals))%Qc).
Proof.
  intros Hi Hne Hall. unfold row_mean.
  rewrite list_lookup_fmap, lookup_seq_lt by done. simpl. f_equal.
  assert (map (λ c : list float, mjoin (c !! i)) cols = map Some vals) as ->.
  { clear Hne. induction Hall as [|c x cols vals Hc _ IH]; simpl; [done|].
    rewrite Hc. simpl. by f_equal. }
  unfold mean_skipna. rewrite present_Some.
  destruct vals; [|done]. inversion Hall. by subst.
Qed.


(* ------------------------------------------------------------------- *)
(** *** The axes *)
(* ------------------------------------------------------------------- *)

Lemma column_of_coerced (df : DataFrame) (c : string) :
  c ∈ numeric_columns →
  column_of (coerce_columns df) c = coerced (column_of df c).
Proof.
  intros Hc. unfold column_of. rewrite coerce_columns_lookup.
  rewrite bool_decide_eq_true_2 by done. by destruct (columns df !! c).
Qed.

(** Coercing first does not change a mean axis: the normaliser coerces
    its argument itself. *)
Lemma mean_axis_coerced (df : DataFrame) (names : list string) :
  (∀ c, c ∈ names → c ∈ numeric_columns) →
  mean_axis (coerce_columns df) names = mean_axis df names.
Proof.
  intros Hsub. unfold mean_axis.
  rewrite present_columns_coerced, coerce_columns_nrows.
  assert (map (λ c, normalize_series (column_of (coerce_columns df) c))
              (present_columns df names)
          = map (λ c, normalize_series (column_of df c))
                (present_columns df names)) as Hmap.
  { apply map_ext_in. intros c Hc%list_elem_of_In%present_columns_elem.
    rewrite column_of_coerced by (apply Hsub; tauto).
    apply normalize_series_coerced. }
  destruct (present_columns df names); [done|]. by rewrite Hmap.
Qed.

Lemma inverted_axis_coerced (df : DataFrame) (c : string) :
  c ∈ numeric_columns →
  inverted_axis (coerce_columns df) c =
    match columns df !! c with
    | Some s =>
        let t := to_numeric s in
        map (fsub (Some 1%Qc))
          (normalize_series (map float_cell (fillna t (series_median t))))
    | None => zeros (nrows df)
    end.
Proof.
  intros Hc. unfold inverted_axis.
  rewrite coerce_columns_lookup, bool_decide_eq_true_2 by done.
  rewrite coerce_columns_nrows.
  destruct (columns df !! c) as [s|]; simpl; [|done].
  unfold coerced. by rewrite cell_float_float_cell.
Qed.

Lemma mean_axis_length (df : DataFrame) (names : list string) :
  length (mean_axis df names) = nrows df.
Proof.
  unfold mean_axis. destruct (present_columns df names).
  - apply length_replicate.
  - apply row_mean_length.
Qed.

Lemma inverted_axis_length (df : DataFrame) (c : string) :
  wf_df df → length (inverted_axis df c) = nrows df.
Proof.
  intros Hwf. unfold inverted_axis.
  destruct (columns df !! c) as [s|] eqn:E; [|apply length_replicate].
  rewrite length_map, normalize_series_length, !length_map, fillna_length.
  rewrite length_map. by eapply Hwf.
Qed.

Lemma compute_axes_nrows (df : DataFrame) : nrows (compute_axes df) = nrows df.
Proof.
  unfold compute_axes, axes_of. cbn [foldl fst snd].
  rewrite !set_column_nrows. apply coerce_columns_nrows.
Qed.

Lemma compute_axes_other (df : DataFrame) (c : string) :
  c ∉ axis_names →
  columns (compute_axes df) !! c = columns (coerce_columns df) !! c.
Proof.
  intros Hc. unfold axis_names in Hc.
  repeat (apply not_elem_of_cons in Hc as [? Hc]).
  unfold compute_axes, axes_of. cbn [foldl fst snd].
  rewrite !set_column_lookup. by rewrite !decide_False by congruence.
Qed.

Lemma compute_axes_axis (df : DataFrame) (a : string) (v : list float) :
  (a, v) ∈ axes_of (coerce_columns df) →
  columns (compute_axes df) !! a = Some (map float_cell v).
Proof.
  intros Hin. unfold compute_axes, axes_of in *. cbn [foldl fst snd].
  rewrite !set_column_lookup.
  do 6 (apply elem_of_cons in Hin as [Hin|Hin];
        [injection Hin as -> ->; rewrite ?decide_False by discriminate;
         by rewrite decide_True by reflexivity|]).
  by apply elem_of_nil in Hin.
Qed.



Lemma axes_of_names (d : DataFrame) (a : string) :
  a ∈ axis_names ↔ ∃ v, (a, v) ∈ axes_of d.
Proof.
  unfold axis_names, axes_of. split.
  - intros Hin.
    do 6 (apply elem_of_cons in Hin as [->|Hin];
          [eexists; repeat constructor|]).
    by apply elem_of_nil in Hin.
  - intros [v Hin].
    do 6 (apply elem_of_cons in Hin as [Hin|Hin];
          [injection Hin as -> _; repeat constructor|]).
    by apply elem_of_nil in Hin.
Qed.

Lemma axes_of_length (d : DataFrame) (a : string) (v : list float) :
  wf_df d → (a, v) ∈ axes_of d → length v = nrows d.
Proof.
  intros Hwf Hin. unfold axes_of in Hin.
  do 4 (apply elem_of_cons in Hin as [Hin|Hin];
        [injection Hin as _ ->; apply mean_axis_length|]).
  do 2 (apply elem_of_cons in Hin as [Hin|Hin];
        [injection Hin as _ ->; by apply inverted_axis_length|]).
  by apply elem_of_nil in Hin.
Qed.

Lemma compute_axes_wf (df : DataFrame) : wf_df df → wf_df (compute_axes df).
Proof.
  intros Hwf c s Hc. rewrite compute_axes_nrows.
  destruct (decide (c ∈ axis_names)) as [Hin|Hout].
  - apply (axes_of_names (coerce_columns df)) in Hin as [v Hv].
    rewrite (compute_axes_axis _ _ _ Hv) in Hc. injection Hc as <-.
    rewrite length_map, <- (coerce_columns_nrows df).
    eapply axes_of_length; [by apply coerce_columns_wf|done].
  - rewrite compute_axes_other in Hc by done.
    rewrite <- (coerce_columns_nrows df).
    by eapply coerce_columns_wf.
Qed.










(* ------------------------------------------------------------------- *)
(** *** Scoring *)
(* ------------------------------------------------------------------- *)

Lemma no_text_float_cell (v : list float) : no_text (map float_cell v) = true.
Proof. induction v as [|[x|] v IH]; simpl; done. Qed.

Lemma no_text_replicate_nan (n : nat) : no_text (replicate n CNaN) = true.
Proof. induction n; simpl; done. Qed.

Lemma mapM_weighted_ok (wi : Qc) (s : list cell) :
  no_text s = true →
  ∃ t, mapM (weighted_cell wi) s = Ok t ∧ length t = length s.
Proof.
  induction s as [|c s IH]; simpl; intros Hs.
  - by exists [].
  - apply andb_prop in Hs as [Hc Hs]. destruct (IH Hs) as (t & -> & Ht).
    destruct c; try done; simpl; eexists; (split; [done|]); simpl; congruence.
Qed.

Lemma mapM_penalty_ok (maxb : Qc) (s : list cell) :
  (maxb + 1)%Qc ≠ 0%Qc → no_text s = true →
  ∃ t, mapM (budget_penalty maxb) s = Ok t ∧ length t = length s.
Proof.
  intros Hb. induction s as [|c s IH]; simpl; intros Hs.
  - by exists [].
  - apply andb_prop in Hs as [Hc Hs]. destruct (IH Hs) as (t & Ht & Hlen).
    unfold budget_penalty at 1. unfold Qc_eqb.
    rewrite bool_decide_eq_false_2 by done.
    destruct c; try done; simpl; rewrite Ht; simpl;
      eexists; (split; [done|]); simpl; congruence.
Qed.

Lemma accumulate_scores_ok (D : DataFrame) (terms : list (Qc * string))
    (score : list Qc) :
  (∀ wi col, (wi, col) ∈ terms →
     ∃ s, columns D !! col = Some s ∧ no_text s = true ∧
          length s = length score) →
  ∃ score', accumulate_scores D score terms = Ok score' ∧
            length score' = length score.
Proof.
  revert score. induction terms as [|[wi col] terms IH]; intros score Hall.
  - by exists score.
  - simpl. destruct (Hall wi col) as (s & Hs & Hnt & Hlen); [left|].
    unfold get_column. rewrite Hs. simpl.
    destruct (mapM_weighted_ok wi s Hnt) as (t & -> & Ht). simpl.
    destruct (IH (zip_with Qcplus score t)) as (score' & Hacc & Hlen').
    { intros wi' col' Hin. destruct (Hall wi' col') as (s' & ? & ? & ?);
        [by right|].
      exists s'. rewrite length_zip_with. split_and!; [done|done|lia]. }
    exists score'. split; [done|]. rewrite Hlen', length_zip_with. lia.
Qed.

Lemma score_frame_ok (D : DataFrame) (w : list Qc) (axis_cols : list string)
    (filters : option (gmap string Qc)) :
  wf_df D →
  (∀ col, col ∈ axis_cols →
     ∃ s, columns D !! col = Some s ∧ no_text s = true) →
  (∀ maxb, max_budget_of filters = Some maxb →
     (maxb + 1)%Qc ≠ 0%Qc ∧
     ∃ s, columns D !! "price_inr" = Some s ∧ no_text s = true) →
  ∃ D' sc, score_frame D w axis_cols filters = Ok D' ∧ scored D D' sc.
Proof.
  intros Hwf Hax Hbud. unfold score_frame.
  destruct (accumulate_scores_ok D (zip w axis_cols) (replicate (nrows D) 0%Qc))
    as (score & -> & Hlen).
  { intros wi col Hin. apply elem_of_zip_r in Hin.
    destruct (Hax col Hin) as (s & Hs & Hnt). exists s.
    rewrite length_replicate. split_and!; [done|done|by eapply Hwf]. }
  rewrite length_replicate in Hlen. simpl.
  assert (wf_df (set_column D "final_score" (map CNum score))) as Hwf1.
  { apply set_column_wf; [done|]. by rewrite length_map. }
  destruct (max_budget_of filters) as [maxb|] eqn:Eb.
  - destruct (Hbud maxb eq_refl) as (Hne & s & Hs & Hnt).
    unfold get_column. rewrite set_column_lookup. case_name.
    rewrite Hs. simpl.
    destruct (mapM_penalty_ok maxb s Hne Hnt) as (pen & -> & Hpen). simpl.
    eexists _, (zip_with (λ s p, (s - half * p)%Qc) score pen).
    split; [done|]. unfold scored.
    rewrite !set_column_nrows, set_column_lookup. case_name.
    assert (length pen = nrows D) as Hpen' by (rewrite Hpen; by eapply Hwf).
    split_and!; [done| |by rewrite length_zip_with; lia|done].
    apply set_column_wf; [apply set_column_wf; [done|]|].
    + by rewrite length_map, set_column_nrows.
    + rewrite length_map, length_zip_with, !set_column_nrows. lia.
  - eexists _, score. split; [done|]. unfold scored.
    rewrite set_column_nrows, set_column_lookup. by case_name.
Qed.

(* ------------------------------------------------------------------- *)
(** *** The frame handed to the scorer *)
(* ------------------------------------------------------------------- *)

Lemma axis_names_not_soft (a : string) :
  a ∈ axis_names →
  a ≠ "axis_fuel_pref" ∧ a ≠ "body_clean" ∧ a ≠ "axis_body_pref" ∧
  a ≠ "final_score" ∧ a ≠ "price_inr".
Proof.
  intros Hin. unfold axis_names in Hin.
  do 6 (apply elem_of_cons in Hin as [->|Hin]; [by split_and!|]).
  by apply elem_of_nil in Hin.
Qed.

Lemma price_in_numeric_columns : "price_inr" ∈ numeric_columns.
Proof. unfold numeric_columns. repeat constructor. Qed.

Lemma price_not_axis : "price_inr" ∉ axis_names.
Proof.
  intros [_ [_ [_ [_ H]]]]%axis_names_not_soft. by apply H.
Qed.

Lemma with_axes_spec (df : DataFrame) (filters : option (gmap string Qc)) :
  wf_df df → rankable df filters = true →
  wf_df (with_axes df) ∧ nrows (with_axes df) = nrows df ∧
  (∀ a, a ∈ axis_names →
     ∃ s, columns (with_axes df) !! a = Some s ∧ no_text s = true) ∧
  (∀ maxb, max_budget_of filters = Some maxb →
     (maxb + 1)%Qc ≠ 0%Qc ∧
     ∃ s, columns (with_axes df) !! "price_inr" = Some s ∧ no_text s = true).
Proof.
  intros Hwf Hr. unfold rankable in Hr. apply andb_prop in Hr as [Hax Hbud].
  assert (∀ maxb, max_budget_of filters = Some maxb →
            (maxb + 1)%Qc ≠ 0%Qc ∧
            ∃ s, columns df !! "price_inr" = Some s ∧ no_text s = true)
    as Hprice.
  { intros maxb Hm. rewrite Hm in Hbud.
    apply andb_prop in Hbud as [[Hne Hhas]%andb_prop Hnt].
    apply has_column_true in Hhas as [s Hs].
    unfold column_of in Hnt. rewrite Hs in Hnt. simpl in Hnt.
    split; [|eauto]. unfold Qc_eqb in Hne.
    by apply negb_true_iff, bool_decide_eq_false in Hne. }
  unfold with_axes. destruct (forallb (has_column df) axis_names) eqn:Hall.
  - split_and!; [done|done| |done].
    intros a Ha.
    rewrite forallb_forall in Hall, Hax.
    apply list_elem_of_In in Ha.
    specialize (Hall a Ha). specialize (Hax a Ha).
    apply has_column_true in Hall as [s Hs].
    unfold column_of in Hax. rewrite Hs in Hax. eauto.
  - split_and!.
    + by apply compute_axes_wf.
    + apply compute_axes_nrows.
    + intros a [v Hv]%(axes_of_names (coerce_columns df)).
      rewrite (compute_axes_axis _ _ _ Hv).
      eexists. split; [done|]. apply no_text_float_cell.
    + intros maxb Hm. destruct (Hprice maxb Hm) as (Hne & s & Hs & Hnt).
      split; [done|].
      rewrite compute_axes_other by apply price_not_axis.
      rewrite coerce_columns_lookup.
      rewrite bool_decide_eq_true_2 by apply price_in_numeric_columns.
      rewrite Hs. simpl. eexists. split; [done|]. apply no_text_float_cell.
Qed.

Lemma no_text_bool_float {A : Type} (f : A → bool) (l : list A) :
  no_text (map (λ x, bool_float (f x)) l) = true.
Proof. induction l; simpl; done. Qed.

Lemma no_text_body_pref (sel : string) (l : list cell) :
  no_text (map (body_pref_cell sel) l) = true.
Proof. induction l as [|[] l IH]; simpl; done. Qed.

Lemma fuel_pref_column_length (D : DataFrame) (f : string) :
  wf_df D → length (fuel_pref_column D f) = nrows D.
Proof.
  intros Hwf. unfold fuel_pref_column.
  destruct (columns D !! "fuel_category") as [s|] eqn:E.
  - rewrite length_map. by eapply Hwf.
  - apply length_replicate.
Qed.

Lemma fuel_pref_column_no_text (D : DataFrame) (f : string) :
  no_text (fuel_pref_column D f) = true.
Proof.
  unfold fuel_pref_column. destruct (columns D !! "fuel_category").
  - apply (no_text_bool_float
             (λ c, String.eqb (if isna c then EmptyString else str_of_cell c) f)).
  - apply no_text_replicate_nan.
Qed.

Lemma body_clean_column_length (D : DataFrame) :
  wf_df D → length (body_clean_column D) = nrows D.
Proof.
  intros Hwf. unfold body_clean_column.
  destruct (columns D !! "body_type") as [s|] eqn:E.
  { rewrite length_map. by eapply Hwf. }
  destruct (columns D !! "original_body_type") as [s|] eqn:E'.
  { rewrite length_map. by eapply Hwf. }
  apply length_replicate.
Qed.

Lemma add_soft_axes_names (D : DataFrame) (soft_fuel soft_body : bool)
    (selected_fuel selected_body : option string) :
  (add_soft_axes D soft_fuel soft_body selected_fuel selected_body).2
  = soft_axis_names soft_fuel soft_body selected_fuel selected_body.
Proof.
  unfold add_soft_axes, soft_axis_names.
  destruct soft_fuel, soft_body;
    destruct (truthy_str selected_fuel), (truthy_str selected_body); done.
Qed.

Lemma add_soft_axes_spec (D : DataFrame) (soft_fuel soft_body : bool)
    (selected_fuel selected_body : option string) :
  wf_df D →
  let r := add_soft_axes D soft_fuel soft_body selected_fuel selected_body in
  wf_df r.1 ∧ nrows r.1 = nrows D ∧
  (∀ c, c ≠ "axis_fuel_pref" → c ≠ "body_clean" → c ≠ "axis_body_pref" →
        columns r.1 !! c = columns D !! c) ∧
  (∀ e, e ∈ r.2 → ∃ s, columns r.1 !! e = Some s ∧ no_text s = true).
Proof.
  intros Hwf r. subst r. unfold add_soft_axes.
  set (fuel := if soft_fuel then truthy_str selected_fuel else None).
  set (body := if soft_body then truthy_str selected_body else None).
  assert (∀ f, wf_df (set_column D "axis_fuel_pref" (fuel_pref_column D f)))
    as Hwf_f.
  { intros f. apply set_column_wf; [done|]. by apply fuel_pref_column_length. }
  assert (∀ D0 b, wf_df D0 →
            let D1 := set_column D0 "body_clean" (body_clean_column D0) in
            wf_df (set_column D1 "axis_body_pref"
                     (map (body_pref_cell b) (column_of D1 "body_clean"))))
    as Hwf_b.
  { intros D0 b H0 D1. subst D1.
    apply set_column_wf.
    - apply set_column_wf; [done|]. by apply body_clean_column_length.
    - unfold column_of. rewrite set_column_lookup. case_name.
      cbn [from_option id]. rewrite length_map, set_column_nrows.
      by apply body_clean_column_length. }
  destruct fuel as [f|], body as [b|]; cbn [fst snd app].
  - split_and!.
    + apply Hwf_b, Hwf_f.
    + done.
    + intros c H1 H2 H3. rewrite !set_column_lookup.
      by repeat case_name.
    + intros e He. apply elem_of_cons in He as [->|He].
      * rewrite !set_column_lookup. repeat case_name.
        eexists. split; [done|]. apply fuel_pref_column_no_text.
      * apply list_elem_of_singleton in He as ->.
        rewrite !set_column_lookup. repeat case_name.
        eexists. split; [done|]. apply no_text_body_pref.
  - split_and!.
    + apply Hwf_f.
    + done.
    + intros c H1 H2 H3. rewrite !set_column_lookup. by repeat case_name.
    + intros e ->%list_elem_of_singleton.
      rewrite !set_column_lookup. repeat case_name.
      eexists. split; [done|]. apply fuel_pref_column_no_text.
  - split_and!.
    + by apply Hwf_b.
    + done.
    + intros c H1 H2 H3. rewrite !set_column_lookup. by repeat case_name.
    + intros e ->%list_elem_of_singleton.
      rewrite !set_column_lookup. repeat case_name.
      eexists. split; [done|]. apply no_text_body_pref.
  - split_and!; [done|done|done|]. intros e He. by apply elem_of_nil in He.
Qed.

(* ------------------------------------------------------------------- *)
(** *** Sorting and truncation *)
(* ------------------------------------------------------------------- *)

Lemma argsort_length (keys : list Qc) : length (argsort keys) = length keys.
Proof using argsort_perm. rewrite (Permutation_length (argsort_perm keys)). apply length_seq. Qed.

Lemma argsort_in_range (keys : list Qc) (i : nat) :
  i ∈ argsort keys → (i < length keys)%nat.
Proof using argsort_perm. rewrite (argsort_perm keys), elem_of_seq. lia. Qed.

Lemma take_rows_length (idx : list nat) (s : list cell) :
  (∀ i, i ∈ idx → (i < length s)%nat) →
  length (take_rows idx s) = length idx.
Proof.
  unfold take_rows. induction idx as [|i idx IH]; intros Hin; [done|].
  destruct (lookup_lt_is_Some_2 s i) as [c Hc]; [apply Hin; left|].
  cbn. rewrite Hc. cbn. f_equal. apply IH. intros j Hj. apply Hin. by right.
Qed.

Lemma take_rows_CNum (idx : list nat) (sc : list Qc) :
  take_rows idx (map CNum sc) = map CNum (omap (λ i, sc !! i) idx).
Proof.
  unfold take_rows. induction idx as [|i idx IH]; [done|].
  cbn. rewrite list_lookup_fmap. destruct (sc !! i); cbn; by rewrite IH.
Qed.

Lemma omap_cell_float_CNum (sc : list Qc) : omap cell_float (map CNum sc) = sc.
Proof. induction sc as [|x sc IH]; [done|]. cbn. by rewrite IH. Qed.

Lemma final_scores_CNum (D : DataFrame) (sc : list Qc) :
  columns D !! "final_score" = Some (map CNum sc) → final_scores D = sc.
Proof.
  intros H. unfold final_scores, column_of. rewrite H.
  apply omap_cell_float_CNum.
Qed.

Lemma head_length {A : Type} (k : Z) (l : list A) :
  length (head k l) =
    if (0 <=? k)%Z then Nat.min (Z.to_nat k) (length l)
    else (length l - Z.to_nat (- k))%nat.
Proof. unfold head. destruct (0 <=? k)%Z; rewrite length_take; lia. Qed.

Lemma head_map {A B : Type} (f : A → B) (k : Z) (l : list A) :
  head k (map f l) = map f (head k l).
Proof.
  unfold head. rewrite length_map.
  destruct (0 <=? k)%Z; symmetry; apply fmap_take.
Qed.

Lemma StronglySorted_take {A : Type} (R : A → A → Prop) (k : nat) (l : list A) :
  StronglySorted R l → StronglySorted R (take k l).
Proof.
  intros H. revert k. induction H as [|x l Hs IH Hall]; intros [|k]; simpl;
    constructor; [apply IH|by apply Forall_take].
Qed.

Lemma StronglySorted_head {A : Type} (R : A → A → Prop) (k : Z) (l : list A) :
  StronglySorted R l → StronglySorted R (head k l).
Proof. intros H. unfold head. destruct (0 <=? k)%Z; by apply StronglySorted_take. Qed.

(** What sorting and truncating a scored frame gives. *)
Lemma sort_head_spec (D : DataFrame) (sc : list Qc) (top_n : Z) :
  wf_df D → length sc = nrows D →
  columns D !! "final_score" = Some (map CNum sc) →
  let out := df_head top_n (sort_values_desc D) in
  wf_df out ∧
  nrows out = (if (0 <=? top_n)%Z then Nat.min (Z.to_nat top_n) (nrows D)
               else (nrows D - Z.to_nat (- top_n))%nat) ∧
  final_scores out = head top_n (omap (λ i, sc !! i) (argsort sc)) ∧
  length (final_scores out) = nrows out ∧
  StronglySorted (λ a b, (b ≤ a)%Qc) (final_scores out).
Proof using argsort_perm argsort_sorted.
  intros Hwf Hlen Hfs out. subst out.
  unfold df_head, sort_values_desc. cbn [nrows columns].
  rewrite (final_scores_CNum D sc Hfs).
  set (idx := argsort sc).
  assert (length idx = nrows D) as Hidx.
  { unfold idx. by rewrite argsort_length. }
  assert (∀ s, length s = nrows D → length (take_rows idx s) = nrows D)
    as Hrows.
  { intros s Hs. rewrite take_rows_length; [done|].
    intros i Hi%argsort_in_range. lia. }
  assert (final_scores
            {| nrows := length (head top_n (seq 0 (length idx)));
               columns := head top_n <$> (take_rows idx <$> columns D) |}
          = head top_n (omap (λ i, sc !! i) idx)) as Hout.
  { apply final_scores_CNum. cbn [columns].
    rewrite !lookup_fmap, Hfs. cbn.
    by rewrite take_rows_CNum, head_map. }
  assert (length (omap (λ i, sc !! i) idx) = nrows D) as Hsorted_len.
  { rewrite <- (length_map CNum), <- take_rows_CNum.
    apply Hrows. by rewrite length_map. }
  split_and!.
  - intros c s. cbn [nrows columns]. rewrite !lookup_fmap.
    destruct (columns D !! c) as [s0|] eqn:E; [|done]. cbn.
    intros [= <-]. rewrite !head_length, length_seq, Hidx.
    by rewrite (Hrows s0 (Hwf c s0 E)).
  - by rewrite head_length, length_seq, Hidx.
  - exact Hout.
  - rewrite Hout, !head_length, length_seq, Hidx. by rewrite Hsorted_len.
  - rewrite Hout. apply StronglySorted_head, argsort_sorted.
Qed.


(* ------------------------------------------------------------------- *)
(** *** Weights *)
(* ------------------------------------------------------------------- *)

Lemma Qc_sum_replicate (n : nat) (c : Qc) :
  Qc_sum (replicate n c) = (Qc_of_nat n * c)%Qc.
Proof.
  unfold Qc_sum. induction n as [|n IH]; cbn [replicate foldr].
  - change (Qc_of_nat 0) with (Qc_of_Z 0). rewrite Z2Qc_inj_0. ring.
  - rewrite IH. unfold Qc_of_nat.
    rewrite Nat2Z.inj_succ, <- Z.add_1_r, Z2Qc_inj_add, Z2Qc_inj_1. ring.
Qed.





Lemma recommend_unfold (df : DataFrame) (weights : gmap string Qc) (top_n : Z)
    (filters : option (gmap string Qc)) (soft_fuel soft_body : bool)
    (selected_fuel selected_body : option string)
    (soft_fuel_weight soft_body_weight : Qc) :
  recommend df weights top_n filters soft_fuel soft_body
    selected_fuel selected_body soft_fuel_weight soft_body_weight
  = let extra := soft_axis_names soft_fuel soft_body selected_fuel selected_body in
    let D := (add_soft_axes (with_axes df) soft_fuel soft_body
                selected_fuel selected_body).1 in
    do D <- score_frame D
              (normalized_weights weights
                 (active_weight_keys soft_fuel soft_body
                    selected_fuel selected_body))
              (axis_names ++ extra) filters;
    Ok (df_head top_n (sort_values_desc D)).
Proof.
  unfold recommend, active_weight_keys. fold (with_axes df).
  rewrite <- (add_soft_axes_names (with_axes df)).
  by destruct (add_soft_axes (with_axes df) soft_fuel soft_body
                 selected_fuel selected_body).
Qed.

(** C10.  [recommend] never reads [soft_fuel_weight] and
    [soft_body_weight]: two calls that differ only there return the same
    result.  The weights of the soft axes come from the weight map, under
    ["fuel_pref"] and ["body_pref"], which are among the keys read
    whenever the matching soft preference is on with a selection. *)
Theorem soft_weight_arguments_ignored (df : DataFrame)
    (weights : gmap string Qc) (top_n : Z) (filters : option (gmap string Qc))
    (soft_fuel soft_body : bool) (selected_fuel selected_body : option string)
    (fuel_w body_w fuel_w' body_w' : Qc) :
  recommend df weights top_n filters soft_fuel soft_body
    selected_fuel selected_body fuel_w body_w
  = recommend df weights top_n filters soft_fuel soft_body
      selected_fuel selected_body fuel_w' body_w'
  ∧ (∀ f, f ≠ EmptyString →
          "fuel_pref" ∈ active_weight_keys true soft_body (Some f) selected_body)
  ∧ (∀ b, b ≠ EmptyString →
          "body_pref" ∈ active_weight_keys soft_fuel true selected_fuel (Some b)).
Proof.
  split_and!; [reflexivity| |].
  - intros f Hf. destruct f as [|ch f]; [done|].
    unfold active_weight_keys, soft_axis_names, weight_keys_for, in_list.
    cbn [truthy_str Budget.is_empty andb].
    rewrite (bool_decide_eq_true_2 (is_Some (Some _))) by eauto.
    rewrite (bool_decide_eq_true_2 ("axis_fuel_pref" ∈ _)).
    + rewrite !elem_of_app. right. left. left.
    + rewrite !elem_of_app. right. left. left.
  - intros b Hb. destruct b as [|ch b]; [done|].
    unfold active_weight_keys, soft_axis_names, weight_keys_for, in_list.
    cbn [truthy_str Budget.is_empty andb].
    rewrite (bool_decide_eq_true_2 (is_Some (Some _))) by eauto.
    rewrite (bool_decide_eq_true_2 ("axis_body_pref" ∈ _)).
    + rewrite !elem_of_app. right. right. left.
    + rewrite !elem_of_app. right. right. left.
Qed.

(* ------------------------------------------------------------------- *)
(** *** The budget penalty *)
(* ------------------------------------------------------------------- *)

Lemma mapM_Ok_Forall2 {A B : Type} (f : A → result B) (l : list A) (t : list B) :
  mapM f l = Ok t → Forall2 (λ a b, f a = Ok b) l t.
Proof.
  revert t. induction l as [|a l IH]; intros t; simpl.
  - intros [= <-]. constructor.
  - destruct (f a) as [b|] eqn:Ea; simpl; [|done].
    destruct (mapM f l) as [bs|] eqn:El; simpl; [|done].
    intros [= <-]. constructor; auto.
Qed.



Lemma penalty_nonpositive (maxb x : Qc) :
  (0 < maxb + 1)%Qc → (x ≤ maxb)%Qc → ((x - maxb) / (maxb + 1) ≤ 0)%Qc.
Proof. intros Hb Hx. qc_to_q. apply Qle_shift_div_r; lra. Qed.

Lemma half_off_zero (b : Qc) : (b - half * 0)%Qc = b.
Proof. ring. Qed.

Lemma Qc_max_0_nonpos (y : Qc) : (y ≤ 0)%Qc → Qc_max 0 y = 0%Qc.
Proof.
  intros Hy. unfold Qc_max. case_decide as Hd; [|done].
  by apply (anti_symm Qcle).
Qed.




(** C7, where the code falls short of it.  With a budget in force and no
    [price_inr] column in the catalogue, [recommend] does not return: the
    lookup [D["price_inr"]] raises [KeyError]. *)
Theorem recommend_raises_without_price (df : DataFrame)
    (weights : gmap string Qc) (top_n : Z) (filters : option (gmap string Qc))
    (maxb : Qc) (soft_fuel soft_body : bool)
    (selected_fuel selected_body : option string)
    (soft_fuel_weight soft_body_weight : Qc) :
  wf_df df → rankable df None = true →
  max_budget_of filters = Some maxb →
  columns df !! "price_inr" = None →
  recommend df weights top_n filters soft_fuel soft_body
    selected_fuel selected_body soft_fuel_weight soft_body_weight
  = Raise (KeyError "price_inr").
Proof.
  intros Hwf Hr Hm Hnone. rewrite recommend_unfold. cbv zeta.
  destruct (with_axes_spec df None Hwf Hr) as (Hwf1 & Hn1 & Hax1 & _).
  destruct (add_soft_axes_spec (with_axes df) soft_fuel soft_body
              selected_fuel selected_body Hwf1) as (Hwf2 & Hn2 & Hsame & Hextra).
  rewrite add_soft_axes_names in Hextra.
  set (D2 := (add_soft_axes (with_axes df) soft_fuel soft_body
                selected_fuel selected_body).1) in *.
  unfold score_frame.
  destruct (accumulate_scores_ok D2
              (zip (normalized_weights weights
                      (active_weight_keys soft_fuel soft_body
                         selected_fuel selected_body))
                   (axis_names ++ soft_axis_names soft_fuel soft_body
                                    selected_fuel selected_body))
              (replicate (nrows D2) 0%Qc)) as (score & -> & _).
  { intros wi col Hin%elem_of_zip_r.
    assert (∃ s, columns D2 !! col = Some s ∧ no_text s = true)
      as (s & Hs & Hs').
    { apply elem_of_app in Hin as [Hc|Hc]; [|by apply Hextra].
      destruct (axis_names_not_soft col Hc) as (? & ? & ? & _).
      rewrite Hsame by done. by apply Hax1. }
    exists s. rewrite length_replicate. split_and!; [done|done|by eapply Hwf2]. }
  cbn [bind]. rewrite Hm. unfold get_column.
  rewrite set_column_lookup. case_name. rewrite Hsame by done.
  assert (columns (with_axes df) !! "price_inr" = None) as ->; [|done].
  unfold with_axes. destruct (forallb (has_column df) axis_names); [done|].
  rewrite compute_axes_other by apply price_not_axis.
  rewrite coerce_columns_lookup, Hnone. by case_bool_decide.
Qed.

(* ------------------------------------------------------------------- *)
(** *** More on the weights *)
(* ------------------------------------------------------------------- *)

Lemma Qc_sum_ones {A : Type} (l : list A) :
  Qc_sum (map (λ _, 1%Qc) l) = Qc_of_nat (length l).
Proof.
  rewrite <- (Qcmult_1_r (Qc_of_nat (length l))), <- Qc_sum_replicate.
  f_equal. induction l as [|x l IH]; simpl; by f_equal.
Qed.

Lemma normalized_weights_scale (w w' : gmap string Qc) (c : Qc)
    (keys : list string) :
  c ≠ 0%Qc →
  (∀ k, k ∈ keys → default 0%Qc (w' !! k) = (c * default 0%Qc (w !! k))%Qc) →
  normalized_weights w' keys = normalized_weights w keys.
Proof.
  intros Hc Hall. unfold normalized_weights.
  set (l := map (λ k, default 0%Qc (w !! k)) keys).
  assert (map (λ k, default 0%Qc (w' !! k)) keys = map (Qcmult c) l) as ->.
  { unfold l. clear l. induction keys as [|k keys IH]; [done|].
    cbn [map]. rewrite (Hall k) by left. f_equal. apply IH.
    intros k' Hk'. apply Hall. by right. }
  assert (Qc_sum (map (Qcmult c) l) = (c * Qc_sum l)%Qc) as Hsum.
  { unfold Qc_sum. clear. induction l as [|x l IH]; cbn [map foldr]; [ring|].
    rewrite IH. ring. }
  unfold Qc_eqb. rewrite Hsum.
  destruct (decide (Qc_sum l = 0%Qc)) as [H0|H0].
  - rewrite H0. rewrite !bool_decide_eq_true_2 by (done || ring).
    rewrite !Qc_sum_ones, !length_map.
    rewrite <- !list_fmap_compose. done.
  - rewrite !bool_decide_eq_false_2; [|done|].
    + rewrite Hsum. rewrite <- list_fmap_compose.
      apply list_fmap_ext. intros i x _. simpl. by field.
    + intros Hm. apply Qcmult_integral in Hm as [?|?]; done.
Qed.

Lemma active_weight_keys_fuel_off (soft_body : bool)
    (selected_fuel selected_body : option string) :
  "fuel_pref" ∉ active_weight_keys false soft_body selected_fuel selected_body.
Proof.
  unfold active_weight_keys, soft_axis_names, weight_keys_for, in_list.
  cbn [andb app].
  destruct (soft_body && bool_decide (is_Some (truthy_str selected_body)));
    apply (bool_decide_unpack _); by vm_compute.
Qed.

Lemma active_weight_keys_body_off (soft_fuel : bool)
    (selected_fuel selected_body : option string) :
  "body_pref" ∉ active_weight_keys soft_fuel false selected_fuel selected_body.
Proof.
  unfold active_weight_keys, soft_axis_names, weight_keys_for, in_list.
  cbn [andb app].
  destruct (soft_fuel && bool_decide (is_Some (truthy_str selected_fuel)));
    apply (bool_decide_unpack _); by vm_compute.
Qed.

Lemma recommend_weights_agree (df : DataFrame) (w w' : gmap string Qc)
    (top_n : Z) (filters : option (gmap string Qc))
    (soft_fuel soft_body : bool) (selected_fuel selected_body : option string)
    (soft_fuel_weight soft_body_weight : Qc) :
  (∀ k, k ∈ active_weight_keys soft_fuel soft_body selected_fuel selected_body →
        w' !! k = w !! k) →
  recommend df w' top_n filters soft_fuel soft_body
    selected_fuel selected_body soft_fuel_weight soft_body_weight
  = recommend df w top_n filters soft_fuel soft_body
      selected_fuel selected_body soft_fuel_weight soft_body_weight.
Proof.
  intros Hall. rewrite !recommend_unfold.
  rewrite (normalized_weights_scale w w' 1%Qc); [done|done|].
  intros k Hk. rewrite (Hall k Hk). ring.
Qed.

(** X3.  A soft-preference weight in the map counts only while its
    preference is soft: with [soft_fuel] off the entry under ["fuel_pref"]
    is never read, and with [soft_body] off neither is ["body_pref"] -
    setting either to any value leaves the result as it was. *)
Theorem inactive_soft_weight_ignored (df : DataFrame) (w : gmap string Qc)
    (x : Qc) (top_n : Z) (filters : option (gmap string Qc))
    (soft_fuel soft_body : bool) (selected_fuel selected_body : option string)
    (soft_fuel_weight soft_body_weight : Qc) :
  recommend df (<["fuel_pref" := x]> w) top_n filters false soft_body
    selected_fuel selected_body soft_fuel_weight soft_body_weight
  = recommend df w top_n filters false soft_body
      selected_fuel selected_body soft_fuel_weight soft_body_weight
  ∧ recommend df (<["body_pref" := x]> w) top_n filters soft_fuel false
      selected_fuel selected_body soft_fuel_weight soft_body_weight
    = recommend df w top_n filters soft_fuel false
        selected_fuel selected_body soft_fuel_weight soft_body_weight.
Proof.
  split; apply recommend_weights_agree; intros k Hk;
    apply lookup_insert_ne; intros <-.
  - by apply active_weight_keys_fuel_off in Hk.
  - by apply active_weight_keys_body_off in Hk.
Qed.

(* ------------------------------------------------------------------- *)
(** *** Shorter and longer result lists *)
(* ------------------------------------------------------------------- *)

Lemma head_head {A : Type} (k k' : Z) (l : list A) :
  (0 ≤ k ≤ k')%Z → head k (head k' l) = head k l.
Proof.
  intros [H0 Hk]. unfold head.
  rewrite (proj2 (Z.leb_le 0 k)) by done.
  rewrite (proj2 (Z.leb_le 0 k')) by lia.
  rewrite take_take. f_equal. lia.
Qed.

Lemma df_head_df_head (k k' : Z) (D : DataFrame) :
  (0 ≤ k ≤ k')%Z → df_head k (df_head k' D) = df_head k D.
Proof.
  intros Hk. unfold df_head. cbn [nrows columns]. f_equal.
  - rewrite !head_length, !length_seq.
    rewrite (proj2 (Z.leb_le 0 k)) by lia.
    rewrite (proj2 (Z.leb_le 0 k')) by lia. lia.
  - rewrite <- map_fmap_compose. apply map_fmap_ext.
    intros c s _. simpl. by apply head_head.
Qed.

(** X4.  Asking for fewer rows gives the start of the longer answer: for
    [0 <= k <= k'], the call with [top_n = k] returns the first [k] rows of
    what the call with [top_n = k'] returns, and raises whatever that call
    raises. *)
Theorem recommend_top_n_prefix (df : DataFrame) (weights : gmap string Qc)
    (k k' : Z) (filters : option (gmap string Qc)) (soft_fuel soft_body : bool)
    (selected_fuel selected_body : option string)
    (soft_fuel_weight soft_body_weight : Qc) :
  (0 ≤ k ≤ k')%Z →
  recommend df weights k filters soft_fuel soft_body
    selected_fuel selected_body soft_fuel_weight soft_body_weight
  = do out <- recommend df weights k' filters soft_fuel soft_body
                selected_fuel selected_body soft_fuel_weight soft_body_weight;
    Ok (df_head k out).
Proof.
  intros Hk. rewrite !recommend_unfold. cbv zeta.
  destruct (score_frame _ _ _ _) as [D|e]; cbn [bind]; [|done].
  by rewrite df_head_df_head.
Qed.

(* ------------------------------------------------------------------- *)
(** *** More on the axes *)
(* ------------------------------------------------------------------- *)

Lemma Qc_sum_bounds (vals : list Qc) :
  Forall (λ x, (0 ≤ x ≤ 1)%Qc) vals →
  (0 ≤ Qc_sum vals ≤ Qc_of_nat (length vals))%Qc.
Proof.
  unfold Qc_sum. induction 1 as [|x l [Hx0 Hx1] _ [IH0 IH1]]; cbn [foldr length].
  - change (Qc_of_nat 0) with (Qc_of_Z 0). by rewrite Z2Qc_inj_0.
  - unfold Qc_of_nat in *.
    rewrite Nat2Z.inj_succ, <- Z.add_1_l, Z2Qc_inj_add, Z2Qc_inj_1.
    split.
    + by apply Qcplus_nonneg_nonneg.
    + by apply Qcplus_le_compat.
Qed.

Lemma Qc_mean_bounds (vals : list Qc) :
  vals ≠ [] → Forall (λ x, (0 ≤ x ≤ 1)%Qc) vals →
  (0 ≤ Qc_sum vals / Qc_of_nat (length vals) ≤ 1)%Qc.
Proof.
  intros Hne Hall. destruct (Qc_sum_bounds vals Hall) as [H0 H1].
  assert (0 < Qc_of_nat (length vals))%Qc as Hpos.
  { unfold Qc_of_nat. rewrite <- Z2Qc_inj_0.
    apply (proj1 (Z2Qc_inj_lt 0 (Z.of_nat (length vals)))).
    destruct vals; [done|simpl; lia]. }
  clear Hne Hall. revert H0 H1 Hpos.
  generalize (Qc_sum vals) (Qc_of_nat (length vals)). intros s n H0 H1 Hpos.
  drop_unused. qc_to_q.
  split; [apply Qle_shift_div_l | apply Qle_shift_div_r]; lra.
Qed.

Lemma one_minus_bounds (x : Qc) : (0 ≤ x ≤ 1)%Qc → (0 ≤ 1 - x ≤ 1)%Qc.
Proof. intros [H0 H1]. drop_unused. qc_to_q. lra. Qed.

Lemma zeros_unit (n : nat) : unit_series (zeros n).
Proof.
  intros i y Hy. apply lookup_replicate in Hy as [-> _]. by exists 0%Qc.
Qed.

Lemma normalize_series_unit (s : list cell) : unit_series (normalize_series s).
Proof.
  intros i y Hy.
  destruct (normalize_series_bounds s i) as (x & Hx & Hb).
  { apply lookup_lt_Some in Hy. by rewrite normalize_series_length in Hy. }
  exists x. split; [congruence|done].
Qed.

Lemma mean_axis_unit (df : DataFrame) (names : list string) :
  wf_df df → unit_series (mean_axis df names).
Proof.
  intros Hwf. unfold mean_axis.
  destruct (present_columns df names) as [|c0 l] eqn:E; [apply zeros_unit|].
  rewrite <- E. intros i y Hy.
  assert (i < nrows df)%nat as Hi.
  { apply lookup_lt_Some in Hy. by rewrite row_mean_length in Hy. }
  assert (∃ vals,
            Forall2 (λ c x, normalize_series (column_of df c) !! i = Some (Some x))
                    (present_columns df names) vals ∧
            Forall (λ x, (0 ≤ x ≤ 1)%Qc) vals) as (vals & Hvals & Hb).
  { assert (∀ c, c ∈ present_columns df names → is_Some (columns df !! c))
      as Hall by (intros c Hc; by apply present_columns_elem in Hc as [_ ?]).
    clear E Hy. induction (present_columns df names) as [|c l' IH].
    - exists []. split; constructor.
    - destruct IH as (vals & Hv & Hb); [intros c' Hc'; apply Hall; by right|].
      destruct (Hall c) as [s Hs]; [left|].
      destruct (normalize_series_bounds s i) as (x & Hx & Hxb).
      { by rewrite (Hwf c s Hs). }
      exists (x :: vals). split; constructor; try done.
      unfold column_of. by rewrite Hs. }
  rewrite (row_mean_lookup (nrows df) i _ vals) in Hy.
  - injection Hy as <-. eexists. split; [done|].
    apply Qc_mean_bounds; [|done].
    rewrite E in Hvals. inversion Hvals. by subst.
  - done.
  - by rewrite E.
  - by apply Forall2_fmap_l.
Qed.

Lemma inverted_axis_unit (df : DataFrame) (c : string) :
  unit_series (inverted_axis df c).
Proof.
  unfold inverted_axis. destruct (columns df !! c) as [s|]; [|apply zeros_unit].
  intros i y Hy. rewrite list_lookup_fmap in Hy.
  destruct (normalize_series _ !! i) as [v|] eqn:Ev; [|done].
  destruct (normalize_series_unit _ i v Ev) as (x & -> & Hx).
  injection Hy as <-. eexists. split; [done|]. by apply one_minus_bounds.
Qed.

Lemma axes_of_unit (d : DataFrame) (a : string) (v : list float) :
  wf_df d → (a, v) ∈ axes_of d → unit_series v.
Proof.
  intros Hwf Hin. unfold axes_of in Hin.
  do 4 (apply elem_of_cons in Hin as [Hin|Hin];
        [injection Hin as _ ->; by apply mean_axis_unit|]).
  do 2 (apply elem_of_cons in Hin as [Hin|Hin];
        [injection Hin as _ ->; by apply inverted_axis_unit|]).
  by apply elem_of_nil in Hin.
Qed.

(** X5.  After [compute_axes] on a well-formed table whose numeric
    columns hold moderate numbers, missing values and text, each of the
    six axis columns is there with one cell per row, and every cell is a
    number between 0 and 1 - never NaN, never text. *)
Theorem compute_axes_unit_interval (infinite : string → bool)
    (df : DataFrame) (a : string) :
  wf_df df → finite_table infinite df = true → a ∈ axis_names →
  ∃ col, columns (compute_axes df) !! a = Some col ∧
         length col = nrows df ∧
         ∀ c, c ∈ col → ∃ x, c = CNum x ∧ (0 ≤ x ≤ 1)%Qc.
Proof.
  intros Hwf _ [v Hv]%(axes_of_names (coerce_columns df)).
  pose proof (coerce_columns_wf df Hwf) as Hwf'.
  exists (map float_cell v). split; [by apply compute_axes_axis|].
  split.
  { rewrite length_map, <- (coerce_columns_nrows df).
    by eapply axes_of_length. }
  intros c Hc. apply list_elem_of_fmap in Hc as (y & -> & Hy).
  apply list_elem_of_lookup in Hy as [i Hi].
  destruct (axes_of_unit _ _ _ Hwf' Hv i y Hi) as (x & -> & Hx).
  by exists x.
Qed.

Lemma df_eq (a b : DataFrame) :
  nrows a = nrows b → columns a = columns b → a = b.
Proof. destruct a, b. simpl. by intros -> ->. Qed.

Lemma numeric_not_axis (c : string) : c ∈ numeric_columns → c ∉ axis_names.
Proof.
  revert c. apply Forall_forall. apply (bool_decide_unpack _). by vm_compute.
Qed.

Lemma compute_axes_lookup_raw (df : DataFrame) (c : string) :
  c ∈ numeric_columns →
  columns (compute_axes df) !! c = coerced <$> columns df !! c.
Proof.
  intros Hc. rewrite compute_axes_other by by apply numeric_not_axis.
  rewrite coerce_columns_lookup. by rewrite bool_decide_eq_true_2.
Qed.

Lemma present_columns_ext (df df' : DataFrame) (names : list string) :
  (∀ c, c ∈ names → has_column df c = has_column df' c) →
  present_columns df names = present_columns df' names.
Proof.
  unfold present_columns. induction names as [|c names IH]; intros Hall; [done|].
  rewrite !filter_cons, (Hall c) by left.
  rewrite IH by (intros c' Hc'; apply Hall; by right). done.
Qed.

Lemma mean_axis_compute_axes (df : DataFrame) (names : list string) :
  (∀ c, c ∈ names → c ∈ numeric_columns) →
  mean_axis (compute_axes df) names = mean_axis df names.
Proof.
  intros Hsub. unfold mean_axis. rewrite compute_axes_nrows.
  assert (present_columns (compute_axes df) names = present_columns df names)
    as Hp.
  { apply present_columns_ext. intros c Hc. unfold has_column.
    rewrite compute_axes_lookup_raw by by apply Hsub.
    apply bool_decide_ext. by rewrite fmap_is_Some. }
  rewrite Hp.
  assert (map (λ c, normalize_series (column_of (compute_axes df) c))
              (present_columns df names)
          = map (λ c, normalize_series (column_of df c))
                (present_columns df names)) as Hmap.
  { apply list_fmap_ext. intros i c Hc.
    apply list_elem_of_lookup_2, present_columns_elem in Hc as [Hc _].
    unfold column_of. rewrite compute_axes_lookup_raw by by apply Hsub.
    destruct (columns df !! c) as [s0|]; simpl; [|done].
    apply normalize_series_coerced. }
  destruct (present_columns df names); [done|]. by rewrite Hmap.
Qed.

Lemma inverted_axis_compute_axes (df : DataFrame) (c : string) :
  c ∈ numeric_columns →
  inverted_axis (coerce_columns (compute_axes df)) c
  = inverted_axis (coerce_columns df) c.
Proof.
  intros Hc. rewrite !inverted_axis_coerced by done.
  rewrite compute_axes_lookup_raw, compute_axes_nrows by done.
  destruct (columns df !! c) as [s0|]; simpl; [|done].
  unfold coerced. by rewrite to_numeric_float_cell.
Qed.

(** Settles that a list of literal column names lies in [numeric_columns]. *)
Ltac names_numeric :=
  let c := fresh "c" in
  let Hc := fresh "Hc" in
  intros c Hc;
  repeat (apply elem_of_cons in Hc as [->|Hc];
          [unfold numeric_columns; repeat constructor|]);
  by apply elem_of_nil in Hc.

Lemma axes_of_compute_axes (df : DataFrame) :
  axes_of (coerce_columns (compute_axes df)) = axes_of (coerce_columns df).
Proof.
  unfold axes_of.
  rewrite !(mean_axis_coerced (compute_axes df)) by names_numeric.
  rewrite !(mean_axis_coerced df) by names_numeric.
  rewrite !mean_axis_compute_axes by names_numeric.
  rewrite !inverted_axis_compute_axes by (unfold numeric_columns; repeat constructor).
  done.
Qed.

(** X6.  [compute_axes] is idempotent: run on its own output it returns
    that output unchanged - the axes come from the raw columns only, and
    coercing a coerced column changes nothing. *)
Theorem compute_axes_idempotent (df : DataFrame) :
  compute_axes (compute_axes df) = compute_axes df.
Proof.
  apply df_eq; [by rewrite !compute_axes_nrows|].
  apply map_eq. intros c.
  destruct (decide (c ∈ axis_names)) as [Hin|Hout].
  - apply (axes_of_names (coerce_columns df)) in Hin as [v Hv].
    rewrite (compute_axes_axis df c v Hv).
    apply compute_axes_axis. by rewrite axes_of_compute_axes.
  - rewrite (compute_axes_other (compute_axes df)) by done.
    rewrite coerce_columns_lookup, !compute_axes_other by done.
    rewrite coerce_columns_lookup.
    case_bool_decide; [|done].
    destruct (columns df !! c); simpl; [|done]. by rewrite coerced_idem.
Qed.

Lemma compute_axes_has_axes (df : DataFrame) :
  forallb (has_column (compute_axes df)) axis_names = true.
Proof.
  apply forallb_forall. intros a Ha%list_elem_of_In.
  apply (axes_of_names (coerce_columns df)) in Ha as [v Hv].
  apply has_column_true. rewrite (compute_axes_axis df a v Hv). eauto.
Qed.

(** X7.  Computing the axes beforehand, as the dashboard does, changes
    nothing: for a catalogue that lacks at least one of the six axis
    columns, [recommend] on [compute_axes(df)] and [recommend] on [df]
    return the same result. *)
Theorem recommend_axes_precomputed (df : DataFrame) (weights : gmap string Qc)
    (top_n : Z) (filters : option (gmap string Qc)) (soft_fuel soft_body : bool)
    (selected_fuel selected_body : option string)
    (soft_fuel_weight soft_body_weight : Qc) :
  forallb (has_column df) axis_names = false →
  recommend (compute_axes df) weights top_n filters soft_fuel soft_body
    selected_fuel selected_body soft_fuel_weight soft_body_weight
  = recommend df weights top_n filters soft_fuel soft_body
      selected_fuel selected_body soft_fuel_weight soft_body_weight.
Proof.
  intros Hmiss. rewrite !recommend_unfold. unfold with_axes.
  by rewrite compute_axes_has_axes, Hmiss.
Qed.

(* ------------------------------------------------------------------- *)
(** *** More on the normaliser *)
(* ------------------------------------------------------------------- *)

Lemma Qc_scale_mono (mn mx x y : Qc) :
  (mn < mx)%Qc →
  ((x ≤ y)%Qc → ((x - mn) / (mx - mn) ≤ (y - mn) / (mx - mn))%Qc) ∧
  ((x < y)%Qc → ((x - mn) / (mx - mn) < (y - mn) / (mx - mn))%Qc).
Proof.
  intros Hlt. drop_unused.
  assert (0 < / (this mx + - this mn))%Q as Hinv.
  { apply Qinv_lt_0_compat. unfold Qclt in Hlt. lra. }
  split; intros Hxy; qc_to_q.
  - apply Qmult_le_compat_r; [lra|by apply Qlt_le_weak].
  - apply Qmult_lt_compat_r; [done|lra].
Qed.

(** X8.  Normalising keeps the order of the values: of two rows of a
    column of moderate numbers, missing values and text, the one holding
    the smaller number never gets the larger result. *)
Theorem normalize_series_monotone (infinite : string → bool) (s : list cell)
    (i j : nat) (ci cj : cell) (x y : Qc) :
  finite_column infinite s = true →
  s !! i = Some ci → s !! j = Some cj →
  stands_for ci x → stands_for cj y →
  ∃ a b,
    normalize_series s !! i = Some (Some a) ∧
    normalize_series s !! j = Some (Some b) ∧
    ((x ≤ y)%Qc → (a ≤ b)%Qc).
Proof.
  intros _ Hci Hcj Hsx Hsy.
  pose proof (stands_for_lookup s i ci x Hci Hsx) as Hi.
  pose proof (stands_for_lookup s j cj y Hcj Hsy) as Hj.
  assert (x ∈ present (to_numeric s)) as Hx.
  { apply present_elem. by eapply list_elem_of_lookup_2. }
  assert (y ∈ present (to_numeric s)) as Hy.
  { apply present_elem. by eapply list_elem_of_lookup_2. }
  assert (i < length s)%nat as Hil by (by eapply lookup_lt_Some).
  assert (j < length s)%nat as Hjl by (by eapply lookup_lt_Some).
  destruct (normalize_series_cases s) as
    [[Hnil _]|(med & mn & mx & _ & Hmed & Hmn & Hmx & Hcase)].
  { rewrite Hnil in Hx. by apply elem_of_nil in Hx. }
  pose proof (series_min_fillna_median _ _ _ Hmed Hmn) as Hmn0.
  pose proof (series_max_fillna_median _ _ _ Hmed Hmx) as Hmx0.
  apply series_min_spec in Hmn0 as [_ Hlo].
  apply series_max_spec in Hmx0 as [Hmxin Hhi].
  destruct Hcase as [[Heq ->]|[Hneq ->]].
  - exists 0%Qc, 0%Qc. rewrite !zeros_lookup by done. by split_and!.
  - assert (mn < mx)%Qc as Hlt.
    { apply Qc_lt_of_le_ne; [by apply Hlo|congruence]. }
    exists ((x - mn) / (mx - mn))%Qc, ((y - mn) / (mx - mn))%Qc.
    rewrite !list_lookup_fmap, !fillna_lookup, Hi, Hj. cbn.
    split_and!; [done|done|by apply Qc_scale_mono].
Qed.


(* ------------------------------------------------------------------- *)
(** *** The length of the weight vector *)
(* ------------------------------------------------------------------- *)



(* ------------------------------------------------------------------- *)
(** *** The rows of the result are rows of the input *)
(* ------------------------------------------------------------------- *)

Lemma mapM_Ok_length {A B : Type} (f : A → result B) (l : list A)
    (t : list B) :
  mapM f l = Ok t → length t = length l.
Proof. intros H%mapM_Ok_Forall2. symmetry. by eapply Forall2_length. Qed.

Lemma accumulate_scores_length (D : DataFrame) (terms : list (Qc * string))
    (score score' : list Qc) :
  wf_df D → length score = nrows D →
  accumulate_scores D score terms = Ok score' → length score' = nrows D.
Proof.
  intros Hwf. revert score. induction terms as [|[wi col] terms IH];
    intros score Hlen; cbn [accumulate_scores].
  - by intros [= <-].
  - unfold get_column. destruct (columns D !! col) as [s|] eqn:Es; [|done].
    cbn [bind].
    destruct (mapM (weighted_cell wi) s) as [t|] eqn:Et; cbn [bind]; [|done].
    apply IH. rewrite length_zip_with, (mapM_Ok_length _ _ _ Et).
    rewrite (Hwf col s Es). lia.
Qed.

(** What a frame returned by [score_frame] holds. *)
Lemma score_frame_inv (D D' : DataFrame) (w : list Qc)
    (axis_cols : list string) (filters : option (gmap string Qc)) :
  wf_df D → score_frame D w axis_cols filters = Ok D' →
  nrows D' = nrows D ∧
  (∃ sc, length sc = nrows D ∧
         columns D' !! "final_score" = Some (map CNum sc)) ∧
  (∀ c, c ≠ "final_score" → c ≠ "budget_penalty" →
        columns D' !! c = columns D !! c).
Proof.
  intros Hwf. unfold score_frame.
  destruct (accumulate_scores D _ _) as [score|] eqn:Eacc; cbn [bind]; [|done].
  apply accumulate_scores_length in Eacc; [|done|apply length_replicate].
  destruct (max_budget_of filters) as [maxb|].
  - unfold get_column. rewrite set_column_lookup. case_name.
    destruct (columns D !! "price_inr") as [price|] eqn:Ep; cbn [bind]; [|done].
    destruct (mapM (budget_penalty maxb) price) as [pen|] eqn:Epen;
      cbn [bind]; [|done].
    intros [= <-]. split; [done|]. split.
    + eexists. rewrite set_column_lookup. case_name. split; [|done].
      rewrite length_zip_with, (mapM_Ok_length _ _ _ Epen), (Hwf _ _ Ep). lia.
    + intros c H1 H2. rewrite !set_column_lookup. by repeat case_name.
  - intros [= <-]. split; [done|]. split.
    + exists score. rewrite set_column_lookup. by case_name.
    + intros c H1 H2. rewrite set_column_lookup. by case_name.
Qed.

Lemma with_axes_wf (df : DataFrame) : wf_df df → wf_df (with_axes df).
Proof.
  intros Hwf. unfold with_axes.
  destruct (forallb _ _); [done|by apply compute_axes_wf].
Qed.

Lemma with_axes_nrows (df : DataFrame) : nrows (with_axes df) = nrows df.
Proof.
  unfold with_axes. destruct (forallb _ _); [done|apply compute_axes_nrows].
Qed.

Lemma with_axes_other (df : DataFrame) (c : string) :
  c ∉ numeric_columns → c ∉ axis_names →
  columns (with_axes df) !! c = columns df !! c.
Proof.
  intros Hn Ha. unfold with_axes. destruct (forallb _ _); [done|].
  rewrite compute_axes_other, coerce_columns_lookup by done.
  by rewrite bool_decide_eq_false_2.
Qed.

Lemma take_omap_total {A B : Type} (f : A → option B) (l : list A) (n : nat) :
  (∀ x, x ∈ l → is_Some (f x)) → take n (omap f l) = omap f (take n l).
Proof.
  revert n. induction l as [|x l IH]; intros n Hall; [by destruct n|].
  destruct (Hall x) as [y Hy]; [left|]. cbn. rewrite Hy. cbn.
  destruct n as [|n]; [done|]. cbn. rewrite Hy. cbn. f_equal.
  apply IH. intros z Hz. apply Hall. by right.
Qed.

Lemma head_take_rows (k : Z) (idx : list nat) (s : list cell) :
  (∀ i, i ∈ idx → (i < length s)%nat) →
  head k (take_rows idx s) = take_rows (head k idx) s.
Proof.
  intros Hin. unfold head. rewrite (take_rows_length idx s Hin).
  unfold take_rows. destruct (0 <=? k)%Z; apply take_omap_total;
    intros i Hi; by apply lookup_lt_is_Some_2, Hin.
Qed.

(** X20.  [recommend] only reorders and truncates: there is one order of
    all the rows of the input such that every column the function does not
    write holds, in the result, its input cells at the first [top_n]
    positions of that order - the cells of a row stay together, none is
    altered and none is made up. *)
Theorem recommend_rows_intact (df out : DataFrame) (weights : gmap string Qc)
    (top_n : Z) (filters : option (gmap string Qc)) (soft_fuel soft_body : bool)
    (selected_fuel selected_body : option string)
    (soft_fuel_weight soft_body_weight : Qc) :
  wf_df df →
  recommend df weights top_n filters soft_fuel soft_body
    selected_fuel selected_body soft_fuel_weight soft_body_weight = Ok out →
  ∃ idx,
    idx ≡ₚ seq 0 (nrows df) ∧
    nrows out = length (head top_n idx) ∧
    ∀ c col, c ∉ written_columns → columns df !! c = Some col →
      columns out !! c = Some (take_rows (head top_n idx) col).
Proof using argsort_perm.
  intros Hwf. rewrite recommend_unfold. cbv zeta.
  pose proof (with_axes_wf df Hwf) as Hwf1.
  pose proof (add_soft_axes_spec (with_axes df) soft_fuel soft_body
                selected_fuel selected_body Hwf1) as Hspec.
  cbv zeta in Hspec. destruct Hspec as (Hwf2 & Hn2 & Hsame & _).
  set (D2 := (add_soft_axes (with_axes df) soft_fuel soft_body
                selected_fuel selected_body).1) in *.
  destruct (score_frame D2 _ _ filters) as [D3|] eqn:E3; cbn [bind]; [|done].
  intros [= <-].
  destruct (score_frame_inv _ _ _ _ _ Hwf2 E3) as (Hn3 & (sc & Hlen & Hfs) & Hoth).
  rewrite Hn2, with_axes_nrows in Hlen.
  exists (argsort sc). split; [by rewrite argsort_perm, Hlen|].
  unfold df_head, sort_values_desc. cbn [nrows columns].
  rewrite (final_scores_CNum D3 sc Hfs). split.
  { unfold head. rewrite length_seq. destruct (0 <=? top_n)%Z;
      by rewrite !length_take, length_seq. }
  intros c col Hc Hcol. unfold written_columns in Hc.
  apply not_elem_of_app in Hc as [Hnum Hc].
  apply not_elem_of_app in Hc as [Hax Hc].
  repeat (apply not_elem_of_cons in Hc as [? Hc]).
  rewrite !lookup_fmap, Hoth, Hsame, with_axes_other, Hcol by done.
  cbn. f_equal. apply head_take_rows.
  intros i Hi%argsort_in_range. rewrite (Hwf c col Hcol). lia.
Qed.

(* ------------------------------------------------------------------- *)
(** *** A budget that no car exceeds *)
(* ------------------------------------------------------------------- *)

Lemma within_budget_coerced (maxb : Qc) (price : list cell) :
  Forall (within_budget maxb) price → Forall (within_budget maxb) (coerced price).
Proof.
  intros H. unfold coerced, to_numeric. rewrite <- list_fmap_compose.
  apply Forall_fmap. eapply Forall_impl; [exact H|].
  by intros [x| | |t].
Qed.

Lemma with_axes_price (df : DataFrame) (maxb : Qc) (price : list cell) :
  columns df !! "price_inr" = Some price →
  Forall (within_budget maxb) price →
  ∃ price', columns (with_axes df) !! "price_inr" = Some price' ∧
            Forall (within_budget maxb) price'.
Proof.
  intros Hp Hall. unfold with_axes. destruct (forallb _ _); [eauto|].
  rewrite compute_axes_other by apply price_not_axis.
  rewrite coerce_columns_lookup, Hp.
  rewrite bool_decide_eq_true_2 by apply price_in_numeric_columns.
  eexists. split; [done|]. by apply within_budget_coerced.
Qed.

Lemma mapM_penalty_within (maxb : Qc) (price : list cell) :
  (0 < maxb + 1)%Qc → Forall (within_budget maxb) price →
  mapM (budget_penalty maxb) price = Ok (replicate (length price) 0%Qc).
Proof.
  intros Hb. 
  assert (Qc_eqb (maxb + 1) 0 = false) as Hne.
  { apply bool_decide_eq_false_2. intros H0. rewrite H0 in Hb.
    by apply Qclt_not_eq in Hb. }
  induction 1 as [|c price Hc _ IH]; [done|].
  cbn [mapM length replicate]. rewrite IH.
  destruct c as [x| | |t]; try done. cbn [budget_penalty]. rewrite Hne.
  cbn [bind]. rewrite Qc_max_0_nonpos; [done|].
  by apply penalty_nonpositive.
Qed.

Lemma zip_with_half_off_zeros (score : list Qc) (n : nat) :
  (length score ≤ n)%nat →
  zip_with (λ s p, (s - half * p)%Qc) score (replicate n 0%Qc) = score.
Proof.
  revert n. induction score as [|s score IH]; intros n Hn; [done|].
  destruct n as [|n]; [simpl in Hn; lia|]. cbn [replicate zip_with].
  rewrite half_off_zero, IH; [done|]. simpl in Hn. lia.
Qed.

Lemma final_scores_set_column (D : DataFrame) (c : string) (z : list cell) :
  c ≠ "final_score" → final_scores (set_column D c z) = final_scores D.
Proof.
  intros Hc. unfold final_scores, column_of.
  rewrite set_column_lookup. by case_name.
Qed.

Lemma sort_head_set_column (D : DataFrame) (c : string) (z : list cell)
    (k : Z) :
  c ≠ "final_score" →
  df_head k (sort_values_desc (set_column D c z))
  = set_column (df_head k (sort_values_desc D)) c
      (head k (take_rows (argsort (final_scores D)) z)).
Proof.
  intros Hc. unfold df_head, sort_values_desc.
  rewrite (final_scores_set_column D c z Hc).
  apply df_eq; [done|]. cbn [columns set_column nrows].
  by rewrite !fmap_insert.
Qed.

Lemma take_rows_replicate (idx : list nat) (n : nat) (c : cell) :
  (∀ i, i ∈ idx → (i < n)%nat) →
  take_rows idx (replicate n c) = replicate (length idx) c.
Proof.
  unfold take_rows. induction idx as [|i idx IH]; intros Hin; [done|].
  cbn. rewrite lookup_replicate_2 by (apply Hin; left). cbn.
  f_equal. apply IH. intros j Hj. apply Hin. by right.
Qed.

Lemma head_replicate {A : Type} (k : Z) (m : nat) (c : A) :
  head k (replicate m c) = replicate (length (head k (seq 0 m))) c.
Proof.
  unfold head. rewrite length_replicate, length_seq.
  destruct (0 <=? k)%Z; by rewrite take_replicate, length_take, length_seq.
Qed.

Lemma recommend_budget_covered (df : DataFrame) (weights : gmap string Qc)
    (top_n : Z) (filters : option (gmap string Qc)) (maxb : Qc)
    (price : list cell) (soft_fuel soft_body : bool)
    (selected_fuel selected_body : option string)
    (soft_fuel_weight soft_body_weight : Qc) :
  wf_df df →
  max_budget_of filters = Some maxb → (0 < maxb + 1)%Qc →
  columns df !! "price_inr" = Some price →
  Forall (within_budget maxb) price →
  recommend df weights top_n filters soft_fuel soft_body
    selected_fuel selected_body soft_fuel_weight soft_body_weight
  = do out <- recommend df weights top_n None soft_fuel soft_body
                selected_fuel selected_body soft_fuel_weight soft_body_weight;
    Ok (set_column out "budget_penalty" (replicate (nrows out) (CNum 0%Qc))).
Proof using argsort_perm.
  intros Hwf Hbud Hpos Hprice Hall. rewrite !recommend_unfold. cbv zeta.
  pose proof (with_axes_wf df Hwf) as Hwf1.
  destruct (with_axes_price df maxb price Hprice Hall) as (p1 & Hp1 & Hall1).
  pose proof (add_soft_axes_spec (with_axes df) soft_fuel soft_body
                selected_fuel selected_body Hwf1) as Hspec.
  cbv zeta in Hspec. destruct Hspec as (Hwf2 & Hn2 & Hsame & _).
  set (D2 := (add_soft_axes (with_axes df) soft_fuel soft_body
                selected_fuel selected_body).1) in *.
  assert (columns D2 !! "price_inr" = Some p1) as Hp2.
  { by rewrite Hsame. }
  unfold score_frame. rewrite Hbud. cbn [max_budget_of].
  destruct (accumulate_scores D2 _ _) as [score|] eqn:Eacc; cbn [bind]; [|done].
  apply accumulate_scores_length in Eacc; [|done|apply length_replicate].
  unfold get_column. rewrite set_column_lookup. case_name.
  rewrite Hp2. cbn [bind].
  rewrite (mapM_penalty_within maxb p1 Hpos Hall1). cbn [bind].
  rewrite zip_with_half_off_zeros by (rewrite (Hwf2 _ _ Hp2); lia).
  set (D3 := set_column D2 "final_score" (map CNum score)).
  assert (set_column
            (set_column D3 "budget_penalty"
               (map CNum (replicate (length p1) 0%Qc)))
            "final_score" (map CNum score)
          = set_column D3 "budget_penalty"
              (replicate (nrows D2) (CNum 0%Qc))) as ->.
  { apply df_eq; [done|]. apply map_eq. intros c.
    rewrite !set_column_lookup. unfold D3. rewrite set_column_lookup.
    repeat case_name; try congruence.
    rewrite (Hwf2 _ _ Hp2). f_equal.
    exact (fmap_replicate CNum (nrows D2) 0%Qc). }
  rewrite sort_head_set_column by done. f_equal. f_equal.
  assert (final_scores D3 = score) as Hfs.
  { apply final_scores_CNum. unfold D3. rewrite set_column_lookup.
    by case_name. }
  rewrite Hfs, take_rows_replicate.
  2:{ intros i Hi%argsort_in_range. lia. }
  rewrite head_replicate. unfold df_head, sort_values_desc. cbn [nrows].
  by rewrite Hfs.
Qed.

(** X21.  A budget that covers every car changes the ranking in nothing:
    when every price is missing or a number not above a budget [maxb]
    with [maxb + 1 > 0], the call with that budget returns what the call
    without a budget returns, with a [budget_penalty] column of zeros
    added - and raises what that call raises. *)
Theorem budget_covering_all_prices (df : DataFrame) (weights : gmap string Qc)
    (top_n : Z) (filters : option (gmap string Qc)) (maxb : Qc)
    (price : list cell) (soft_fuel soft_body : bool)
    (selected_fuel selected_body : option string)
    (soft_fuel_weight soft_body_weight : Qc) :
  wf_df df →
  max_budget_of filters = Some maxb → (0 < maxb + 1)%Qc →
  columns df !! "price_inr" = Some price →
  Forall (within_budget maxb) price →
  recommend df weights top_n filters soft_fuel soft_body
    selected_fuel selected_body soft_fuel_weight soft_body_weight
  = do out <- recommend df weights top_n None soft_fuel soft_body
                selected_fuel selected_body soft_fuel_weight soft_body_weight;
    Ok (set_column out "budget_penalty" (replicate (nrows out) (CNum 0%Qc))).
Proof using argsort_perm. apply recommend_budget_covered. Qed.

(* ------------------------------------------------------------------- *)
(** *** The budget filter of the dashboard *)
(* ------------------------------------------------------------------- *)

Lemma keep_length {A B : Type} (mask : list bool) (s : list A) (t : list B) :
  length s = length t → length (App.keep mask s) = length (App.keep mask t).
Proof.
  revert s t. induction mask as [|b mask IH]; intros [|x s] [|y t] Hlen;
    try done. cbn [App.keep]. injection Hlen as Hlen.
  destruct b; cbn [length]; by rewrite (IH s t Hlen).
Qed.

Lemma keep_Forall {A : Type} (P : A → Prop) (mask : list bool) (s : list A) :
  Forall P s → Forall P (App.keep mask s).
Proof.
  intros Hs. revert mask. induction Hs as [|x s Hx _ IH]; intros [|b mask];
    cbn [App.keep]; try constructor.
  destruct b; [constructor|]; auto.
Qed.

Lemma select_rows_lookup (mask : list bool) (df : DataFrame) (c : string) :
  columns (App.select_rows mask df) !! c = App.keep mask <$> columns df !! c.
Proof. unfold App.select_rows. cbn [columns]. apply lookup_fmap. Qed.

Lemma select_rows_wf (mask : list bool) (df : DataFrame) :
  wf_df df → wf_df (App.select_rows mask df).
Proof.
  intros Hwf c s. rewrite select_rows_lookup.
  destruct (columns df !! c) as [s0|] eqn:E; [|done]. intros [= <-].
  unfold App.select_rows. cbn [nrows]. apply keep_length.
  by rewrite length_seq, (Hwf c s0 E).
Qed.

(** A price that is known and not above [mx]. *)
Lemma at_most_keep (mx : Z) (price : list cell) (mask : list bool) :
  mapM (App.at_most mx) price = Ok mask →
  Forall (λ c, ∃ x, c = CNum x ∧ (x ≤ Qc_of_Z mx)%Qc) (App.keep mask price).
Proof.
  intros H%mapM_Ok_Forall2.
  induction H as [|c b price mask Hcb _ IH]; [constructor|].
  cbn [App.keep]. destruct b; [|done]. constructor; [|done].
  destruct c as [x| | |t]; try done. injection Hcb as Hx.
  exists x. split; [done|]. by apply bool_decide_eq_true_1 in Hx.
Qed.

Lemma budget_filter_spec (df_raw df_filtered : DataFrame)
    (min_budget : option Z) (max_budget : Z) :
  wf_df df_raw → has_column df_raw "price_inr" = true →
  App.budget_filter df_raw min_budget (Some max_budget) = Ok df_filtered →
  wf_df df_filtered ∧
  ∃ price, columns df_filtered !! "price_inr" = Some price ∧
           Forall (λ c, ∃ x, c = CNum x ∧ (x ≤ Qc_of_Z max_budget)%Qc) price.
Proof.
  intros Hwf Hhas. unfold App.budget_filter. rewrite Hhas.
  apply has_column_true in Hhas as [p Hp].
  destruct min_budget as [mn|].
  - unfold get_column at 1. rewrite Hp. cbn [bind].
    destruct (mapM (App.at_least mn) p) as [mask1|]; cbn [bind]; [|done].
    unfold get_column. rewrite select_rows_lookup, Hp.
    cbn [fmap option_fmap option_map bind].
    destruct (mapM (App.at_most max_budget) _) as [mask2|] eqn:E2;
      cbn [bind]; [|done].
    intros [= <-]. split; [by do 2 apply select_rows_wf|].
    rewrite !select_rows_lookup, Hp. eexists. split; [done|].
    by apply at_most_keep.
  - cbn [bind]. unfold get_column. rewrite Hp. cbn [bind].
    destruct (mapM (App.at_most max_budget) p) as [mask2|] eqn:E2;
      cbn [bind]; [|done].
    intros [= <-]. split; [by apply select_rows_wf|].
    rewrite select_rows_lookup, Hp. eexists. split; [done|].
    by apply at_most_keep.
Qed.

Lemma select_rows_fold (masks : list (list bool)) (df : DataFrame)
    (P : cell → Prop) (price : list cell) :
  wf_df df → columns df !! "price_inr" = Some price → Forall P price →
  let df' := foldl (λ d m, App.select_rows m d) df masks in
  wf_df df' ∧
  ∃ price', columns df' !! "price_inr" = Some price' ∧ Forall P price'.
Proof.
  revert df price. induction masks as [|m masks IH];
    intros df price Hwf Hp Hall; cbn [foldl]; [eauto|].
  apply (IH _ (App.keep m price)).
  - by apply select_rows_wf.
  - by rewrite select_rows_lookup, Hp.
  - by apply keep_Forall.
Qed.

(** X22.  In the dashboard the soft penalty never applies.  The script
    first drops every row whose price is missing or above the maximum
    budget, and any further filter only drops rows; so when [recommend] is
    then called on the computed axes with that same positive budget, it
    returns what it returns without a budget, plus a [budget_penalty]
    column of zeros. *)
Theorem dashboard_budget_penalty_inert (df_raw df_filtered : DataFrame)
    (min_budget : option Z) (max_budget : Z) (masks : list (list bool))
    (filters : gmap string Qc) (weights : gmap string Qc) (top_n : Z)
    (soft_fuel soft_body : bool) (selected_fuel selected_body : option string)
    (soft_fuel_weight soft_body_weight : Qc) :
  wf_df df_raw → has_column df_raw "price_inr" = true →
  (0 < max_budget)%Z →
  filters !! "max_budget" = Some (Qc_of_Z max_budget) →
  App.budget_filter df_raw min_budget (Some max_budget) = Ok df_filtered →
  let df := foldl (λ d m, App.select_rows m d) df_filtered masks in
  recommend (compute_axes df) weights top_n (Some filters) soft_fuel soft_body
    selected_fuel selected_body soft_fuel_weight soft_body_weight
  = do out <- recommend (compute_axes df) weights top_n None
                soft_fuel soft_body selected_fuel selected_body
                soft_fuel_weight soft_body_weight;
    Ok (set_column out "budget_penalty" (replicate (nrows out) (CNum 0%Qc))).
Proof using argsort_perm.
  intros Hwf Hhas Hpos Hf Hfilter df.
  destruct (budget_filter_spec _ _ _ _ Hwf Hhas Hfilter) as (Hwf1 & p1 & Hp1 & Hall1).
  destruct (select_rows_fold masks df_filtered _ p1 Hwf1 Hp1 Hall1)
    as (Hwf2 & p2 & Hp2 & Hall2).
  fold df in Hwf2, Hp2.
  apply (recommend_budget_covered (compute_axes df) weights top_n
           (Some filters) (Qc_of_Z max_budget) (coerced p2)).
  - by apply compute_axes_wf.
  - cbn [max_budget_of]. rewrite Hf. unfold Qc_eqb.
    rewrite bool_decide_eq_false_2; [done|].
    rewrite <- Z2Qc_inj_0. intros H0%Z2Qc_inj. lia.
  - rewrite <- Z2Qc_inj_1, <- Z2Qc_inj_add, <- Z2Qc_inj_0.
    apply (proj1 (Z2Qc_inj_lt 0 (max_budget + 1))). lia.
  - rewrite compute_axes_other by apply price_not_axis.
    rewrite coerce_columns_lookup, Hp2.
    by rewrite bool_decide_eq_true_2 by apply price_in_numeric_columns.
  - apply within_budget_coerced. eapply Forall_impl; [exact Hall2|].
    by intros c (x & -> & Hx).
Qed.

(* ------------------------------------------------------------------- *)
(** *** Normalising twice *)
(* ------------------------------------------------------------------- *)

(** A series of numbers between 0 and 1 that reaches both ends is its own
    normalisation. *)
Lemma normalize_series_full_span (n : list float) :
  unit_series n → Some 0%Qc ∈ n → Some 1%Qc ∈ n →
  normalize_series (map float_cell n) = n.
Proof.
  intros Hunit H0 H1.
  assert (∀ y, y ∈ n → is_Some y) as Hdef.
  { intros y [i Hy]%list_elem_of_lookup.
    destruct (Hunit i y Hy) as (x & -> & _). eauto. }
  assert (∀ x, x ∈ present n → (0 ≤ x ≤ 1)%Qc) as Hb.
  { intros x [i Hx]%present_elem%list_elem_of_lookup.
    destruct (Hunit i _ Hx) as (x' & [= <-] & Hx'). done. }
  unfold normalize_series. rewrite to_numeric_float_cell.
  rewrite forallb_isnull_defined; [|by intros ->; apply elem_of_nil in H0|done].
  rewrite (fillna_no_missing n _ Hdef).
  rewrite (series_min_unique n 0%Qc);
    [|by apply present_elem|intros y Hy; by apply Hb].
  rewrite (series_max_unique n 1%Qc);
    [|by apply present_elem|intros y Hy; by apply Hb].
  unfold Qc_eqb. rewrite bool_decide_eq_false_2 by done.
  rewrite <- (list_fmap_id n) at 2. apply list_fmap_ext. intros i y Hy.
  destruct (Hdef y) as [x ->]; [by eapply list_elem_of_lookup_2|].
  cbn. f_equal. drop_unused. unfold Qcdiv, Qcminus.
  apply Qc_is_canon. cbn. rewrite !Qred_correct. cbn. field.
Qed.

Lemma normalize_series_zeros (k : nat) :
  normalize_series (map float_cell (zeros k)) = zeros k.
Proof.
  unfold normalize_series. rewrite to_numeric_float_cell.
  destruct k as [|k]; [done|].
  assert (∀ y, y ∈ zeros (S k) → is_Some y) as Hdef.
  { intros y Hy. apply elem_of_replicate in Hy as [-> _]. eauto. }
  assert (0%Qc ∈ present (zeros (S k))) as Hin.
  { apply present_elem. left. }
  assert (∀ y, y ∈ present (zeros (S k)) → y = 0%Qc) as Hall.
  { intros y Hy%present_elem.
    by apply elem_of_replicate in Hy as [[= ->] _]. }
  rewrite forallb_isnull_defined by done. cbv zeta.
  rewrite (fillna_no_missing (zeros (S k)) _ Hdef).
  rewrite (series_min_unique (zeros (S k)) 0%Qc Hin)
    by (intros y ->%Hall; done).
  rewrite (series_max_unique (zeros (S k)) 0%Qc Hin)
    by (intros y ->%Hall; done).
  unfold Qc_eqb. rewrite bool_decide_eq_true_2 by done.
  unfold zeros. by rewrite length_replicate.
Qed.

(** X23.  [normalize_series] is idempotent on a column of moderate
    numbers, missing values and text: the normalised column, read as a
    column of numbers, is normalised to itself. *)
Theorem normalize_series_idempotent (infinite : string → bool)
    (s : list cell) :
  finite_column infinite s = true →
  normalize_series (map float_cell (normalize_series s)) = normalize_series s.
Proof.
  intros _.
  pose proof (normalize_series_unit s) as Hunit.
  destruct (normalize_series_cases s) as
    [[_ Hout]|(med & mn & mx & _ & _ & Hmn & Hmx & [[_ Hout]|[Hneq Hout]])].
  - rewrite Hout. apply normalize_series_zeros.
  - rewrite Hout. apply normalize_series_zeros.
  - apply normalize_series_full_span; [done| |]; rewrite Hout.
    + apply series_min_spec in Hmn as [Hin _]. apply present_elem in Hin.
      apply list_elem_of_fmap. exists (Some mn). split; [|done].
      cbn. by rewrite Qc_scale_min.
    + apply series_max_spec in Hmx as [Hin _]. apply present_elem in Hin.
      apply list_elem_of_fmap. exists (Some mx). split; [|done].
      cbn. by rewrite Qc_scale_max.
Qed.

(* ------------------------------------------------------------------- *)
(** *** After [compute_axes] the ranking does not fail on text *)
(* ------------------------------------------------------------------- *)

Lemma compute_axes_rankable (df : DataFrame)
    (filters : option (gmap string Qc)) :
  (∀ maxb, max_budget_of filters = Some maxb →
     (maxb + 1)%Qc ≠ 0%Qc ∧ has_column df "price_inr" = true) →
  rankable (compute_axes df) filters = true.
Proof.
  intros Hbud. unfold rankable. rewrite compute_axes_has_axes.
  apply andb_true_intro. split.
  - apply forallb_forall. intros a Ha%list_elem_of_In.
    apply (axes_of_names (coerce_columns df)) in Ha as [v Hv].
    unfold column_of. rewrite (compute_axes_axis df a v Hv). cbn.
    apply no_text_float_cell.
  - destruct (max_budget_of filters) as [maxb|]; [|done].
    destruct (Hbud maxb eq_refl) as [Hne Hhas].
    apply has_column_true in Hhas as [p Hp].
    assert (columns (compute_axes df) !! "price_inr" = Some (coerced p)) as Hc.
    { rewrite compute_axes_other by apply price_not_axis.
      rewrite coerce_columns_lookup, Hp.
      by rewrite bool_decide_eq_true_2 by apply price_in_numeric_columns. }
    rewrite !andb_true_iff. split_and!.
    + apply negb_true_iff. by apply bool_decide_eq_false_2.
    + apply has_column_true. rewrite Hc. eauto.
    + unfold column_of. rewrite Hc. apply no_text_float_cell.
Qed.

(** X24.  On the output of [compute_axes] the ranking cannot fail on
    text: on a catalogue whose numeric columns hold moderate numbers,
    missing values and text of any kind (no bool column), [recommend]
    returns a frame of the expected length, provided only that a budget
    in force finds a price column and is not -1. *)
Theorem recommend_after_compute_axes (infinite : string → bool)
    (df : DataFrame)
    (weights : gmap string Qc) (top_n : Z) (filters : option (gmap string Qc))
    (soft_fuel soft_body : bool) (selected_fuel selected_body : option string)
    (soft_fuel_weight soft_body_weight : Qc) :
  wf_df df → finite_table infinite df = true →
  (∀ maxb, max_budget_of filters = Some maxb →
     (maxb + 1)%Qc ≠ 0%Qc ∧ has_column df "price_inr" = true) →
  ∃ out,
    recommend (compute_axes df) weights top_n filters soft_fuel soft_body
      selected_fuel selected_body soft_fuel_weight soft_body_weight = Ok out ∧
    wf_df out ∧ nrows out = rows_returned top_n (nrows df).
Proof using argsort_perm argsort_sorted.
  intros Hwf _ Hbud.
  pose proof (compute_axes_wf df Hwf) as Hwf0.
  pose proof (compute_axes_rankable df filters Hbud) as Hr.
  rewrite recommend_unfold. cbv zeta.
  destruct (with_axes_spec (compute_axes df) filters Hwf0 Hr)
    as (Hwf1 & Hn1 & Hax1 & Hp1).
  pose proof (add_soft_axes_spec (with_axes (compute_axes df)) soft_fuel
                soft_body selected_fuel selected_body Hwf1) as Hsoft.
  cbv zeta in Hsoft. rewrite add_soft_axes_names in Hsoft.
  destruct Hsoft as (Hwf2 & Hn2 & Hsame & Hextra).
  set (D2 := (add_soft_axes (with_axes (compute_axes df)) soft_fuel soft_body
                selected_fuel selected_body).1) in *.
  set (extra := soft_axis_names soft_fuel soft_body selected_fuel selected_body)
    in *.
  destruct (score_frame_ok D2
              (normalized_weights weights
                 (active_weight_keys soft_fuel soft_body
                    selected_fuel selected_body))
              (axis_names ++ extra) filters Hwf2)
    as (D3 & sc & -> & Hn3 & Hwf3 & Hlen & Hfs).
  { intros col [Hc|Hc]%elem_of_app; [|by apply Hextra].
    destruct (axis_names_not_soft col Hc) as (? & ? & ? & _).
    rewrite Hsame by done. by apply Hax1. }
  { intros maxb Hm. destruct (Hp1 maxb Hm) as (Hne & s & Hs & Hnt).
    split; [done|]. exists s. by rewrite Hsame. }
  cbn [bind]. eexists. split; [done|].
  destruct (sort_head_spec D3 sc top_n Hwf3) as (Ho1 & Ho2 & _);
    [congruence|done|].
  split; [done|]. rewrite Ho2. unfold rows_returned.
  by rewrite Hn3, Hn2, Hn1, compute_axes_nrows.
Qed.

(* ------------------------------------------------------------------- *)
(** *** The scores behind a ranking *)
(* ------------------------------------------------------------------- *)











End Engine.

(* ===================================================================== *)
(** ** The reference sort meets what is assumed of [argsort] *)
(* ===================================================================== *)

Lemma insert_desc_perm (p : nat * Qc) (l : list (nat * Qc)) :
  insert_desc p l ≡ₚ p :: l.
Proof.
  induction l as [|q l IH]; simpl; [done|].
  case_decide; [done|]. rewrite IH. apply Permutation_swap.
Qed.

Lemma sort_pairs_perm (l : list (nat * Qc)) : foldr insert_desc [] l ≡ₚ l.
Proof.
  induction l as [|p l IH]; simpl; [done|].
  by rewrite insert_desc_perm, IH.
Qed.

Lemma stable_argsort_perm (keys : list Qc) :
  stable_argsort keys ≡ₚ seq 0 (length keys).
Proof.
  unfold stable_argsort.
  trans (zip (seq 0 (length keys)) keys).*1.
  - apply (fmap_Permutation fst), sort_pairs_perm.
  - rewrite fst_zip; [done|]. by rewrite length_seq.
Qed.

Lemma insert_desc_sorted (p : nat * Qc) (l : list (nat * Qc)) :
  StronglySorted (λ a b, (b.2 ≤ a.2)%Qc) l →
  StronglySorted (λ a b, (b.2 ≤ a.2)%Qc) (insert_desc p l).
Proof.
  induction 1 as [|q l Hs IH Hall]; simpl.
  - repeat constructor.
  - case_decide as Hd.
    + constructor; [by constructor|]. constructor; [done|].
      eapply Forall_impl; [exact Hall|]. intros z Hz. simpl in *.
      by etrans.
    + apply Qcnot_le_lt, Qclt_le_weak in Hd. constructor; [done|].
      rewrite (insert_desc_perm p l). by constructor.
Qed.

Lemma sort_pairs_sorted (l : list (nat * Qc)) :
  StronglySorted (λ a b, (b.2 ≤ a.2)%Qc) (foldr insert_desc [] l).
Proof.
  induction l as [|p l IH]; simpl; [constructor|]. by apply insert_desc_sorted.
Qed.

Lemma stable_argsort_sorted (keys : list Qc) :
  StronglySorted (λ a b, (b ≤ a)%Qc)
    (omap (λ i, keys !! i) (stable_argsort keys)).
Proof.
  unfold stable_argsort.
  set (ps := foldr insert_desc [] (zip (seq 0 (length keys)) keys)).
  assert (Forall (λ p, keys !! p.1 = Some p.2) ps) as Hps.
  { unfold ps. rewrite sort_pairs_perm. apply Forall_forall.
    intros [i k] Hin.
    destruct (proj1 (elem_of_lookup_zip_with pair _ _ _) Hin)
      as (j & i' & k' & [= -> ->] & Hi & Hk).
    apply lookup_seq in Hi as [-> _]. done. }
  pose proof (sort_pairs_sorted (zip (seq 0 (length keys)) keys)) as Hs.
  fold ps in Hs. clearbody ps.
  induction Hs as [|p l Hs IH Hall]; [constructor|].
  apply Forall_cons_1 in Hps as [Hp Hps]. cbn. rewrite Hp. cbn.
  constructor; [by apply IH|].
  clear IH Hs. induction l as [|q l IHl]; [constructor|].
  apply Forall_cons_1 in Hps as [Hq Hps].
  apply Forall_cons_1 in Hall as [Hpq Hall].
  cbn. rewrite Hq. cbn. constructor; [done|]. by apply IHl.
Qed.

(* ===================================================================== *)
(** ** The properties on sample data *)
(* ===================================================================== *)

Lemma three_cars_wf : wf_df three_cars.
Proof. apply (bool_decide_unpack _). by vm_compute. Qed.


Lemma no_price_wf : wf_df no_price.
Proof. apply (bool_decide_unpack _). by vm_compute. Qed.



Example normalize_series_sample :
  map (fmap this) (normalize_series float_of_text [num 10; CStr "n/a"; num 30; CNaN])
  = [Some 0%Q; Some (1 # 2)%Q; Some 1%Q; Some (1 # 2)%Q].
Proof. by vm_compute. Qed.

Lemma three_cars_finite :
  finite_table float_of_text spells_infinity three_cars = true.
Proof. by vm_compute. Qed.


Example compute_axes_sample :
  column_values (compute_axes float_of_text three_cars) "axis_performance"
    = Some [Some 0%Q; Some (1 # 2)%Q; Some 1%Q] ∧
  column_values (compute_axes float_of_text three_cars) "axis_price"
    = Some [Some 1%Q; Some (8 # 15)%Q; Some 0%Q] ∧
  column_values (compute_axes float_of_text three_cars) "axis_safety"
    = Some [Some 0%Q; Some 0%Q; Some 0%Q].
Proof. split_and!; by vm_compute. Qed.

(** The scenario of three cars priced 500000, 1200000 and 2000000 with a
    budget of 1000000: the cheapest ranks first, the dearest last. *)
Example ranking_sample :
  result_column
    (recommend float_of_text render_number stable_argsort three_cars
       (six_weights 5) 3 (budget 1000000) false false None None 0%Qc 0%Qc)
    "price_inr"
  = Some [Some 500000%Q; Some 1200000%Q; Some 2000000%Q].
Proof. by vm_compute. Qed.







Lemma recommend_raises_without_price_witness :
  wf_df no_price ∧ columns no_price !! "price_inr" = None ∧
  recommend float_of_text render_number stable_argsort no_price
    ∅ 20 (budget 1000000) false false None None 0%Qc 0%Qc
  = Raise (KeyError "price_inr").
Proof.
  assert (rankable no_price None = true) as Hr by by vm_compute.
  assert (max_budget_of (budget 1000000) = Some (Qc_of_Z 1000000)) as Hm
    by by vm_compute.
  assert (columns no_price !! "price_inr" = None) as Hn by by vm_compute.
  split; [exact no_price_wf|]. split; [exact Hn|].
  exact (recommend_raises_without_price float_of_text render_number
           stable_argsort no_price ∅ 20 (budget 1000000) (Qc_of_Z 1000000)
           false false None None 0%Qc 0%Qc no_price_wf Hr Hm Hn).
Defined.



(* ------------------------------------------------------------------- *)
(** *** Further properties of the engine on the sample catalogue *)
(* ------------------------------------------------------------------- *)

Lemma recommend_top_n_prefix_witness :
  (0 ≤ 2 ≤ 3)%Z ∧
  recommend float_of_text render_number stable_argsort three_cars
    (six_weights 5) 2 (budget 1000000) false false None None 0%Qc 0%Qc
  = do out <- recommend float_of_text render_number stable_argsort three_cars
                (six_weights 5) 3 (budget 1000000) false false None None
                0%Qc 0%Qc;
    Ok (df_head 2 out).
Proof.
  assert (0 ≤ 2 ≤ 3)%Z as Hk by lia.
  split; [exact Hk|].
  exact (recommend_top_n_prefix float_of_text render_number stable_argsort
           three_cars (six_weights 5) 2 3 (budget 1000000)
           false false None None 0%Qc 0%Qc Hk).
Defined.

Lemma compute_axes_unit_interval_witness :
  wf_df three_cars ∧
  finite_table float_of_text spells_infinity three_cars = true ∧
  "axis_price" ∈ axis_names ∧
  ∃ col,
    columns (compute_axes float_of_text three_cars) !! "axis_price" = Some col ∧
    length col = nrows three_cars ∧
    ∀ c, c ∈ col → ∃ x, c = CNum x ∧ (0 ≤ x ≤ 1)%Qc.
Proof.
  assert ("axis_price" ∈ axis_names) as Hin.
  { apply (bool_decide_unpack _). by vm_compute. }
  split; [exact three_cars_wf|]. split; [exact three_cars_finite|].
  split; [exact Hin|].
  exact (compute_axes_unit_interval float_of_text spells_infinity three_cars
           "axis_price" three_cars_wf three_cars_finite Hin).
Defined.

Lemma recommend_axes_precomputed_witness :
  forallb (has_column three_cars) axis_names = false ∧
  recommend float_of_text render_number stable_argsort
    (compute_axes float_of_text three_cars)
    (six_weights 5) 3 (budget 1000000) false false None None 0%Qc 0%Qc
  = recommend float_of_text render_number stable_argsort three_cars
      (six_weights 5) 3 (budget 1000000) false false None None 0%Qc 0%Qc.
Proof.
  assert (forallb (has_column three_cars) axis_names = false) as Hmiss
    by by vm_compute.
  split; [exact Hmiss|].
  exact (recommend_axes_precomputed float_of_text render_number stable_argsort
           three_cars (six_weights 5) 3 (budget 1000000)
           false false None None 0%Qc 0%Qc Hmiss).
Defined.

Lemma normalize_series_monotone_witness :
  let s := [num 10; CStr "n/a"; num 30; CNaN] in
  finite_column float_of_text spells_infinity s = true ∧
  ∃ a b,
    normalize_series float_of_text s !! 0%nat = Some (Some a) ∧
    normalize_series float_of_text s !! 2%nat = Some (Some b) ∧
    (a ≤ b)%Qc.
Proof.
  intros s.
  assert (finite_column float_of_text spells_infinity s = true) as Hfin
    by by vm_compute.
  assert (Qc_of_Z 10 ≤ Qc_of_Z 30)%Qc as Hle by by vm_compute.
  split; [exact Hfin|].
  destruct (normalize_series_monotone float_of_text spells_infinity s 0 2
              (num 10) (num 30) (Qc_of_Z 10) (Qc_of_Z 30) Hfin
              eq_refl eq_refl eq_refl eq_refl) as (a & b & Ha & Hb & Hab).
  exists a, b. split; [exact Ha|]. split; [exact Hb|exact (Hab Hle)].
Defined.

Lemma normalize_series_idempotent_witness :
  let s := [num 10; CStr "n/a"; num 30; CNaN] in
  finite_column float_of_text spells_infinity s = true ∧
  normalize_series float_of_text
    (map float_cell (normalize_series float_of_text s))
  = normalize_series float_of_text s.
Proof.
  intros s.
  assert (finite_column float_of_text spells_infinity s = true) as Hfin
    by by vm_compute.
  split; [exact Hfin|].
  exact (normalize_series_idempotent float_of_text spells_infinity s Hfin).
Defined.

Lemma recommend_rows_intact_witness :
  wf_df three_cars ∧
  ∃ out idx,
    recommend float_of_text render_number stable_argsort three_cars
      (six_weights 5) 2 (budget 1000000) false false None None 0%Qc 0%Qc
    = Ok out ∧
    idx ≡ₚ seq 0 (nrows three_cars) ∧
    nrows out = length (head 2 idx).
Proof.
  split; [exact three_cars_wf|].
  destruct (recommend float_of_text render_number stable_argsort three_cars
              (six_weights 5) 2 (budget 1000000) false false None None
              0%Qc 0%Qc) as [out|e] eqn:E.
  - destruct (recommend_rows_intact float_of_text render_number stable_argsort
                stable_argsort_perm three_cars out (six_weights 5) 2
                (budget 1000000) false false None None 0%Qc 0%Qc
                three_cars_wf E) as (idx & Hperm & Hrows & _).
    exists out, idx. split; [reflexivity|]. split; [exact Hperm|exact Hrows].
  - exfalso.
    assert (result_rows (Raise e) = Some 2%nat) as H; [|discriminate H].
    rewrite <- E. by vm_compute.
Defined.

Lemma budget_covering_all_prices_witness :
  wf_df three_cars ∧
  max_budget_of (budget 5000000) = Some (Qc_of_Z 5000000) ∧
  (0 < Qc_of_Z 5000000 + 1)%Qc ∧
  Forall (within_budget (Qc_of_Z 5000000))
    [num 500000; num 1200000; num 2000000] ∧
  recommend float_of_text render_number stable_argsort three_cars
    (six_weights 5) 3 (budget 5000000) false false None None 0%Qc 0%Qc
  = do out <- recommend float_of_text render_number stable_argsort three_cars
                (six_weights 5) 3 None false false None None 0%Qc 0%Qc;
    Ok (set_column out "budget_penalty" (replicate (nrows out) (CNum 0%Qc))).
Proof.
  assert (max_budget_of (budget 5000000) = Some (Qc_of_Z 5000000)) as Hm
    by by vm_compute.
  assert (0 < Qc_of_Z 5000000 + 1)%Qc as Hb by by vm_compute.
  assert (columns three_cars !! "price_inr"
          = Some [num 500000; num 1200000; num 2000000]) as Hp
    by by vm_compute.
  assert (Forall (within_budget (Qc_of_Z 5000000))
            [num 500000; num 1200000; num 2000000]) as Hall.
  { repeat constructor; by vm_compute. }
  split; [exact three_cars_wf|]. split; [exact Hm|]. split; [exact Hb|].
  split; [exact Hall|].
  exact (budget_covering_all_prices float_of_text render_number stable_argsort
           stable_argsort_perm three_cars (six_weights 5) 3 (budget 5000000)
           (Qc_of_Z 5000000) [num 500000; num 1200000; num 2000000]
           false false None None 0%Qc 0%Qc three_cars_wf Hm Hb Hp Hall).
Defined.

Lemma dashboard_budget_penalty_inert_witness :
  wf_df three_cars ∧ has_column three_cars "price_inr" = true ∧
  (0 < 1500000)%Z ∧
  ∃ df_filtered,
    App.budget_filter three_cars None (Some 1500000%Z) = Ok df_filtered ∧
    recommend float_of_text render_number stable_argsort
      (compute_axes float_of_text df_filtered) (six_weights 5) 5
      (budget 1500000) false false None None 0%Qc 0%Qc
    = do out <- recommend float_of_text render_number stable_argsort
                  (compute_axes float_of_text df_filtered) (six_weights 5) 5
                  None false false None None 0%Qc 0%Qc;
      Ok (set_column out "budget_penalty" (replicate (nrows out) (CNum 0%Qc))).
Proof.
  assert (has_column three_cars "price_inr" = true) as Hhas by by vm_compute.
  assert (0 < 1500000)%Z as Hpos by lia.
  assert ((list_to_map [("max_budget", Qc_of_Z 1500000)] : gmap string Qc)
            !! "max_budget" = Some (Qc_of_Z 1500000)) as Hf by by vm_compute.
  split; [exact three_cars_wf|]. split; [exact Hhas|]. split; [exact Hpos|].
  destruct (App.budget_filter three_cars None (Some 1500000%Z))
    as [df_filtered|e] eqn:E.
  - exists df_filtered. split; [reflexivity|].
    exact (dashboard_budget_penalty_inert float_of_text render_number
             stable_argsort stable_argsort_perm three_cars df_filtered None
             1500000 [] (list_to_map [("max_budget", Qc_of_Z 1500000)])
             (six_weights 5) 5 false false None None 0%Qc 0%Qc
             three_cars_wf Hhas Hpos Hf E).
  - exfalso.
    assert (result_rows (Raise e) = Some 2%nat) as H; [|discriminate H].
    rewrite <- E. by vm_compute.
Defined.

Lemma recommend_after_compute_axes_witness :
  wf_df three_cars ∧
  finite_table float_of_text spells_infinity three_cars = true ∧
  ∃ out,
    recommend float_of_text render_number stable_argsort
      (compute_axes float_of_text three_cars) (six_weights 5) 2
      (budget 1000000) false false None None 0%Qc 0%Qc = Ok out ∧
    nrows out = 2%nat.
Proof.
  assert (∀ maxb, max_budget_of (budget 1000000) = Some maxb →
            (maxb + 1)%Qc ≠ 0%Qc ∧ has_column three_cars "price_inr" = true)
    as Hbud.
  { intros maxb Hm.
    assert (max_budget_of (budget 1000000) = Some (Qc_of_Z 1000000)) as Hm'
      by by vm_compute.
    rewrite Hm' in Hm. injection Hm as <-. split; [|by vm_compute].
    apply not_eq_sym, Qclt_not_eq. by vm_compute. }
  split; [exact three_cars_wf|]. split; [exact three_cars_finite|].
  destruct (recommend_after_compute_axes float_of_text render_number
              stable_argsort stable_argsort_perm stable_argsort_sorted
              spells_infinity three_cars (six_weights 5) 2 (budget 1000000)
              false false None None 0%Qc 0%Qc three_cars_wf three_cars_finite
              Hbud)
    as (out & Hout & _ & Hrows).
  exists out. split; [exact Hout|exact Hrows].
Defined.

(* ===================================================================== *)
(** ** The binary64 run where the exact reading and the code part *)
(* ===================================================================== *)

Section Binary64.

Import PrimFloat.
Local Open Scope float_scope.
Local Set Warnings "-inexact-float".


(** On the int64 column [-2^62 - 5, 0, 2^62 + 5] both subtractions wrap
    around: the least number gets -0.0, the middle one -0.5. *)
Example normalize_series_wraps :
  F64.normalize_series (F64.Int64 [- 2 ^ 62 - 5; 0; 2 ^ 62 + 5]%Z)
  = Ok [-0; -0.5; 1].
Proof. by vm_compute. Qed.

(** A bool column that holds both values cannot be normalised: the
    subtraction [s_filled - mn] is refused. *)
Example normalize_series_raises_on_bool :
  F64.normalize_series (F64.Bool [true; false]) = Raise TypeError ∧
  F64.normalize_series (F64.Bool [true; true]) = Ok [0; 0].
Proof. split; by vm_compute. Qed.

(** Within the bounds of the statements the two column types agree. *)
Example normalize_series_moderate :
  F64.normalize_series (F64.Int64 [10; 20; 30]%Z) = Ok [0; 0.5; 1] ∧
  F64.normalize_series (F64.Float64 [10; nan; 30; 25]) = Ok [0; 0.75; 1; 0.75].
Proof. split; by vm_compute. Qed.



(** A uniform whole number is normalised as the zero vector is. *)
Example uniform_fives_as_zero_weights :
  F64.normalized_weights (replicate 6 5) = F64.normalized_weights (replicate 6 0).
Proof. by vm_compute. Qed.

(** Whether [w.sum()] adds the six entries from left to right or, as a
    reduction seeded with its first entry does, adds the first entry to
    the sum of the others, the totals above are the same. *)
Example sums_either_way :
  1 / 10 + F64.np_sum (replicate 5 (1 / 10)) = F64.np_sum (replicate 6 (1 / 10)) ∧
  0.16666666666666666 + F64.np_sum (replicate 5 0.16666666666666666)
  = F64.np_sum (replicate 6 0.16666666666666666).
Proof. split; by vm_compute. Qed.

(** C5: a penalty that float64 rounds away.  With a budget of
    18014398509481982 and a car priced 18014398509481984, the penalty is
    2^-53 and a score of 1 stays 1. *)
Example small_penalty_absorbed :
  F64.budget_penalty 18014398509481982 0x1p54 = 0x1p-53 ∧
  F64.penalised 1 18014398509481982 0x1p54 = 1.
Proof. split; by vm_compute. Qed.

End Binary64.

(* ===================================================================== *)
(** ** The budget parser on its documented inputs *)
(* ===================================================================== *)

(** C6.  The seven documented conversions of [parse_budget_input]. *)
Theorem parse_budget_examples :
  Budget.parse_budget_input (Some "10") = Some 1000000%Z ∧
  Budget.parse_budget_input (Some "10.5") = Some 1050000%Z ∧
  Budget.parse_budget_input (Some "100k") = Some 100000%Z ∧
  Budget.parse_budget_input (Some "1.2cr") = Some 12000000%Z ∧
  Budget.parse_budget_input (Some "₹12.5") = Some 1250000%Z ∧
  Budget.parse_budget_input (Some EmptyString) = None ∧
  Budget.parse_budget_input (Some "50000") = Some 50000%Z.
Proof. split_and!; by vm_compute. Qed.

(** C9, against the claim as stated: ["1000"] does not come back as 1000. *)
Lemma parse_1000_not_absolute :
  Budget.parse_budget_input (Some "1000") ≠ Some 1000%Z.
Proof. by vm_compute. Qed.

(** C9, as the code has it.  A bare literal of exactly 1000 is read as
    lakhs: ["1000"] gives 100,000,000.  The absolute reading starts
    strictly above 1000 (["1001"] gives 1001) and includes 100,000. *)
Theorem parse_budget_boundaries :
  Budget.parse_budget_input (Some "1000") = Some 100000000%Z ∧
  Budget.parse_budget_input (Some "1001") = Some 1001%Z ∧
  Budget.parse_budget_input (Some "99999") = Some 99999%Z ∧
  Budget.parse_budget_input (Some "100000") = Some 100000%Z.
Proof. split_and!; by vm_compute. Qed.

(* ===================================================================== *)
(** ** The string primitives *)
(* ===================================================================== *)

Lemma lower_char_idem (c : ascii) :
  PyStr.lower_char (PyStr.lower_char c) = PyStr.lower_char c.
Proof. destruct c as [[] [] [] [] [] [] [] []]; reflexivity. Qed.

Lemma lower_idem (s : string) : PyStr.lower (PyStr.lower s) = PyStr.lower s.
Proof.
  induction s as [|c s IH]; simpl; [done|]. by rewrite lower_char_idem, IH.
Qed.

Lemma lower_app (s t : string) :
  PyStr.lower (s +:+ t) = PyStr.lower s +:+ PyStr.lower t.
Proof. induction s as [|c s IH]; simpl; [done|]. by rewrite IH. Qed.

Lemma startswith_app (p s t : string) :
  PyStr.startswith p s = true → PyStr.startswith p (s +:+ t) = true.
Proof.
  revert s. induction p as [|a p IH]; intros [|b s]; simpl; try done.
  destruct (Ascii.eqb a b); [apply IH|done].
Qed.

Lemma contains_app_r (p s t : string) :
  PyStr.contains p s = true → PyStr.contains p (s +:+ t) = true.
Proof.
  induction s as [|c s IH].
  - destruct p; [|done]. intros _. by destruct t.
  - change (String c s +:+ t) with (String c (s +:+ t)).
    cbn [PyStr.contains]. intros [H|H]%orb_true_iff.
    + apply (startswith_app _ _ t) in H.
      change (String c s +:+ t) with (String c (s +:+ t)) in H.
      by rewrite H.
    + rewrite (IH H). apply orb_true_r.
Qed.

Lemma contains_app_l (p s t : string) :
  PyStr.contains p s = true → PyStr.contains p (t +:+ s) = true.
Proof.
  intros H. induction t as [|c t IH]; [done|].
  change (String c t +:+ s) with (String c (t +:+ s)).
  cbn [PyStr.contains]. rewrite IH. apply orb_true_r.
Qed.

Lemma contains_lower_context (p pre s post : string) :
  PyStr.contains p (PyStr.lower s) = true →
  PyStr.contains p (PyStr.lower (pre +:+ s +:+ post)) = true.
Proof.
  intros H. rewrite !lower_app. by apply contains_app_l, contains_app_r.
Qed.

(* ===================================================================== *)
(** ** Fuel categories *)
(* ===================================================================== *)

Lemma map_fuel_to_category_cases (s : option string) :
  Fuel.map_fuel_to_category s = "CNG" ∨
  Fuel.map_fuel_to_category s = "Diesel" ∨
  Fuel.map_fuel_to_category s = "Hybrid" ∨
  Fuel.map_fuel_to_category s = "Petrol".
Proof.
  destruct s as [s|]; [|by auto]. unfold Fuel.map_fuel_to_category. cbv zeta.
  repeat match goal with
         | |- context [if ?b then _ else _] => destruct b
         end; auto.
Qed.

(** X10.  [map_fuel_to_category] always answers with one of the four
    entries of [FUEL_CATEGORIES], and each of the four is mapped to
    itself: applying the function to its own result changes nothing. *)
Theorem map_fuel_to_category_closed (s : option string) :
  Fuel.map_fuel_to_category s ∈ Fuel.FUEL_CATEGORIES ∧
  Fuel.map_fuel_to_category (Some (Fuel.map_fuel_to_category s))
  = Fuel.map_fuel_to_category s.
Proof.
  destruct (map_fuel_to_category_cases s) as [H|[H|[H|H]]]; rewrite H;
    (split; [apply (bool_decide_unpack _); by vm_compute|by vm_compute]).
Qed.

(** X11.  The mapping does not see letter case: a text and its lower-case
    form get the same category. *)
Theorem map_fuel_to_category_case_insensitive (s : string) :
  Fuel.map_fuel_to_category (Some (PyStr.lower s))
  = Fuel.map_fuel_to_category (Some s).
Proof. unfold Fuel.map_fuel_to_category. by rewrite lower_idem. Qed.

(** X12.  Text around a fuel description can only move it up the order
    in which the tests are made (CNG, then Diesel, then Hybrid, then
    Petrol); in particular a text classified CNG stays CNG whatever is
    written before or after it. *)
Theorem map_fuel_to_category_context (pre s post : string) :
  (Fuel.precedence (Fuel.map_fuel_to_category (Some s))
   ≤ Fuel.precedence
       (Fuel.map_fuel_to_category (Some (pre +:+ s +:+ post))))%nat.
Proof.
  unfold Fuel.map_fuel_to_category. cbv zeta.
  set (t := PyStr.lower s). set (u := PyStr.lower (pre +:+ s +:+ post)).
  assert (∀ p, PyStr.contains p t = true → PyStr.contains p u = true) as Hm.
  { intros p. apply contains_lower_context. }
  pose proof (Hm "cng") as Hc.
  assert (PyStr.contains "diesel" t || PyStr.contains "deisel" t = true →
          PyStr.contains "diesel" u || PyStr.contains "deisel" u = true) as Hd.
  { rewrite !orb_true_iff. intros [?|?]; auto. }
  assert (PyStr.contains "hybrid" t || PyStr.contains "phev" t
          || PyStr.contains "plug-in" t || PyStr.contains "plug in" t
          || PyStr.contains "mild" t = true →
          PyStr.contains "hybrid" u || PyStr.contains "phev" u
          || PyStr.contains "plug-in" u || PyStr.contains "plug in" u
          || PyStr.contains "mild" u = true) as Hh.
  { rewrite !orb_true_iff. intros [[[[?|?]|?]|?]|?]; auto 10. }
  clear Hm.
  destruct (PyStr.contains "cng" t), (PyStr.contains "cng" u);
    try (by specialize (Hc eq_refl)); clear Hc;
    destruct (PyStr.contains "diesel" t || PyStr.contains "deisel" t),
             (PyStr.contains "diesel" u || PyStr.contains "deisel" u);
    try (by specialize (Hd eq_refl)); clear Hd;
    destruct (PyStr.contains "hybrid" t || PyStr.contains "phev" t
              || PyStr.contains "plug-in" t || PyStr.contains "plug in" t
              || PyStr.contains "mild" t),
             (PyStr.contains "hybrid" u || PyStr.contains "phev" u
              || PyStr.contains "plug-in" u || PyStr.contains "plug in" u
              || PyStr.contains "mild" u);
    try (by specialize (Hh eq_refl)); clear Hh;
    repeat match goal with
           | |- context [if ?b then _ else _] => destruct b
           end; vm_compute; lia.
Qed.

(* ===================================================================== *)
(** ** Texts and whole numbers *)
(* ===================================================================== *)

Module StrFacts.
Import PyStr Budget.

Lemma append_cons (c : ascii) (s t : string) :
  String c s +:+ t = String c (s +:+ t).
Proof. reflexivity. Qed.

Lemma append_nil_r (s : string) : s +:+ EmptyString = s.
Proof. induction s as [|c s IH]; [done|]. by rewrite append_cons, IH. Qed.

Lemma append_assoc (s t u : string) : (s +:+ t) +:+ u = s +:+ t +:+ u.
Proof. induction s as [|c s IH]; [done|]. by rewrite !append_cons, IH. Qed.

Lemma all_chars_app (p : ascii → bool) (s t : string) :
  all_chars p (s +:+ t) = all_chars p s && all_chars p t.
Proof.
  induction s as [|c s IH]; [done|].
  rewrite append_cons. simpl. by rewrite IH, andb_assoc.
Qed.

Lemma all_chars_impl (p q : ascii → bool) (s : string) :
  (∀ c, p c = true → q c = true) →
  all_chars p s = true → all_chars q s = true.
Proof.
  intros Hpq. induction s as [|c s IH]; simpl; [done|].
  intros [Hc Hs]%andb_true_iff. by rewrite (Hpq c Hc), IH.
Qed.

(** *** Reversal *)

Lemma rev_onto_spec (s acc : string) : rev_onto s acc = rev s +:+ acc.
Proof.
  unfold rev. revert acc. induction s as [|c s IH]; intros acc; simpl; [done|].
  rewrite (IH (String c acc)), (IH (String c EmptyString)).
  by rewrite append_assoc.
Qed.

Lemma rev_cons (c : ascii) (s : string) :
  rev (String c s) = rev s +:+ String c EmptyString.
Proof. unfold rev at 1. simpl. apply rev_onto_spec. Qed.

Lemma rev_app (s t : string) : rev (s +:+ t) = rev t +:+ rev s.
Proof.
  induction s as [|c s IH].
  - by rewrite append_nil_r.
  - by rewrite append_cons, !rev_cons, IH, append_assoc.
Qed.

Lemma rev_rev (s : string) : rev (rev s) = s.
Proof.
  induction s as [|c s IH]; [done|]. by rewrite rev_cons, rev_app, IH.
Qed.

Lemma all_chars_rev (p : ascii → bool) (s : string) :
  all_chars p (rev s) = all_chars p s.
Proof.
  induction s as [|c s IH]; [done|].
  rewrite rev_cons, all_chars_app, IH. simpl.
  by rewrite andb_true_r, andb_comm.
Qed.

Lemma rev_empty (s : string) : rev s = EmptyString → s = EmptyString.
Proof. intros H. by rewrite <- (rev_rev s), H. Qed.

(** *** Texts the clean-up leaves as they are *)

Lemma lstrip_fixed (s : string) :
  all_chars (λ c, negb (is_space c)) s = true → lstrip s = s.
Proof.
  destruct s as [|c s]; simpl; [done|].
  intros [Hc _]%andb_true_iff. by apply negb_true_iff in Hc as ->.
Qed.

Lemma strip_fixed (s : string) :
  all_chars (λ c, negb (is_space c)) s = true → strip s = s.
Proof.
  intros H. unfold strip, rstrip. rewrite (lstrip_fixed s H).
  rewrite lstrip_fixed by by rewrite all_chars_rev. apply rev_rev.
Qed.

Lemma lower_fixed (s : string) :
  all_chars (λ c, negb (is_upper c)) s = true → lower s = s.
Proof.
  induction s as [|c s IH]; simpl; [done|].
  intros [Hc Hs]%andb_true_iff. rewrite (IH Hs). unfold lower_char.
  by apply negb_true_iff in Hc as ->.
Qed.

Lemma replace_absent (a : ascii) (old new s : string) :
  all_chars (λ c, negb (Ascii.eqb a c)) s = true →
  replace (String a old) new s = s.
Proof.
  unfold replace. induction s as [|c s IH]; simpl; [done|].
  intros [Hc Hs]%andb_true_iff. apply negb_true_iff in Hc. rewrite Hc.
  by rewrite (IH Hs).
Qed.

Lemma plain_char_spec (c : ascii) :
  plain_char c = true →
  is_upper c = false ∧ Ascii.eqb ","%char c = false ∧
  Ascii.eqb (Ascii.ascii_of_N 226) c = false.
Proof. destruct c as [[] [] [] [] [] [] [] []]; by vm_compute. Qed.

Lemma normal_form_plain (s : string) :
  strip s = s → all_chars plain_char s = true →
  replace rupee EmptyString (replace "," EmptyString (lower (strip s))) = s.
Proof.
  intros -> H.
  rewrite lower_fixed, replace_absent.
  - apply (replace_absent (Ascii.ascii_of_N 226)).
    revert H. apply all_chars_impl. intros c Hc.
    apply plain_char_spec in Hc as (_ & _ & ->). done.
  - revert H. apply all_chars_impl. intros c Hc.
    apply plain_char_spec in Hc as (_ & -> & _). done.
  - revert H. apply all_chars_impl. intros c Hc.
    apply plain_char_spec in Hc as (-> & _ & _). done.
Qed.

Lemma digit_plain (c : ascii) :
  is_digit c = true → plain_char c = true ∧ is_space c = false.
Proof. destruct c as [[] [] [] [] [] [] [] []]; by vm_compute. Qed.

Lemma digits_plain (d : string) :
  all_chars is_digit d = true → all_chars plain_char d = true.
Proof. apply all_chars_impl. intros c Hc. by apply digit_plain. Qed.

Lemma digits_no_space (d : string) :
  all_chars is_digit d = true →
  all_chars (λ c, negb (is_space c)) d = true.
Proof.
  apply all_chars_impl. intros c Hc.
  by apply digit_plain in Hc as [_ ->].
Qed.

(** *** Stripping *)

Lemma lstrip_head (s : string) (x : ascii) (z : string) :
  lstrip s = String x z → is_space x = false.
Proof.
  induction s as [|c s IH]; simpl; [done|].
  destruct (is_space c) eqn:E; [done|]. by intros [= <- _].
Qed.

Lemma lstrip_idem (s : string) : lstrip (lstrip s) = lstrip s.
Proof.
  induction s as [|c s IH]; simpl; [done|].
  destruct (is_space c) eqn:E; [done|]. simpl. by rewrite E.
Qed.

Lemma lstrip_cons_fixed (c : ascii) (s : string) :
  is_space c = false → lstrip (String c s) = String c s.
Proof. intros H. simpl. by rewrite H. Qed.

Lemma lstrip_spaces_app (w s : string) :
  all_chars is_space w = true → lstrip (w +:+ s) = lstrip s.
Proof.
  induction w as [|c w IH]; [done|]. intros [Hc Hw]%andb_true_iff.
  rewrite append_cons. simpl. by rewrite Hc, IH.
Qed.

Lemma lstrip_app_nonspace (x : string) (c : ascii) (y : string) :
  is_space c = false →
  lstrip (x +:+ String c y) = lstrip x +:+ String c y.
Proof.
  intros Hc. induction x as [|a x IH].
  - change (EmptyString +:+ String c y) with (String c y).
    by rewrite lstrip_cons_fixed.
  - rewrite append_cons. simpl. destruct (is_space a); [done|].
    by rewrite append_cons.
Qed.

Lemma rstrip_cons (c : ascii) (r : string) :
  is_space c = false →
  rstrip (String c r) = String c (rstrip r).
Proof.
  intros Hc. unfold rstrip.
  rewrite rev_cons, lstrip_app_nonspace, rev_app by done. done.
Qed.

Lemma rstrip_spaces_app (s w : string) :
  all_chars is_space w = true → rstrip (s +:+ w) = rstrip s.
Proof.
  intros Hw. unfold rstrip. rewrite rev_app, lstrip_spaces_app; [done|].
  by rewrite all_chars_rev.
Qed.

Lemma rstrip_app_fixed (s t : string) :
  t ≠ EmptyString → rstrip t = t → rstrip (s +:+ t) = s +:+ t.
Proof.
  intros Hne Ht. unfold rstrip in *. rewrite rev_app.
  destruct (rev t) as [|x y] eqn:E; [by apply rev_empty in E|].
  assert (is_space x = false) as Hx.
  { destruct (is_space x) eqn:Hx; [|done].
    simpl in Ht. rewrite Hx in Ht.
    assert (lstrip y = String x y) as Hy.
    { by rewrite <- E, <- Ht, rev_rev. }
    by rewrite (lstrip_head _ _ _ Hy) in Hx. }
  rewrite append_cons, lstrip_cons_fixed by done.
  by rewrite <- append_cons, <- E, <- rev_app, rev_rev.
Qed.

Lemma strip_digits_app (d t : string) :
  digit_string d = true → rstrip t = t → strip (d +:+ t) = d +:+ t.
Proof.
  intros [Hne Hd]%andb_true_iff Ht. unfold strip.
  destruct d as [|c d]; [done|].
  pose proof Hd as [[_ Hc]%digit_plain _]%andb_true_iff.
  rewrite append_cons, lstrip_cons_fixed, <- append_cons by done.
  destruct t as [|x t].
  - rewrite append_nil_r.
    unfold rstrip. rewrite lstrip_fixed; [apply rev_rev|].
    rewrite all_chars_rev. by apply digits_no_space.
  - by apply rstrip_app_fixed.
Qed.

Lemma strip_cons_rstrip (c : ascii) (s : string) :
  is_space c = false → strip (String c s) = String c (rstrip s).
Proof.
  intros Hc. unfold strip. by rewrite lstrip_cons_fixed, rstrip_cons.
Qed.

Lemma strip_padding (w1 s w2 : string) :
  all_chars is_space w1 = true → all_chars is_space w2 = true →
  strip (w1 +:+ s +:+ w2) = strip s.
Proof.
  intros H1 H2. unfold strip. rewrite (lstrip_spaces_app _ _ H1).
  induction s as [|c s IH].
  - change (EmptyString +:+ w2) with w2.
    rewrite <- (append_nil_r w2), (lstrip_spaces_app _ _ H2). done.
  - rewrite append_cons. simpl. destruct (is_space c) eqn:Hc; [done|].
    rewrite <- append_cons. by apply rstrip_spaces_app.
Qed.

(** *** Lower case commutes with stripping *)

Lemma lower_char_space (c : ascii) : is_space (lower_char c) = is_space c.
Proof. destruct c as [[] [] [] [] [] [] [] []]; reflexivity. Qed.

Lemma lstrip_lower (s : string) : lstrip (lower s) = lower (lstrip s).
Proof.
  induction s as [|c s IH]; simpl; [done|].
  rewrite lower_char_space. by destruct (is_space c).
Qed.

Lemma rev_lower (s : string) : rev (lower s) = lower (rev s).
Proof.
  induction s as [|c s IH]; [done|].
  cbn [lower]. by rewrite !rev_cons, lower_app, IH.
Qed.

Lemma strip_lower (s : string) : strip (lower s) = lower (strip s).
Proof.
  unfold strip, rstrip.
  by rewrite lstrip_lower, rev_lower, lstrip_lower, rev_lower.
Qed.

Lemma eqb_digit (a c : ascii) :
  is_digit a = false → is_digit c = true → Ascii.eqb a c = false.
Proof.
  intros Ha Hc. destruct (Ascii.eqb_spec a c) as [->|]; [congruence|done].
Qed.

(** *** Searching a text that starts with digits *)

Lemma contains_digits_app (a : ascii) (p d t : string) :
  is_digit a = false → all_chars is_digit d = true →
  contains (String a p) (d +:+ t) = contains (String a p) t.
Proof.
  intros Ha. induction d as [|c d IH]; [done|].
  intros [Hc Hd]%andb_true_iff.
  change (String c d +:+ t) with (String c (d +:+ t)).
  cbn [contains startswith]. by rewrite (eqb_digit a c Ha Hc), (IH Hd).
Qed.

Lemma contains_digits (a : ascii) (p d : string) :
  is_digit a = false → all_chars is_digit d = true →
  contains (String a p) d = false.
Proof.
  intros Ha Hd. rewrite <- (append_nil_r d).
  by rewrite (contains_digits_app a p d EmptyString Ha Hd).
Qed.

Lemma endswith_char_app (a : ascii) (s t : string) :
  t ≠ EmptyString →
  endswith (String a EmptyString) (s +:+ t) = endswith (String a EmptyString) t.
Proof.
  intros Ht. unfold endswith. rewrite rev_app.
  destruct (rev t) as [|x y] eqn:E; [by apply rev_empty in E|].
  change (rev (String a EmptyString)) with (String a EmptyString).
  change (String x y +:+ rev s) with (String x (y +:+ rev s)).
  cbn [startswith]. by destruct (Ascii.eqb a x).
Qed.

Lemma endswith_char_digits (a : ascii) (d : string) :
  is_digit a = false → all_chars is_digit d = true →
  endswith (String a EmptyString) d = false.
Proof.
  intros Ha Hd. unfold endswith. rewrite <- all_chars_rev in Hd.
  change (rev (String a EmptyString)) with (String a EmptyString).
  destruct (rev d) as [|x y]; [done|].
  apply andb_true_iff in Hd as [Hx _].
  cbn [startswith]. by rewrite (eqb_digit a x Ha Hx).
Qed.

Lemma drop_last_app_char (s : string) (c : ascii) :
  drop_last (s +:+ String c EmptyString) = s.
Proof.
  induction s as [|x s IH]; [done|].
  change (String x s +:+ String c EmptyString)
    with (String x (s +:+ String c EmptyString)).
  cbn [drop_last]. destruct (s +:+ String c EmptyString) as [|y r] eqn:E.
  - by destruct s.
  - by rewrite IH.
Qed.

End StrFacts.

Module NumFacts.
Import PyStr Budget StrFacts.

Lemma span_len_all (p : ascii → bool) (s : string) :
  all_chars p s = true → span_len p s = String.length s.
Proof.
  induction s as [|c s IH]; simpl; [done|].
  intros [-> Hs]%andb_true_iff. by rewrite (IH Hs).
Qed.

Lemma span_len_digits_app (d t : string) :
  all_chars is_digit d = true → number_stop t = true →
  span_len is_digit (d +:+ t) = String.length d.
Proof.
  intros Hd Ht. induction d as [|c d IH].
  - destruct t as [|c t]; [done|]. simpl in *.
    apply andb_true_iff in Ht as [Hc _]. by apply negb_true_iff in Hc as ->.
  - apply andb_true_iff in Hd as [Hc Hd]. rewrite append_cons. simpl.
    by rewrite Hc, (IH Hd).
Qed.

Lemma drop_length_app (d t : string) : drop (String.length d) (d +:+ t) = t.
Proof.
  induction d as [|c d IH]; [by destruct t|]. by rewrite append_cons.
Qed.

Lemma take_length_app (d t : string) : take (String.length d) (d +:+ t) = d.
Proof.
  induction d as [|c d IH]; [by destruct t|].
  rewrite append_cons. simpl. by rewrite IH.
Qed.

Lemma take_length (d : string) : take (String.length d) d = d.
Proof. induction d as [|c d IH]; simpl; [done|]. by rewrite IH. Qed.

Lemma drop_length (d : string) : drop (String.length d) d = EmptyString.
Proof. by induction d. Qed.

Lemma digit_no_sign (c : ascii) (r : string) :
  is_digit c = true →
  match String c r with
  | String "+"%char _ | String "-"%char _ => 1%nat
  | _ => O
  end = O
  ∧ sign_split (String c r) = (1%Z, String c r).
Proof. destruct c as [[] [] [] [] [] [] [] []]; by vm_compute. Qed.

Lemma not_dot_plain {A : Type} (t : string) (f : string → A) (y : A) :
  number_stop t = true →
  match t with
  | String "."%char r => f r
  | _ => y
  end = y.
Proof.
  destruct t as [|c t]; [done|]. simpl.
  intros [_ Hc]%andb_true_iff. revert Hc.
  destruct c as [[] [] [] [] [] [] [] []]; by vm_compute.
Qed.

Lemma match_number_digits (d t : string) :
  digit_string d = true → number_stop t = true →
  match_number (d +:+ t) = Some (String.length d).
Proof.
  intros [Hne Hd]%andb_true_iff Ht.
  destruct d as [|c d]; [done|]. clear Hne.
  pose proof Hd as [Hc _]%andb_true_iff.
  unfold match_number. rewrite append_cons.
  rewrite (proj1 (digit_no_sign c (d +:+ t) Hc)). cbv zeta.
  change (drop 0 (String c (d +:+ t))) with (String c d +:+ t).
  rewrite (span_len_digits_app _ _ Hd Ht), drop_length_app.
  rewrite (not_dot_plain t _ _ Ht). done.
Qed.

Lemma findall_from_skip (n : nat) (s : string) :
  (String.length s ≤ n)%nat → findall_from n s = [].
Proof.
  revert n. induction s as [|c s IH]; intros n Hn; simpl; [done|].
  simpl in Hn. destruct n as [|n]; [lia|]. apply IH. lia.
Qed.

Lemma first_number_digits_app (d t : string) :
  digit_string d = true → number_stop t = true →
  first_number (d +:+ t) = py_float d.
Proof.
  intros Hd Ht. unfold first_number, findall.
  pose proof (match_number_digits d t Hd Ht) as Hm.
  destruct d as [|c d]; [done|]. rewrite append_cons in *.
  cbn [findall_from]. rewrite Hm.
  rewrite <- append_cons, take_length_app. done.
Qed.

Lemma first_number_digits (d : string) :
  digit_string d = true → first_number d = py_float d.
Proof.
  intros Hd. rewrite <- (append_nil_r d) at 1.
  by apply first_number_digits_app.
Qed.

(** *** [float] and [round] on whole numbers *)

Lemma digit_not_underscore (c : ascii) :
  is_digit c = true →
  Ascii.eqb c "_"%char = false ∧ is_digit_or_us c = true ∧
  is_space c = false.
Proof. destruct c as [[] [] [] [] [] [] [] []]; by vm_compute. Qed.

Lemma underscores_ok_digits (d : string) :
  all_chars is_digit d = true → underscores_ok d = true.
Proof.
  induction d as [|c d IH]; simpl; [done|].
  intros [Hc Hd]%andb_true_iff.
  by rewrite (proj1 (digit_not_underscore c Hc)), (IH Hd).
Qed.

Lemma remove_underscores_digits (d : string) :
  all_chars is_digit d = true → remove_underscores d = d.
Proof.
  induction d as [|c d IH]; simpl; [done|].
  intros [Hc Hd]%andb_true_iff.
  by rewrite (proj1 (digit_not_underscore c Hc)), (IH Hd).
Qed.

Lemma read_digitpart_digits (d : string) :
  digit_string d = true → read_digitpart d = Some (d, EmptyString).
Proof.
  intros [Hne Hd]%andb_true_iff. unfold read_digitpart.
  rewrite span_len_all.
  2:{ revert Hd. apply all_chars_impl. intros c Hc.
      by apply digit_not_underscore in Hc as (_ & -> & _). }
  rewrite take_length, drop_length. cbv zeta.
  destruct d as [|c d]; [done|].
  pose proof Hd as [Hc _]%andb_true_iff.
  by rewrite Hc, (underscores_ok_digits _ Hd), (remove_underscores_digits _ Hd).
Qed.

Lemma Q2Qc_whole (z : Z) : Q2Qc (inject_Z z) = Qc_of_Z z.
Proof. apply Qc_is_canon. simpl. apply Qred_correct. Qed.

Lemma decimal_value_whole (v : Z) (d : string) :
  digits_val 0 d = v →
  decimal_value 1 d EmptyString 0 = Qc_of_Z v.
Proof.
  intros <-. unfold decimal_value.
  change (Q2Qc (inject_Z (1 * (digits_val 0 d * 1 + 0))) * Q2Qc (inject_Z 1)
          = Qc_of_Z (digits_val 0 d))%Qc.
  rewrite !Q2Qc_whole, <- Z2Qc_inj_mul. f_equal. lia.
Qed.

Lemma py_float_digits (d : string) :
  digit_string d = true → py_float d = Some (Qc_of_Z (digits_val 0 d)).
Proof.
  intros Hd. pose proof Hd as [Hne Hall]%andb_true_iff.
  unfold py_float. rewrite strip_fixed.
  2:{ revert Hall. apply all_chars_impl. intros c Hc.
      by apply digit_not_underscore in Hc as (_ & _ & ->). }
  destruct d as [|c d]; [done|].
  pose proof Hall as [Hc _]%andb_true_iff.
  rewrite (proj2 (digit_no_sign c d Hc)).
  rewrite (read_digitpart_digits _ Hd). cbn.
  by rewrite (decimal_value_whole _ _ eq_refl).
Qed.

Lemma py_round_whole (z : Z) : py_round (Qc_of_Z z) = z.
Proof.
  unfold py_round, Qc_of_Z. cbn [this Qnum Qden inject_Z].
  by rewrite Z.div_1_r, Z.mod_1_r.
Qed.

Lemma py_round_whole_mul (z m : Z) :
  py_round (Qc_of_Z z * Qc_of_Z m) = (z * m)%Z.
Proof. by rewrite <- Z2Qc_inj_mul, py_round_whole. Qed.

Lemma Qc_leb_whole (a b : Z) : Qc_leb (Qc_of_Z a) (Qc_of_Z b) = (a <=? b)%Z.
Proof.
  unfold Qc_leb. destruct (Z.leb_spec a b) as [H|H].
  - apply bool_decide_eq_true_2. by apply (proj1 (Z2Qc_inj_le a b)).
  - apply bool_decide_eq_false_2. intros H'.
    apply (proj2 (Z2Qc_inj_le a b)) in H'. lia.
Qed.

Lemma Qc_ltb_whole (a b : Z) : Qc_ltb (Qc_of_Z a) (Qc_of_Z b) = (a <? b)%Z.
Proof.
  unfold Qc_ltb. destruct (Z.ltb_spec a b) as [H|H].
  - apply bool_decide_eq_true_2. by apply (proj1 (Z2Qc_inj_lt a b)).
  - apply bool_decide_eq_false_2. intros H'.
    apply (proj2 (Z2Qc_inj_lt a b)) in H'. lia.
Qed.

End NumFacts.

(* ===================================================================== *)
(** ** More on the budget parser and the price display *)
(* ===================================================================== *)

Module ParseFacts.
Import PyStr Budget StrFacts NumFacts.

Lemma startswith_prefix (p q s : string) :
  startswith (p +:+ q) s = true → startswith p s = true.
Proof.
  revert s. induction p as [|a p IH]; intros s; [done|].
  rewrite append_cons. destruct s as [|b s]; simpl; [done|].
  destruct (Ascii.eqb a b); [apply IH|done].
Qed.

Lemma contains_prefix (p q s : string) :
  contains (p +:+ q) s = true → contains p s = true.
Proof.
  induction s as [|c s IH]; cbn [contains].
  - rewrite !orb_false_r. apply startswith_prefix.
  - intros [H|H]%orb_true_iff.
    + by rewrite (startswith_prefix _ _ _ H).
    + rewrite (IH H). apply orb_true_r.
Qed.

(** Evaluates the tests of the parser on closed texts. *)
Ltac compute_tests :=
  repeat match goal with
         | |- context [contains ?p ?t] =>
             let b := eval vm_compute in (contains p t) in
             match b with true => idtac | false => idtac end;
             change (contains p t) with b
         | |- context [endswith ?p ?t] =>
             let b := eval vm_compute in (endswith p t) in
             match b with true => idtac | false => idtac end;
             change (endswith p t) with b
         end;
  cbn [orb andb negb].

Lemma digit_string_nonempty (d t : string) :
  digit_string d = true → is_empty (d +:+ t) = false.
Proof. by destruct d. Qed.

(** The clean-up of [parse_budget_input] leaves digits followed by a
    plain text as they are. *)
Lemma normal_form_digits_app (d t : string) :
  digit_string d = true → all_chars plain_char t = true → rstrip t = t →
  replace rupee EmptyString
    (replace "," EmptyString (lower (strip (d +:+ t)))) = d +:+ t.
Proof.
  intros Hd Ht Hr. pose proof Hd as [_ Hall]%andb_true_iff.
  apply normal_form_plain; [by apply strip_digits_app|].
  by rewrite all_chars_app, (digits_plain _ Hall), Ht.
Qed.

Lemma thresholds_whole (v : Z) :
  (if Qc_leb (Qc_of_Z 100000) (Qc_of_Z v) then Some (py_round (Qc_of_Z v))
   else if Qc_ltb (Qc_of_Z 1000) (Qc_of_Z v)
           && Qc_ltb (Qc_of_Z v) (Qc_of_Z 100000)
   then Some (py_round (Qc_of_Z v))
   else Some (py_round (Qc_of_Z v * Qc_of_Z 100000)))
  = Some (if (1000 <? v)%Z then v else (v * 100000)%Z).
Proof.
  rewrite Qc_leb_whole, !Qc_ltb_whole, py_round_whole, py_round_whole_mul.
  destruct (Z.leb_spec 100000 v), (Z.ltb_spec 1000 v), (Z.ltb_spec v 100000);
    simpl; try done; lia.
Qed.

(** A text that cleans up to digits only is read by the last branch. *)
Lemma parse_cleaned_digits (s d : string) :
  replace rupee EmptyString (replace "," EmptyString (lower (strip s))) = d →
  digit_string d = true →
  parse_budget_input (Some s)
  = Some (if (1000 <? digits_val 0 d)%Z then digits_val 0 d
          else (digits_val 0 d * 100000)%Z).
Proof.
  intros Hs Hd. pose proof Hd as [_ Hall]%andb_true_iff.
  unfold parse_budget_input. rewrite Hs.
  rewrite <- (append_nil_r d) at 1.
  rewrite (digit_string_nonempty d EmptyString Hd).
  rewrite !contains_digits by done.
  rewrite !endswith_char_digits by done. cbn [orb andb negb].
  rewrite (first_number_digits d Hd), (py_float_digits d Hd).
  apply thresholds_whole.
Qed.

Lemma parse_thousands (d : string) :
  digit_string d = true →
  parse_budget_input (Some (d +:+ "k"))
  = Some (digits_val 0 d * 1000)%Z.
Proof.
  intros Hd. pose proof Hd as [_ Hall]%andb_true_iff.
  unfold parse_budget_input.
  rewrite normal_form_digits_app by done.
  rewrite (digit_string_nonempty d _ Hd).
  rewrite !contains_digits_app by done.
  rewrite !endswith_char_app by done.
  rewrite drop_last_app_char, (py_float_digits d Hd).
  compute_tests. by rewrite py_round_whole_mul.
Qed.

Lemma parse_trailing_l (d : string) :
  digit_string d = true →
  parse_budget_input (Some (d +:+ "l"))
  = Some (digits_val 0 d * 100000)%Z.
Proof.
  intros Hd. pose proof Hd as [_ Hall]%andb_true_iff.
  unfold parse_budget_input.
  rewrite normal_form_digits_app by done.
  rewrite (digit_string_nonempty d _ Hd).
  rewrite !contains_digits_app by done.
  rewrite !endswith_char_app by done.
  rewrite drop_last_app_char, (py_float_digits d Hd).
  compute_tests. by rewrite py_round_whole_mul.
Qed.

Lemma parse_crore (d t : string) :
  digit_string d = true → all_chars plain_char t = true → rstrip t = t →
  number_stop t = true → contains "cr" t = true →
  parse_budget_input (Some (d +:+ t))
  = Some (digits_val 0 d * 10000000)%Z.
Proof.
  intros Hd Ht Hr Hstop Hcr. pose proof Hd as [_ Hall]%andb_true_iff.
  unfold parse_budget_input.
  rewrite normal_form_digits_app by done.
  rewrite (digit_string_nonempty d _ Hd).
  rewrite !contains_digits_app by done. rewrite Hcr. cbn [orb].
  rewrite (first_number_digits_app d t Hd Hstop), (py_float_digits d Hd).
  by rewrite py_round_whole_mul.
Qed.

Lemma parse_lakh (d t : string) :
  digit_string d = true → all_chars plain_char t = true → rstrip t = t →
  number_stop t = true → contains "cr" t = false →
  contains "lakh" t = true →
  endswith "k" t = false →
  parse_budget_input (Some (d +:+ t))
  = Some (digits_val 0 d * 100000)%Z.
Proof.
  intros Hd Ht Hr Hstop Hcr Hlakh Hk. pose proof Hd as [_ Hall]%andb_true_iff.
  assert (t ≠ EmptyString) as Hne by by intros ->.
  assert (contains "crore" t = false) as Hcrore.
  { destruct (contains "crore" t) eqn:E; [|done].
    apply (contains_prefix "cr" "ore") in E. congruence. }
  unfold parse_budget_input.
  rewrite normal_form_digits_app by done.
  rewrite (digit_string_nonempty d _ Hd).
  rewrite !contains_digits_app by done.
  rewrite Hcr, Hcrore, Hlakh. cbn [orb].
  rewrite (endswith_char_app _ d t Hne), Hk. cbn [andb negb].
  rewrite (first_number_digits_app d t Hd Hstop), (py_float_digits d Hd).
  by rewrite py_round_whole_mul.
Qed.

Lemma cleaned_lower (s : string) :
  lower (strip (lower s)) = lower (strip s).
Proof. by rewrite strip_lower, lower_idem. Qed.

End ParseFacts.

Module PrettyFacts.
Import PyStr Budget StrFacts NumFacts.

Lemma digits_val_acc (acc : Z) (s : string) :
  digits_val acc s
  = (acc * 10 ^ Z.of_nat (String.length s) + digits_val 0 s)%Z.
Proof.
  revert acc. induction s as [|c s IH]; intros acc.
  - simpl. lia.
  - cbn [digits_val String.length].
    rewrite (IH (10 * acc + digit_val c)%Z), (IH (10 * 0 + digit_val c)%Z).
    rewrite Nat2Z.inj_succ, Z.pow_succ_r by lia. lia.
Qed.

Lemma pretty_N_char_digit (x : N) :
  (x < 10)%N →
  is_digit (pretty_N_char x) = true ∧ digit_val (pretty_N_char x) = Z.of_N x.
Proof.
  intros Hx.
  assert (x = 0 ∨ x = 1 ∨ x = 2 ∨ x = 3 ∨ x = 4 ∨ x = 5 ∨ x = 6 ∨ x = 7
          ∨ x = 8 ∨ x = 9)%N as H by lia.
  repeat (destruct H as [->|H]; [by vm_compute|]). subst. by vm_compute.
Qed.

Lemma pretty_N_go_digits (x : N) (s : string) :
  all_chars is_digit s = true → all_chars is_digit (pretty_N_go x s) = true.
Proof.
  revert s. induction (N.lt_wf_0 x) as [x _ IH]; intros s Hs.
  assert (x = 0 ∨ 0 < x)%N as [->|Hx] by lia; [by rewrite pretty_N_go_0|].
  rewrite pretty_N_go_step by done. apply IH; [by apply N.div_lt|].
  assert (x `mod` 10 < 10)%N as Hm by by apply N.mod_lt.
  simpl. by rewrite (proj1 (pretty_N_char_digit _ Hm)).
Qed.

Lemma pretty_N_go_val (x : N) (s : string) :
  digits_val 0 (pretty_N_go x s)
  = (Z.of_N x * 10 ^ Z.of_nat (String.length s) + digits_val 0 s)%Z.
Proof.
  revert s. induction (N.lt_wf_0 x) as [x _ IH]; intros s.
  assert (x = 0 ∨ 0 < x)%N as [->|Hx] by lia.
  { rewrite pretty_N_go_0. lia. }
  rewrite pretty_N_go_step by done. rewrite IH by by apply N.div_lt.
  cbn [digits_val String.length].
  rewrite (digits_val_acc (10 * 0 + _)).
  assert (x `mod` 10 < 10)%N as Hm by by apply N.mod_lt.
  rewrite (proj2 (pretty_N_char_digit _ Hm)).
  rewrite Nat2Z.inj_succ, Z.pow_succ_r by lia.
  rewrite (N.div_mod x 10) at 3 by done.
  rewrite N2Z.inj_add, N2Z.inj_mul. 
  change (Z.of_N 10) with 10%Z. lia.
Qed.

Lemma pretty_N_go_nonempty (x : N) (s : string) :
  s ≠ EmptyString → pretty_N_go x s ≠ EmptyString.
Proof.
  revert s. induction (N.lt_wf_0 x) as [x _ IH]; intros s Hs.
  assert (x = 0 ∨ 0 < x)%N as [->|Hx] by lia; [by rewrite pretty_N_go_0|].
  rewrite pretty_N_go_step by done. apply IH; [by apply N.div_lt|done].
Qed.

Lemma pretty_N_digits (x : N) :
  digit_string (pretty x) = true ∧ digits_val 0 (pretty x) = Z.of_N x.
Proof.
  unfold pretty, pretty_N. case_decide as Hx; [by subst|].
  split.
  - apply andb_true_iff. split.
    + rewrite pretty_N_go_step by lia.
      pose proof (pretty_N_go_nonempty (x `div` 10)
                    (String (pretty_N_char (x `mod` 10)) EmptyString)) as H.
      destruct (pretty_N_go _ _); [by destruct H|done].
    + by apply pretty_N_go_digits.
  - rewrite pretty_N_go_val. simpl. lia.
Qed.

(** The decimal text of a whole number that is not negative consists of
    digits and denotes that number. *)
Lemma pretty_Z_digits (n : Z) :
  (0 ≤ n)%Z →
  digit_string (pretty n) = true ∧ digits_val 0 (pretty n) = n.
Proof.
  intros Hn. destruct n as [|p|p]; [done| |lia].
  change (pretty (Z.pos p)) with (pretty (N.pos p)).
  apply (pretty_N_digits (N.pos p)).
Qed.

Lemma rupee_not_plain_head :
  ∃ a r, rupee = String a r ∧ String.length rupee = 3%nat ∧
         is_space a = false ∧ is_digit a = false.
Proof. eexists _, _. by vm_compute. Qed.

(** The clean-up of [parse_budget_input] takes the rupee sign off a
    number. *)
Lemma normal_form_rupee_digits (d : string) :
  digit_string d = true →
  replace rupee EmptyString
    (replace "," EmptyString (lower (strip (rupee +:+ d)))) = d.
Proof.
  intros [Hne Hd]%andb_true_iff.
  assert (all_chars (λ c, negb (is_space c)) (rupee +:+ d) = true) as H1.
  { rewrite all_chars_app, (digits_no_space _ Hd). by vm_compute. }
  assert (all_chars (λ c, negb (is_upper c)) (rupee +:+ d) = true) as H2.
  { rewrite all_chars_app. apply andb_true_iff. split; [by vm_compute|].
    revert Hd. apply all_chars_impl. intros c Hc.
    by apply digit_plain in Hc as [(-> & _)%plain_char_spec _]. }
  assert (all_chars (λ c, negb (Ascii.eqb ","%char c)) (rupee +:+ d) = true)
    as H3.
  { rewrite all_chars_app. apply andb_true_iff. split; [by vm_compute|].
    revert Hd. apply all_chars_impl. intros c Hc.
    by apply digit_plain in Hc as [(_ & -> & _)%plain_char_spec _]. }
  rewrite (strip_fixed _ H1), (lower_fixed _ H2), (replace_absent _ _ _ _ H3).
  unfold replace, rupee.
  rewrite !append_cons. cbn [replace_from startswith Ascii.eqb Bool.eqb].
  change (EmptyString +:+ d) with d. cbn.
  apply (replace_absent (Ascii.ascii_of_N 226)).
  revert Hd. apply all_chars_impl. intros c Hc.
  by apply digit_plain in Hc as [(_ & _ & ->)%plain_char_spec _].
Qed.

End PrettyFacts.

(** X13.  A text of decimal digits only (leading zeros allowed, value up
    to 2^53, where a float still holds every whole number) is read by the
    last branch of [parse_budget_input]: a value above 1000 is taken as
    rupees, a value of 1000 or less as lakhs. *)
Theorem parse_budget_whole_number (d : string) :
  digit_string d = true → (PyStr.digits_val 0 d ≤ 2 ^ 53)%Z →
  Budget.parse_budget_input (Some d)
  = Some (if (1000 <? PyStr.digits_val 0 d)%Z then PyStr.digits_val 0 d
          else (PyStr.digits_val 0 d * 100000)%Z).
Proof.
  intros Hd _. apply ParseFacts.parse_cleaned_digits; [|done].
  rewrite <- (StrFacts.append_nil_r d).
  by apply ParseFacts.normal_form_digits_app.
Qed.

(** X14.  The unit suffixes on a whole number [d]: [k] multiplies by a
    thousand, [l], [lakh] and [lakhs] by a hundred thousand, [cr] and
    [crore] by ten million - whatever the size of the number, so the
    thresholds of the plain reading play no part here. *)
Theorem parse_budget_suffixes (d : string) :
  digit_string d = true → (PyStr.digits_val 0 d * 10000000 ≤ 2 ^ 53)%Z →
  Budget.parse_budget_input (Some (d +:+ "k"))
    = Some (PyStr.digits_val 0 d * 1000)%Z ∧
  Budget.parse_budget_input (Some (d +:+ "l"))
    = Some (PyStr.digits_val 0 d * 100000)%Z ∧
  Budget.parse_budget_input (Some (d +:+ "lakh"))
    = Some (PyStr.digits_val 0 d * 100000)%Z ∧
  Budget.parse_budget_input (Some (d +:+ " lakhs"))
    = Some (PyStr.digits_val 0 d * 100000)%Z ∧
  Budget.parse_budget_input (Some (d +:+ "cr"))
    = Some (PyStr.digits_val 0 d * 10000000)%Z ∧
  Budget.parse_budget_input (Some (d +:+ " crore"))
    = Some (PyStr.digits_val 0 d * 10000000)%Z.
Proof.
  intros Hd _. split_and!.
  - by apply ParseFacts.parse_thousands.
  - by apply ParseFacts.parse_trailing_l.
  - by apply ParseFacts.parse_lakh.
  - by apply ParseFacts.parse_lakh.
  - by apply ParseFacts.parse_crore.
  - by apply ParseFacts.parse_crore.
Qed.

(** X15.  The parser sees neither letter case nor white space around the
    text: the lower-case form of a text, and the text between any two
    runs of white space, are read as the text itself. *)
Theorem parse_budget_case_and_padding (s w1 w2 : string) :
  all_chars PyStr.is_space w1 = true → all_chars PyStr.is_space w2 = true →
  Budget.parse_budget_input (Some (PyStr.lower s))
    = Budget.parse_budget_input (Some s) ∧
  Budget.parse_budget_input (Some (w1 +:+ s +:+ w2))
    = Budget.parse_budget_input (Some s).
Proof.
  intros H1 H2. unfold Budget.parse_budget_input.
  by rewrite ParseFacts.cleaned_lower, (StrFacts.strip_padding w1 s w2 H1 H2).
Qed.

(** X16.  What [format_price] shows for an amount below one lakh, read
    back by [parse_budget_input]: an amount above 1000 comes back as it
    was, an amount of 1000 or less comes back a hundred thousand times
    larger. *)
Theorem format_price_parsed_back (round_text : Qc → Z → string)
    (inr : price_arg) (n : Z) :
  price_int inr = Some n → (0 ≤ n < 100000)%Z →
  Budget.parse_budget_input (Some (format_price round_text inr))
  = Some (if (1000 <? n)%Z then n else (n * 100000)%Z).
Proof.
  intros Hint [Hlo Hhi].
  destruct (PrettyFacts.pretty_Z_digits n Hlo) as [Hd Hv].
  assert (format_price round_text inr = Budget.rupee +:+ pretty n) as ->.
  { unfold format_price.
    destruct inr as [m|[x|]|]; simplify_eq/=; 
      (rewrite (proj2 (Z.leb_gt _ _)) by lia);
      (rewrite (proj2 (Z.leb_gt _ _)) by lia); done. }
  rewrite (ParseFacts.parse_cleaned_digits _ (pretty n)); [by rewrite Hv| |done].
  by apply PrettyFacts.normal_form_rupee_digits.
Qed.

Lemma parse_budget_whole_number_witness :
  digit_string "0750" = true ∧ (PyStr.digits_val 0 "0750" ≤ 2 ^ 53)%Z ∧
  Budget.parse_budget_input (Some "0750") = Some 75000000%Z.
Proof.
  assert (digit_string "0750" = true) as Hd by done.
  assert (PyStr.digits_val 0 "0750" ≤ 2 ^ 53)%Z as Hv by by vm_compute.
  split; [exact Hd|]. split; [exact Hv|].
  exact (parse_budget_whole_number "0750" Hd Hv).
Defined.

Lemma parse_budget_suffixes_witness :
  digit_string "45" = true ∧ (PyStr.digits_val 0 "45" * 10000000 ≤ 2 ^ 53)%Z ∧
  Budget.parse_budget_input (Some "45k") = Some 45000%Z ∧
  Budget.parse_budget_input (Some "45 crore") = Some 450000000%Z.
Proof.
  assert (digit_string "45" = true) as Hd by done.
  assert (PyStr.digits_val 0 "45" * 10000000 ≤ 2 ^ 53)%Z as Hv by by vm_compute.
  split; [exact Hd|]. split; [exact Hv|].
  destruct (parse_budget_suffixes "45" Hd Hv) as (Hk & _ & _ & _ & _ & Hcr).
  split; [exact Hk|exact Hcr].
Defined.

Lemma parse_budget_case_and_padding_witness :
  all_chars PyStr.is_space "  " = true ∧ all_chars PyStr.is_space " " = true ∧
  Budget.parse_budget_input (Some "1.2cr")
    = Budget.parse_budget_input (Some "1.2Cr") ∧
  Budget.parse_budget_input (Some "  1.2Cr ")
    = Budget.parse_budget_input (Some "1.2Cr").
Proof.
  assert (all_chars PyStr.is_space "  " = true) as H1 by done.
  assert (all_chars PyStr.is_space " " = true) as H2 by done.
  split; [exact H1|]. split; [exact H2|].
  exact (parse_budget_case_and_padding "1.2Cr" "  " " " H1 H2).
Defined.

Lemma format_price_parsed_back_witness :
  price_int (PInt 45000) = Some 45000%Z ∧ (0 ≤ 45000 < 100000)%Z ∧
  Budget.parse_budget_input
    (Some (format_price (λ _ _, EmptyString) (PInt 45000)))
  = Some 45000%Z.
Proof.
  assert (0 ≤ 45000 < 100000)%Z as Hn by lia.
  split; [reflexivity|]. split; [exact Hn|].
  exact (format_price_parsed_back (λ _ _, EmptyString) (PInt 45000) 45000
           eq_refl Hn).
Defined.

(* ===================================================================== *)
(** ** The shortlist and the comparison list *)
(* ===================================================================== *)

Lemma list_remove_elem (x y : string) (l : list string) :
  y ∈ App.list_remove x l → y ∈ l.
Proof.
  induction l as [|z l IH]; simpl; [done|].
  case_decide as Hz; [by right|]. intros [->|Hy]%elem_of_cons; [by left|].
  right. by apply IH.
Qed.

Lemma list_remove_NoDup (x : string) (l : list string) :
  NoDup l → NoDup (App.list_remove x l) ∧ x ∉ App.list_remove x l.
Proof.
  induction 1 as [|z l Hz Hl IH]; simpl.
  - split; [constructor|]. by intros ?%elem_of_nil.
  - case_decide as Hx; [by subst|].
    destruct IH as [IH1 IH2]. split.
    + constructor; [|done]. by intros ?%list_remove_elem.
    + intros [->|H]%elem_of_cons; done.
Qed.

Lemma list_remove_length (x : string) (l : list string) :
  (length (App.list_remove x l) ≤ length l)%nat.
Proof. induction l as [|z l IH]; simpl; [done|]. case_decide; simpl; lia. Qed.

Lemma list_remove_snoc (x : string) (l : list string) :
  x ∉ l → App.list_remove x (l ++ [x]) = l.
Proof.
  induction l as [|z l IH]; simpl; intros Hx.
  - by rewrite decide_True.
  - apply not_elem_of_cons in Hx as [Hxz Hx].
    rewrite decide_False by done. by rewrite IH.
Qed.

Lemma list_remove_perm (x : string) (l : list string) :
  x ∈ l → App.list_remove x l ++ [x] ≡ₚ l.
Proof.
  induction l as [|z l IH]; simpl; [by intros ?%elem_of_nil|].
  case_decide as Hz.
  - subst. intros _. by rewrite <- Permutation_cons_append.
  - intros [->|H]%elem_of_cons; [done|]. simpl. by rewrite IH.
Qed.

Lemma NoDup_snoc_fresh (x : string) (l : list string) :
  NoDup l → x ∉ l → NoDup (l ++ [x]).
Proof.
  intros Hl Hx. apply NoDup_app. split_and!; [done| |apply NoDup_singleton].
  intros y Hy ->%list_elem_of_singleton. done.
Qed.

(** X17.  The three helpers keep the session in order: if no car is
    listed twice and at most three are compared, the same holds after
    [add_to_shortlist], [remove_from_shortlist] and [toggle_compare] -
    and it holds of the empty lists a session starts with. *)
Theorem session_helpers_keep_order (uid : string) (st : App.session) :
  App.session_ok st →
  App.session_ok (App.add_to_shortlist uid st) ∧
  App.session_ok (App.remove_from_shortlist uid st) ∧
  App.session_ok (App.toggle_compare uid st).
Proof.
  intros (Hs & Hc & Hlen).
  unfold App.add_to_shortlist, App.remove_from_shortlist, App.toggle_compare.
  split; [|split]; unfold App.session_ok.
  - case_bool_decide as Hin; [by split_and!|]. simpl.
    split_and!; [by apply NoDup_snoc_fresh|done|done].
  - case_bool_decide as Hin; [|by split_and!]. simpl.
    split_and!; [by apply list_remove_NoDup|done|done].
  - case_bool_decide as Hin.
    + simpl. split_and!; [done|by apply list_remove_NoDup|].
      pose proof (list_remove_length uid (App.compare st)). lia.
    + destruct (Nat.leb_spec 3 (length (App.compare st))) as [H3|H3]; simpl.
      * by split_and!.
      * split_and!; [done|by apply NoDup_snoc_fresh|].
        rewrite length_app. simpl. lia.
Qed.

(** X18.  Undoing a click, in a session that is in order.  Shortlisting
    a car that was not listed and removing it again gives back the session
    as it was, and so does comparing and un-comparing a car while fewer
    than three are compared.  Toggling twice a car that was compared
    keeps the same cars compared, with that car moved to the end. *)
Theorem session_helpers_undo (uid : string) (st : App.session) :
  App.session_ok st →
  (uid ∉ App.shortlist st →
   App.remove_from_shortlist uid (App.add_to_shortlist uid st) = st) ∧
  (uid ∉ App.compare st → (length (App.compare st) < 3)%nat →
   App.toggle_compare uid (App.toggle_compare uid st) = st) ∧
  (uid ∈ App.compare st →
   App.compare (App.toggle_compare uid (App.toggle_compare uid st))
   = App.list_remove uid (App.compare st) ++ [uid] ∧
   App.compare (App.toggle_compare uid (App.toggle_compare uid st))
   ≡ₚ App.compare st).
Proof.
  destruct st as [sl cmp ws]. intros (_ & Hnd & Hlen).
  unfold App.add_to_shortlist, App.remove_from_shortlist, App.toggle_compare.
  cbn [App.shortlist App.compare App.warnings] in *. split_and!.
  - intros Hout. rewrite (bool_decide_eq_false_2 _ Hout).
    cbn [App.shortlist App.compare App.warnings].
    rewrite bool_decide_eq_true_2 by (apply elem_of_app; right; by left).
    by rewrite list_remove_snoc.
  - intros Hout Hlt. rewrite (bool_decide_eq_false_2 _ Hout).
    rewrite (proj2 (Nat.leb_gt 3 (length cmp))) by done.
    cbn [App.shortlist App.compare App.warnings].
    rewrite bool_decide_eq_true_2 by (apply elem_of_app; right; by left).
    by rewrite list_remove_snoc.
  - intros Hin. rewrite (bool_decide_eq_true_2 _ Hin).
    cbn [App.shortlist App.compare App.warnings].
    destruct (list_remove_NoDup uid cmp Hnd) as [_ Hout].
    rewrite (bool_decide_eq_false_2 _ Hout).
    pose proof (list_remove_perm uid cmp Hin) as Hp.
    assert (length (App.list_remove uid cmp) < 3)%nat as Hlt.
    { apply Permutation_length in Hp. rewrite length_app in Hp.
      simpl in Hp. lia. }
    rewrite (proj2 (Nat.leb_gt 3 _)) by done.
    cbn [App.shortlist App.compare App.warnings]. by split.
Qed.

Lemma session_helpers_keep_order_witness :
  App.session_ok App.initial ∧
  App.session_ok (App.toggle_compare "car-7" App.initial).
Proof.
  assert (App.session_ok App.initial) as H0.
  { unfold App.session_ok, App.initial. simpl.
    split; [constructor|]. split; [constructor|lia]. }
  split; [exact H0|].
  destruct (session_helpers_keep_order "car-7" App.initial H0) as (_ & _ & H).
  exact H.
Defined.

Lemma session_helpers_undo_witness :
  App.session_ok App.initial ∧
  App.remove_from_shortlist "car-7" (App.add_to_shortlist "car-7" App.initial)
  = App.initial.
Proof.
  assert (App.session_ok App.initial) as H0.
  { unfold App.session_ok, App.initial. simpl.
    split; [constructor|]. split; [constructor|lia]. }
  assert ("car-7" ∉ App.shortlist App.initial) as Hout.
  { simpl. apply not_elem_of_nil. }
  split; [exact H0|].
  destruct (session_helpers_undo "car-7" App.initial H0) as (H & _ & _).
  exact (H Hout).
Defined.

